(** * Path containment gate and client credential validator

    A shallow embedding of the operative code of the fuzzing suite:

    - [FilePathRestrictionsFuzzer] (test_file_path_restrictions.py) with its
      two containment checks [is_path_allowed] (the reproduction of the
      C++ [IsPathAllowed] prefix test) and [is_path_allowed_safe];
    - [ClientAuthenticationFuzzer] (test_authentication_system.py) with
      [validate_client_input] and, in module [Client], the steps of its
      authentication flow;
    - of the tests that drive them, those whose outcome is a property
      of the two classes: [test_combined_attack_fuzzing] and the failure
      report of the stress test, [test_cpp_vulnerability_showcase] and
      [test_prefix_boundary_attacks].

    The host is a POSIX one ([platform.system() != "Windows"]), so [os.path]
    is [posixpath] and [pathlib.Path] is [PosixPath]; the library calls
    behave as in CPython 3.11 run with its default options, with UTF-8
    as the encoding of file names and of the standard output.  A Python
    [str] is a sequence of code points; exceptions are explicit results;
    what the calls read from the operating system and the interpreter
    (home directories, working directory, symbolic links, the answer of
    [stat] for a path that runs into a symbolic link loop, the room that
    the recursion limit leaves, the error handler of the standard
    output) is a parameter, [Env]. *)

From Stdlib Require Import String Ascii DecimalString.
From Stdlib Require Import List NArith ZArith Bool Lia PeanoNat.
From Stdlib Require Import Sorted Permutation.
Import ListNotations.

(** ** Python strings and values *)

(** A Python [str]: the list of its code points. *)
Abbreviation pystr := (list N) (only parsing).

(** A string literal of the source, as a [pystr]. *)
Definition lit (s : string) : pystr :=
  map N_of_ascii (list_ascii_of_string s).

Definition NUL : N := 0%N.
Definition SLASH : N := 47%N.
Definition BACKSLASH : N := 92%N.
Definition DOT : N := 46%N.
Definition TILDE : N := 126%N.

(** The values a caller can pass where a path or a password is expected. *)
#[local] Unset Elimination Schemes.
Inductive pyval : Type :=
| PyNone
| PyBool (b : bool)
| PyInt (z : Z)
| PyBytes (b : list N)
| PyStr (s : pystr)
| PyList (l : list pyval).
#[local] Set Elimination Schemes.

Definition is_str (v : pyval) : bool :=
  match v with PyStr _ => true | _ => false end.

(** [c in s] for a one-character [c]. *)
Definition contains (c : N) (s : pystr) : bool := existsb (N.eqb c) s.

Definition pystr_eqb (a b : pystr) : bool :=
  if list_eq_dec N.eq_dec a b then true else false.

(** [s.startswith(p)] *)
Fixpoint startswith (s p : pystr) {struct p} : bool :=
  match p, s with
  | [], _ => true
  | _ :: _, [] => false
  | c :: p', d :: s' => N.eqb c d && startswith s' p'
  end.

(** [s.replace(a, b)] for one-character [a] and [b]. *)
Definition replace (a b : N) (s : pystr) : pystr :=
  map (fun c => if N.eqb c a then b else c) s.

(** [str(n)] for a non-negative integer. *)
Definition str_of_nat (n : nat) : pystr :=
  lit (NilZero.string_of_uint (Nat.to_uint n)).

(** ** The client credential validator *)

Module Auth.

(** [ClientAuthenticationFuzzer]: the one field [validate_client_input]
    reads. *)
Record ClientAuthenticationFuzzer : Type :=
  { max_password_length : nat }.

(** [__init__]: [PasswordEdit->MaxLength = 16]. *)
Definition init : ClientAuthenticationFuzzer :=
  {| max_password_length := 16 |}.

(** The local list [control_chars] of [validate_client_input]. *)
Definition control_chars : list N :=
  [1; 2; 3; 4; 5; 6; 7; 8;
   14; 15; 16; 17; 18; 19; 20; 21;
   22; 23; 24; 25; 26; 27; 28; 29; 30; 31]%N.

Definition hex_digit (n : N) : N :=
  if (n <? 10)%N then (48 + n)%N else (87 + n)%N.

(** [repr(char)] for a control character of [control_chars]: the six
    characters quote, backslash, x, two lower-case hexadecimal digits,
    quote. *)
Definition repr_char (c : N) : pystr :=
  [39; 92; 120; hex_digit (c / 16); hex_digit (c mod 16); 39]%N.

(** [for char in control_chars: if char in password: return ...]: the first
    listed character that occurs in the password. *)
Fixpoint first_blocked (chars : list N) (password : pystr) : option N :=
  match chars with
  | [] => None
  | char :: rest =>
      if contains char password then Some char
      else first_blocked rest password
  end.

(** [validate_client_input(self, password)]: the pair of the verdict and
    the message. *)
Definition validate_client_input (self : ClientAuthenticationFuzzer)
    (password : pyval) : bool * pystr :=
  match password with
  | PyNone => (false, lit "Password cannot be None")
  | PyStr s =>
      if max_password_length self <? length s then
        (false, lit "Password exceeds maximum length of "
                  ++ str_of_nat (max_password_length self))
      else if contains NUL s then
        (false, lit "Null bytes not allowed in GUI input")
      else
        match first_blocked control_chars s with
        | Some char =>
            (false, lit "Control character not allowed: " ++ repr_char char)
        | None => (true, lit "Client validation passed")
        end
  | _ => (false, lit "Password must be string")
  end.

(** The reasons for which a password is refused. *)
Definition refused (max : nat) (password : pyval) : Prop :=
  match password with
  | PyStr s =>
      max < length s \/ In NUL s \/ exists c, In c control_chars /\ In c s
  | _ => True
  end.

End Auth.

(** ** Exceptions *)

(** The exception classes the modelled code can meet; all derive from
    [Exception]. *)
Inductive exn : Type :=
| AttributeError
| TypeError
| ValueError
| RuntimeError
| UnicodeEncodeError.

Inductive result (A : Type) : Type :=
| Ok (a : A)
| Raise (e : exn).

Arguments Ok {A} a.
Arguments Raise {A} e.

Definition bind {A B : Type} (r : result A) (k : A -> result B) : result B :=
  match r with
  | Ok a => k a
  | Raise e => Raise e
  end.

Notation "x <- r ;; k" := (bind r (fun x => k))
  (at level 61, r at next level, right associativity).
Notation "r ;;; k" := (bind r (fun _ => k))
  (at level 61, right associativity).

(** [try: body except Exception as e: handler(e)] *)
Definition try_except {A : Type} (body : result A) (handler : exn -> result A)
  : result A :=
  match body with
  | Ok a => Ok a
  | Raise e => handler e
  end.

(** ** Splitting and joining on the separator *)

Definition is_empty (s : pystr) : bool :=
  match s with [] => true | _ :: _ => false end.

(** [s.split('/')] *)
Fixpoint split_sep (s : pystr) : list pystr :=
  match s with
  | [] => [[]]
  | c :: s' =>
      if N.eqb c SLASH then [] :: split_sep s'
      else match split_sep s' with
           | [] => [[c]]
           | w :: ws => (c :: w) :: ws
           end
  end.

(** ['/'.join(l)] *)
Fixpoint join_sep (l : list pystr) : pystr :=
  match l with
  | [] => []
  | x :: rest =>
      match rest with
      | [] => x
      | _ :: _ => x ++ SLASH :: join_sep rest
      end
  end.

(** [s.rstrip('/')] *)
Fixpoint rstrip_sep (s : pystr) : pystr :=
  match s with
  | [] => []
  | c :: s' =>
      match rstrip_sep s' with
      | [] => if N.eqb c SLASH then [] else [c]
      | r => c :: r
      end
  end.

(** [s.endswith('/')] *)
Definition endswith_sep (s : pystr) : bool :=
  match rev s with
  | c :: _ => N.eqb c SLASH
  | [] => false
  end.

(** The string of an absolute path with the given components. *)
Definition render (comps : list pystr) : pystr := SLASH :: join_sep comps.

Definition dot : pystr := [DOT].
Definition dotdot : pystr := [DOT; DOT].

(** ** What the operating system accepts in a path *)

(** A lone surrogate, which UTF-8 does not encode. *)
Definition is_surrogate (c : N) : bool :=
  ((55296 <=? c) && (c <=? 57343))%N.

(** [os.fsencode] encodes UTF-8 with the [surrogateescape] handler: of
    the surrogates only U+DC80 to U+DCFF pass, as the bytes they stand
    for. *)
Definition fs_unencodable (c : N) : bool :=
  is_surrogate c && negb ((56448 <=? c) && (c <=? 56575))%N.

(** A character for which a call that takes a path raises: the null
    ([ValueError]) or one that does not encode ([UnicodeEncodeError]). *)
Definition fs_rejected (c : N) : bool := N.eqb NUL c || fs_unencodable c.

Definition fs_bad (s : pystr) : bool := existsb fs_rejected s.

(** ** The process environment *)

(** What the library calls read from the operating system. *)
Record Env : Type :=
  { (** [$HOME], or else the [pw_dir] of the current user; [None] when
        neither exists *)
    home : option pystr;
    (** [pwd.getpwnam(name).pw_dir]; [None] stands for [KeyError] *)
    pw_dir : pystr -> option pystr;
    (** the components of [os.getcwd()], an absolute path *)
    cwd : list pystr;
    (** the symbolic links of the filesystem: the target of the link at
        the absolute path with the given components, if that is a link *)
    readlink : list pystr -> option pystr;
    (** whether [os.stat] of a path fails with [ELOOP], for a path that
        [realpath] left unresolved at a symbolic link loop *)
    stat_eloop : pystr -> bool;
    (** the nested calls of [_joinrealpath], one for each link that is
        resolved inside the target of another, that the recursion limit
        of the interpreter leaves room for *)
    max_hops : nat;
    (** the nested calls of [repr] that the recursion limit leaves room
        for *)
    max_repr_depth : nat;
    (** [sys.stdout] encodes UTF-8; [true] when its error handler is
        ['strict'], [false] for a lenient one ('replace',
        'backslashreplace', ...) *)
    stdout_strict : bool }.

Definition platform_system : pystr := lit "Linux".

(** The lexical resolution of the components [rest] from [path]. *)
Fixpoint lexical (path rest : list pystr) : list pystr :=
  match rest with
  | [] => path
  | name :: rest' =>
      if is_empty name || pystr_eqb name dot then lexical path rest'
      else if pystr_eqb name dotdot then lexical (removelast path) rest'
      else lexical (path ++ [name]) rest'
  end.

(** The file that the operating system finds under a path whose
    directories are no symbolic links, by its components from the
    filesystem root: a relative path is looked up from the working
    directory, and the parent of a directory is the one that holds
    it. *)
Definition locate (env : Env) (path : pystr) : list pystr :=
  lexical (if startswith path [SLASH] then [] else cwd env)
    (split_sep path).

(** [os.lstat(newpath)] and [os.readlink(newpath)], as far as [realpath]
    looks at them: the path is encoded ([UnicodeEncodeError]) and
    checked for an embedded null ([ValueError]); then [newpath] is a
    symbolic link with its target or none (a path for which [lstat]
    fails with an [OSError] counts as none). *)
Definition lstat_link (env : Env) (newpath : pystr)
  : result (option pystr) :=
  if existsb fs_unencodable newpath then Raise UnicodeEncodeError
  else if contains NUL newpath then Raise ValueError
  else Ok (readlink env (locate env newpath)).

(** ** [posixpath] *)

Module posixpath.

(** [isabs(s)]: [s.startswith('/')] *)
Definition isabs (s : pystr) : bool := startswith s [SLASH].

(** [join(a, b)] *)
Definition join (a b : pystr) : pystr :=
  if startswith b [SLASH] then b
  else if is_empty a || endswith_sep a then a ++ b
  else a ++ SLASH :: b.

(** [initial_slashes] of [normpath]: 0, 1, or 2 for exactly two leading
    slashes. *)
Definition initial_slashes (path : pystr) : nat :=
  if startswith path [SLASH] then
    if startswith path [SLASH; SLASH]
       && negb (startswith path [SLASH; SLASH; SLASH])
    then 2 else 1
  else 0.

Definition last_is_dotdot (new_comps : list pystr) : bool :=
  match rev new_comps with
  | c :: _ => pystr_eqb c dotdot
  | [] => false
  end.

(** The loop of [normpath] over [comps], building [new_comps]. *)
Fixpoint normpath_loop (initial : nat) (new_comps comps : list pystr)
  : list pystr :=
  match comps with
  | [] => new_comps
  | comp :: rest =>
      if is_empty comp || pystr_eqb comp dot then
        normpath_loop initial new_comps rest
      else if negb (pystr_eqb comp dotdot)
              || ((initial =? 0) && (length new_comps =? 0))
              || last_is_dotdot new_comps
      then normpath_loop initial (new_comps ++ [comp]) rest
      else normpath_loop initial (removelast new_comps) rest
  end.

(** [normpath(path)] *)
Definition normpath (path : pystr) : pystr :=
  if is_empty path then dot
  else
    let initial := initial_slashes path in
    let comps := normpath_loop initial [] (split_sep path) in
    let path' := repeat SLASH initial ++ join_sep comps in
    if is_empty path' then dot else path'.

(** [os.getcwd()] *)
Definition getcwd (env : Env) : pystr := render (cwd env).

(** [abspath(path)] *)
Definition abspath (env : Env) (path : pystr) : pystr :=
  if negb (isabs path) then normpath (join (getcwd env) path)
  else normpath path.

(** [path] cut at the first separator: the part before it and the rest,
    separator included. *)
Fixpoint cut_sep (path : pystr) : pystr * pystr :=
  match path with
  | [] => ([], [])
  | c :: path' =>
      if N.eqb c SLASH then ([], path)
      else let (name, rest) := cut_sep path' in (c :: name, rest)
  end.

(** [pwd.getpwnam(name).pw_dir]: the name is encoded first, then
    checked for an embedded null. *)
Definition getpwnam_dir (env : Env) (name : pystr) : result (option pystr) :=
  if existsb fs_unencodable name then Raise UnicodeEncodeError
  else if contains NUL name then Raise ValueError
  else Ok (pw_dir env name).

(** [expanduser(path)].  [i = path.find('/', 1)] cuts the path into
    [path[1:i]], the user name, and [path[i:]]. *)
Definition expanduser (env : Env) (path : pystr) : result pystr :=
  match path with
  | c :: tail =>
      if N.eqb c TILDE then
        let (name, rest) := cut_sep tail in
        userhome <-
          (if is_empty name then Ok (home env)
           else getpwnam_dir env name) ;;
        match userhome with
        | None => Ok path
        | Some userhome =>
            let expanded := rstrip_sep userhome ++ rest in
            Ok (if is_empty expanded then [SLASH] else expanded)
        end
      else Ok path
  | [] => Ok path
  end.

(** [split(p)]: the head up to the last separator, without the
    separators at its end unless it holds nothing else, and the tail
    after that separator. *)
Definition split (p : pystr) : pystr * pystr :=
  let (tail, head) := cut_sep (rev p) in
  let head := rev head in
  (if is_empty head || forallb (N.eqb SLASH) head then head
   else rstrip_sep head,
   rev tail).

(** The step of [_joinrealpath] for a [..] component. *)
Definition pardir_step (path : pystr) : pystr :=
  if is_empty path then dotdot
  else
    let (head, name) := split path in
    if pystr_eqb name dotdot then join (join head dotdot) dotdot
    else head.

(** The dict [seen] of [realpath]: for the path of a link, [None]
    while the link is being resolved and its resolved path
    afterwards.  The entry added last comes first. *)
Definition seen_dict : Type := list (pystr * option pystr).

Fixpoint seen_get (seen : seen_dict) (key : pystr)
  : option (option pystr) :=
  match seen with
  | [] => None
  | (k, v) :: seen' => if pystr_eqb k key then Some v else seen_get seen' key
  end.

Definition seen_set (seen : seen_dict) (key : pystr) (v : option pystr)
  : seen_dict := (key, v) :: seen.

(** The [while rest:] loop of [_joinrealpath] (non-strict).  [names] are
    the components that [rest.partition(sep)] cuts off one by one, so
    that the string [rest] of the source is their join; [recurse] is
    the recursive call.  The result is the pair [(path, ok)] that the
    source returns, with the dict as the call leaves it. *)
Section Loop.

Variable env : Env.
Variable recurse :
  pystr -> pystr -> seen_dict -> result (pystr * bool * seen_dict).

Fixpoint realpath_loop (path : pystr) (names : list pystr)
    (seen : seen_dict) {struct names}
  : result (pystr * bool * seen_dict) :=
  match names with
  | [] => Ok (path, true, seen)
  | name :: rest =>
      if is_empty name || pystr_eqb name dot then
        realpath_loop path rest seen
      else if pystr_eqb name dotdot then
        realpath_loop (pardir_step path) rest seen
      else
        let newpath := join path name in
        match lstat_link env newpath with
        | Raise e => Raise e
        | Ok None => realpath_loop newpath rest seen
        | Ok (Some target) =>
            match seen_get seen newpath with
            | Some (Some path) => realpath_loop path rest seen
            | Some None => Ok (join newpath (join_sep rest), false, seen)
            | None =>
                match recurse path target (seen_set seen newpath None) with
                | Raise e => Raise e
                | Ok (path, false, seen) =>
                    Ok (join path (join_sep rest), false, seen)
                | Ok (path, true, seen) =>
                    realpath_loop path rest
                      (seen_set seen newpath (Some path))
                end
            end
        end
  end.

End Loop.

(** [_joinrealpath(path, rest, strict=False, seen)].  An absolute [rest]
    is walked from the filesystem root.  [depth] counts the nested
    calls that are left; one more ends in [RecursionError], which is a
    [RuntimeError]. *)
Fixpoint joinrealpath (env : Env) (depth : nat) (path rest : pystr)
    (seen : seen_dict) {struct depth}
  : result (pystr * bool * seen_dict) :=
  realpath_loop env
    (match depth with
     | O => fun _ _ _ => Raise RuntimeError
     | S depth' => joinrealpath env depth'
     end)
    (if isabs rest then [SLASH] else path)
    (split_sep (if isabs rest then tl rest else rest))
    seen.

(** [realpath(filename)], non-strict: the absolute form of the path
    that [_joinrealpath] returns.  The flag [ok] of [_joinrealpath],
    which the source drops here, is kept beside it: it is [False] when
    the walk stopped at a symbolic link loop and left the rest of the
    path unresolved. *)
Definition realpath (env : Env) (filename : pystr) : result (pystr * bool) :=
  r <- joinrealpath env (max_hops env) [] filename [] ;;
  let '(path, ok, _) := r in
  Ok (abspath env path, ok).

End posixpath.

(** ** [pathlib.Path.resolve] *)

Module pathlib.

(** The parts that [Path(s)] keeps: the components of [s] that are
    neither empty nor [.]. *)
Definition path_parts (s : pystr) : list pystr :=
  filter (fun x => negb (is_empty x || pystr_eqb x dot)) (split_sep s).

(** [str(Path(s))]: the root, one separator or two for exactly two,
    then the parts, joined; [.] when nothing is left. *)
Definition path_str (s : pystr) : pystr :=
  let text :=
    repeat SLASH (posixpath.initial_slashes s) ++ join_sep (path_parts s) in
  if is_empty text then dot else text.

(** [p.stat()] as [resolve] uses it: the path is encoded and checked
    for an embedded null like every path; of the [OSError]s of the call
    only [ELOOP] is turned into [RuntimeError], the others are dropped.
    The operating system answers [ELOOP] for a path that takes it
    through too many symbolic links; a path that [realpath] resolved
    completely ([ok]) runs through none. *)
Definition stat_check (env : Env) (p : pystr) (ok : bool) : result unit :=
  if existsb fs_unencodable p then Raise UnicodeEncodeError
  else if contains NUL p then Raise ValueError
  else if negb ok && stat_eloop env p then Raise RuntimeError
  else Ok tt.

(** [str(pathlib.Path(s).resolve())], non-strict: [realpath] of the
    path, made a [Path] again, and [stat] on it. *)
Definition resolve (env : Env) (s : pystr) : result pystr :=
  r <- posixpath.realpath env (path_str s) ;;
  let (s', ok) := r in
  let p := path_str s' in
  stat_check env p ok ;;;
  Ok p.

(** The walk of [realpath] over [Path(s)] stops at a symbolic link
    loop. *)
Definition stops_at_loop (env : Env) (s : pystr) : bool :=
  match posixpath.realpath env (path_str s) with
  | Ok (_, false) => true
  | _ => false
  end.

End pathlib.

(** ** [FilePathRestrictionsFuzzer] *)

Record FilePathRestrictionsFuzzer : Type :=
  { allowed_root_windows : pystr;
    allowed_root_linux : pystr;
    allowed_root : pystr }.

(** [__init__] *)
Definition FilePathRestrictionsFuzzer_init : FilePathRestrictionsFuzzer :=
  let windows := lit "C:\Users\CMU\RawRecords" in
  let linux := lit "/home/CMU/RawRecords" in
  {| allowed_root_windows := windows;
     allowed_root_linux := linux;
     allowed_root :=
       if pystr_eqb platform_system (lit "Windows") then windows
       else linux |}.

(** The fuzzer after [fuzzer.allowed_root = root], as the tests do. *)
Definition with_root (self : FilePathRestrictionsFuzzer) (root : pystr)
  : FilePathRestrictionsFuzzer :=
  {| allowed_root_windows := allowed_root_windows self;
     allowed_root_linux := allowed_root_linux self;
     allowed_root := root |}.

(** [str(z)] and [repr(z)] return for an integer of at most
    [sys.get_int_max_str_digits()] digits, 4300 by default, and raise
    [ValueError] for a longer one. *)
Definition int_str_ok (z : Z) : bool := (Z.abs z <? 10 ^ 4300)%Z.

(** [repr(v)] with room for [depth] nested calls of [repr]: the
    exception it ends in, if any.  The items of a list are taken from
    left to right; without room for a call it is [RecursionError], a
    [RuntimeError]. *)
Fixpoint repr_error (depth : nat) (v : pyval) {struct v} : option exn :=
  match depth with
  | O => Some RuntimeError
  | S depth' =>
      match v with
      | PyInt z => if int_str_ok z then None else Some ValueError
      | PyList l =>
          (fix items (l : list pyval) : option exn :=
             match l with
             | [] => None
             | x :: l' =>
                 match repr_error depth' x with
                 | Some e => Some e
                 | None => items l'
                 end
             end) l
      | _ => None
      end
  end.

(** The exception in which the interpolation of a value into an
    f-string ends, if any: a [str] is taken as it is, an integer is
    written with [str], a list through [repr]. *)
Definition format_error (env : Env) (v : pyval) : option exn :=
  match v with
  | PyInt z => if int_str_ok z then None else Some ValueError
  | PyList _ => repr_error (max_repr_depth env) v
  | _ => None
  end.

Fixpoint first_error (env : Env) (values : list pyval) : option exn :=
  match values with
  | [] => None
  | v :: values' =>
      match format_error env v with
      | Some e => Some e
      | None => first_error env values'
      end
  end.

(** Whether the text of a value interpolated into an f-string can be
    encoded: a [str] is written as it is; [None], numbers, [bytes] and
    lists are written through their [repr], which escapes surrogates. *)
Definition encodable (v : pyval) : bool :=
  match v with
  | PyStr s => negb (existsb is_surrogate s)
  | _ => true
  end.

(** [print(f"...")] with the given interpolated values: the f-string is
    built first, value by value, then its text is encoded.  The literal
    text and the message of an exception are always encodable. *)
Definition print (env : Env) (values : list pyval) : result unit :=
  match first_error env values with
  | Some e => Raise e
  | None =>
      if stdout_strict env && negb (forallb encodable values)
      then Raise UnicodeEncodeError
      else Ok tt
  end.

(** Steps 1 and 2 of [is_path_allowed]: the home directory is expanded
    for a path that starts with a tilde, and a relative path is made
    absolute. *)
Definition canonicalize_cpp (env : Env) (file_path : pystr) : result pystr :=
  file_path <-
    (if startswith file_path [TILDE] then posixpath.expanduser env file_path
     else Ok file_path) ;;
  Ok (if negb (posixpath.isabs file_path)
      then posixpath.abspath env file_path
      else file_path).

(** The [except Exception as e] clause of [is_path_allowed], entered with
    the current value of [file_path]. *)
Definition is_path_allowed_except (env : Env) (file_path : pyval) (e : exn)
  : result bool :=
  print env [file_path] ;;;
  Ok false.

(** [is_path_allowed(self, file_path)].  Inside the [try]:
    [file_path.startswith('~')] raises [AttributeError] for a value that
    has no such method and [TypeError] for [bytes]; steps 1 and 2 rebind
    [file_path]; step 3 makes the root absolute; step 4 is the length and
    prefix test, with four [print]s before [return True] and one before
    [return False].  Whatever is raised inside the [try] goes to the
    [except] clause; what that clause raises goes to the caller. *)
Definition is_path_allowed (env : Env) (self : FilePathRestrictionsFuzzer)
    (file_path : pyval) : result bool :=
  match file_path with
  | PyStr s =>
      match canonicalize_cpp env s with
      | Raise e => is_path_allowed_except env file_path e
      | Ok file_path =>
          let root_path := allowed_root self in
          let root_path :=
            if negb (posixpath.isabs root_path)
            then posixpath.abspath env root_path
            else root_path in
          try_except
            (if (length root_path <=? length file_path)
                && startswith file_path root_path
             then
               print env [PyStr file_path] ;;;
               print env [PyStr root_path] ;;;
               print env [PyStr file_path] ;;;
               print env [] ;;;
               Ok true
             else
               print env [PyStr file_path] ;;;
               Ok false)
            (is_path_allowed_except env (PyStr file_path))
      end
  | PyBytes _ => is_path_allowed_except env file_path TypeError
  | _ => is_path_allowed_except env file_path AttributeError
  end.

(** The normalization of [is_path_allowed_safe]: backslashes become
    slashes off Windows, then [Path(...).resolve()]. *)
Definition canonicalize_safe (env : Env) (file_path : pystr) : result pystr :=
  let normalized_file_path :=
    if negb (pystr_eqb platform_system (lit "Windows"))
    then replace BACKSLASH SLASH file_path
    else file_path in
  pathlib.resolve env normalized_file_path.

(** The boundary test of [is_path_allowed_safe] on the two strings. *)
Definition within_root (root_str abs_str : pystr) : bool :=
  if pystr_eqb abs_str root_str then true
  else if startswith abs_str (root_str ++ [SLASH])
          || startswith abs_str (root_str ++ [BACKSLASH])
  then true
  else false.

(** [is_path_allowed_safe(self, file_path)].  [file_path.replace] raises
    [AttributeError] for a value without that method and [TypeError] for
    [bytes]; the candidate is resolved before the root; every exception
    becomes [False]. *)
Definition is_path_allowed_safe (env : Env) (self : FilePathRestrictionsFuzzer)
    (file_path : pyval) : result bool :=
  try_except
    (match file_path with
     | PyStr s =>
         abs_str <- canonicalize_safe env s ;;
         root_str <- pathlib.resolve env (allowed_root self) ;;
         Ok (within_root root_str abs_str)
     | PyBytes _ => Raise TypeError
     | _ => Raise AttributeError
     end)
    (fun _ => Ok false).

(** ** Paths as component lists *)

(** A component that names a directory entry: not empty, not [.] or
    [..], without separator, and accepted by the operating system. *)
Definition entry (c : pystr) : bool :=
  negb (is_empty c) && negb (pystr_eqb c dot) && negb (pystr_eqb c dotdot)
  && negb (contains SLASH c) && negb (fs_bad c).

(** An entry without a backslash. *)
Definition plain (c : pystr) : bool :=
  entry c && negb (contains BACKSLASH c).

(** A component as [partition] cuts it off and the walk keeps it: not
    empty, without separator. *)
Definition word (c : pystr) : bool :=
  negb (is_empty c) && negb (contains SLASH c).

(** Where the path that [_joinrealpath] builds starts: at the
    filesystem root, or [up] directories above the working directory. *)
Inductive anchor : Type :=
| FromRoot
| FromCwd (up : nat).

(** The string that [_joinrealpath] holds in [path] when it has walked
    the names [comps] from an anchor. *)
Definition spell (a : anchor) (comps : list pystr) : pystr :=
  match a with
  | FromRoot => render comps
  | FromCwd up => join_sep (repeat dotdot up ++ comps)
  end.

(** The components of the directory of an anchor. *)
Definition base (env : Env) (a : anchor) : list pystr :=
  match a with
  | FromRoot => []
  | FromCwd up => Nat.iter up (@removelast pystr) (cwd env)
  end.

(** The step to the parent directory on a spelled path. *)
Definition step_up (a : anchor) (comps : list pystr)
  : anchor * list pystr :=
  match comps, a with
  | [], FromRoot => (FromRoot, [])
  | [], FromCwd up => (FromCwd (S up), [])
  | _ :: _, _ => (a, removelast comps)
  end.

(** Component-wise prefix test. *)
Fixpoint is_prefix (root path : list pystr) {struct root} : bool :=
  match root, path with
  | [], _ => true
  | _ :: _, [] => false
  | r :: root', c :: path' => pystr_eqb r c && is_prefix root' path'
  end.

(** No path of the filesystem is a symbolic link. *)
Definition no_symlinks (env : Env) : Prop :=
  forall p, readlink env p = None.

(** No non-empty prefix of [path] is a symbolic link. *)
Definition link_free (env : Env) (path : list pystr) : Prop :=
  forall pre suf, path = pre ++ suf -> pre <> [] -> readlink env pre = None.

(** The walk of the components [names] from the directory [path],
    with [..] taken as the step to the parent, looks up no symbolic
    link. *)
Fixpoint unlinked (env : Env) (path names : list pystr) : Prop :=
  match names with
  | [] => True
  | name :: rest =>
      if is_empty name || pystr_eqb name dot then unlinked env path rest
      else if pystr_eqb name dotdot then unlinked env (removelast path) rest
      else readlink env (path ++ [name]) = None
           /\ unlinked env (path ++ [name]) rest
  end.

(** A path as [_joinrealpath] spells it, of entries that are reached
    through no symbolic link. *)
Definition resolved (env : Env) (path : pystr) : Prop :=
  exists a comps,
    path = spell a comps
    /\ forallb entry comps = true
    /\ link_free env (base env a ++ comps).

(** The dict [seen] holds resolved paths only. *)
Definition seen_resolved (env : Env) (seen : posixpath.seen_dict) : Prop :=
  forall key path,
    posixpath.seen_get seen key = Some (Some path) -> resolved env path.

(** The standard output accepts the text of [s]. *)
Definition printable (env : Env) (s : pystr) : bool :=
  negb (stdout_strict env) || negb (existsb is_surrogate s).

(** [n] times the step to the parent directory. *)
Definition traversal (n : nat) : pystr := concat (repeat (lit "/..") n).

(** ** Sample environments *)

(** The components of the root that [__init__] configures. *)
Definition sample_root : list pystr :=
  [lit "home"; lit "CMU"; lit "RawRecords"].

(** A host without symbolic links: home [/home/user], working directory
    [/work], one other account [cmu], a standard output that encodes
    strictly. *)
Definition plain_env : Env :=
  {| home := Some (lit "/home/user");
     pw_dir := fun name =>
       if pystr_eqb name (lit "cmu") then Some (lit "/home/CMU") else None;
     cwd := [lit "work"];
     readlink := fun _ => None;
     stat_eloop := fun _ => false;
     max_hops := 40;
     max_repr_depth := 900;
     stdout_strict := true |}.

(** The same host with the link [/home/CMU/RawRecords/link.txt] to
    [/etc/passwd]. *)
Definition symlink_env : Env :=
  {| home := home plain_env;
     pw_dir := pw_dir plain_env;
     cwd := cwd plain_env;
     readlink := fun p =>
       if list_eq_dec (list_eq_dec N.eq_dec) p
            [lit "home"; lit "CMU"; lit "RawRecords"; lit "link.txt"]
       then Some (lit "/etc/passwd") else None;
     stat_eloop := fun _ => false;
     max_hops := 40;
     max_repr_depth := 900;
     stdout_strict := true |}.

(** The same host with the link [/home/CMU/RawRecords/out] to the
    sibling directory whose name is [RawRecords\evil]. *)
Definition sibling_env : Env :=
  {| home := home plain_env;
     pw_dir := pw_dir plain_env;
     cwd := cwd plain_env;
     readlink := fun p =>
       if list_eq_dec (list_eq_dec N.eq_dec) p
            [lit "home"; lit "CMU"; lit "RawRecords"; lit "out"]
       then Some (lit "/home/CMU/RawRecords\evil") else None;
     stat_eloop := fun _ => false;
     max_hops := 40;
     max_repr_depth := 900;
     stdout_strict := true |}.

(** A path that is [link] or runs through it. *)
Definition runs_through (link p : pystr) : bool :=
  pystr_eqb p link || startswith p (link ++ [SLASH]).

(** The host of [plain_env] where [/home/CMU/RawRecords/loop] is a link
    to [loop], that is to itself; [stat] answers [ELOOP] for the paths
    that run through it. *)
Definition loop_env : Env :=
  {| home := home plain_env;
     pw_dir := pw_dir plain_env;
     cwd := cwd plain_env;
     readlink := fun p =>
       if list_eq_dec (list_eq_dec N.eq_dec) p
            [lit "home"; lit "CMU"; lit "RawRecords"; lit "loop"]
       then Some (lit "loop") else None;
     stat_eloop := runs_through (lit "/home/CMU/RawRecords/loop");
     max_hops := 40;
     max_repr_depth := 900;
     stdout_strict := true |}.

(** The host of [symlink_env] with the link to itself of [loop_env]
    beside the link [link.txt]. *)
Definition detour_env : Env :=
  {| home := home plain_env;
     pw_dir := pw_dir plain_env;
     cwd := cwd plain_env;
     readlink := fun p =>
       if list_eq_dec (list_eq_dec N.eq_dec) p
            [lit "home"; lit "CMU"; lit "RawRecords"; lit "loop"]
       then Some (lit "loop")
       else readlink symlink_env p;
     stat_eloop := runs_through (lit "/home/CMU/RawRecords/loop");
     max_hops := 40;
     max_repr_depth := 900;
     stdout_strict := true |}.

(** The same host with a working directory whose name holds a
    backslash. *)
Definition backslash_env : Env :=
  {| home := home plain_env;
     pw_dir := pw_dir plain_env;
     cwd := [lit "w\d"];
     readlink := fun _ => None;
     stat_eloop := fun _ => false;
     max_hops := 40;
     max_repr_depth := 900;
     stdout_strict := true |}.

(** ** The client authentication flow *)

Module Client.

(** [ClientAuthenticationFuzzer] with the two fields that [__init__]
    sets; the dict [server_responses] is the list of its items in
    insertion order. *)
Record ClientAuthenticationFuzzer : Type :=
  { max_password_length : nat;
    server_responses : list (pystr * pystr) }.

(** [__init__] *)
Definition init : ClientAuthenticationFuzzer :=
  {| max_password_length := 16;
     server_responses :=
       [ (lit "OK", lit "Authentication successful");
         (lit "FAIL", lit "Authentication failed");
         (lit "ERROR", lit "Server error");
         (lit "TIMEOUT", lit "Connection timeout") ] |}.

(** [self.validate_client_input(password)] *)
Definition validate_client_input (self : ClientAuthenticationFuzzer)
    (password : pyval) : bool * pystr :=
  Auth.validate_client_input
    {| Auth.max_password_length := max_password_length self |} password.

(** [d[key]] for a [str] key: [None] stands for [KeyError]. *)
Fixpoint dict_get (d : list (pystr * pystr)) (key : pystr) : option pystr :=
  match d with
  | [] => None
  | (k, v) :: d' => if pystr_eqb k key then Some v else dict_get d' key
  end.

(** [key in d] for a [str] key. *)
Definition dict_in (d : list (pystr * pystr)) (key : pystr) : bool :=
  match dict_get d key with Some _ => true | None => false end.

(** [type(v).__name__] *)
Definition type_name (v : pyval) : pystr :=
  match v with
  | PyNone => lit "NoneType"
  | PyBool _ => lit "bool"
  | PyInt _ => lit "int"
  | PyBytes _ => lit "bytes"
  | PyStr _ => lit "str"
  | PyList _ => lit "list"
  end.

(** The UTF-8 bytes of one code point that is no surrogate. *)
Definition utf8_char (c : N) : list N :=
  (if c <? 128 then [c]
   else if c <? 2048 then [192 + c / 64; 128 + c mod 64]
   else if c <? 65536 then
     [224 + c / 4096; 128 + (c / 64) mod 64; 128 + c mod 64]
   else
     [240 + c / 262144; 128 + (c / 4096) mod 64;
      128 + (c / 64) mod 64; 128 + c mod 64])%N.

(** The leading surrogates of [s]. *)
Fixpoint surrogate_run (s : pystr) : nat :=
  match s with
  | c :: s' => if is_surrogate c then S (surrogate_run s') else 0
  | [] => 0
  end.

(** [s.encode('utf-8')] from position [pos] on: the bytes, or
    [UnicodeEncodeError] with the [start] and [end] of the first run of
    surrogates. *)
Fixpoint encode_from (pos : nat) (s : pystr) : (nat * nat) + list N :=
  match s with
  | [] => inr []
  | c :: s' =>
      if is_surrogate c then inl (pos, pos + 1 + surrogate_run s')
      else match encode_from (S pos) s' with
           | inl e => inl e
           | inr bytes => inr (utf8_char c ++ bytes)
           end
  end.

Definition encode (s : pystr) : (nat * nat) + list N := encode_from 0 s.

(** Four lower-case hexadecimal digits, as [%04x] writes a surrogate. *)
Definition hex4 (c : N) : pystr :=
  [Auth.hex_digit ((c / 4096) mod 16); Auth.hex_digit ((c / 256) mod 16);
   Auth.hex_digit ((c / 16) mod 16); Auth.hex_digit (c mod 16)]%N.

(** [str(e)] for the [UnicodeEncodeError] of [s.encode('utf-8')] with
    the given [start] and [end]: one character is shown with its escape,
    several by their positions. *)
Definition encode_error_str (s : pystr) (start stop : nat) : pystr :=
  if stop =? start + 1 then
    lit "'utf-8' codec can't encode character '\u" ++ hex4 (nth start s 0%N)
    ++ lit "' in position " ++ str_of_nat start
    ++ lit ": surrogates not allowed"
  else
    lit "'utf-8' codec can't encode characters in position "
    ++ str_of_nat start ++ lit "-" ++ str_of_nat (stop - 1)
    ++ lit ": surrogates not allowed".

(** [password == ""] *)
Definition is_empty_str (password : pyval) : bool :=
  match password with
  | PyStr s => is_empty s
  | _ => false
  end.

(** [simulate_password_dialog(self, password)].  The validator raises
    nothing, so the [except] clause is never entered. *)
Definition simulate_password_dialog (self : ClientAuthenticationFuzzer)
    (password : pyval) : bool * pystr * pyval :=
  let (is_valid, message) := validate_client_input self password in
  if negb is_valid then (false, message, PyNone)
  else if is_empty_str password then (true, lit "Dialog confirmed", password)
  else (true, lit "Dialog confirmed", password).

(** [simulate_network_send(self, password)].  [password.encode] raises
    [UnicodeEncodeError] for a lone surrogate and [AttributeError] for a
    value without that method; both are answered with a message. *)
Definition simulate_network_send (self : ClientAuthenticationFuzzer)
    (password : pyval) : bool * pystr :=
  match password with
  | PyStr s =>
      match encode s with
      | inr password_bytes =>
          if (8192 <? N.of_nat (length password_bytes))%N then
            (false, lit "Password too large for network transmission")
          else (true, lit "Network send successful")
      | inl (start, stop) =>
          (false, lit "Encoding error: " ++ encode_error_str s start stop)
      end
  | _ =>
      (false, lit "Network error: '" ++ type_name password
                ++ lit "' object has no attribute 'encode'")
  end.

(** What [simulate_server_response] raises. *)
Inductive error : Type :=
| Unhashable           (** [TypeError]: the key is a list *)
| KeyError (key : pystr).

(** [simulate_server_response(self, password, response_type)]: a
    [response_type] that is no key of the table becomes ["ERROR"];
    the pair of the code and its message. *)
Definition simulate_server_response (self : ClientAuthenticationFuzzer)
    (password response_type : pyval) : error + pystr * pystr :=
  match response_type with
  | PyList _ => inl Unhashable
  | _ =>
      let response_type :=
        match response_type with
        | PyStr s =>
            if negb (dict_in (server_responses self) s) then lit "ERROR"
            else s
        | _ => lit "ERROR"
        end in
      match dict_get (server_responses self) response_type with
      | Some message => inr (response_type, message)
      | None => inl (KeyError response_type)
      end
  end.

(** The default of the parameter [server_response]. *)
Definition default_server_response : pyval := PyStr (lit "OK").

(** [full_authentication_flow(self, password, server_response)] *)
Definition full_authentication_flow (self : ClientAuthenticationFuzzer)
    (password server_response : pyval) : error + bool * pystr * pyval :=
  let '(dialog_success, dialog_message, validated_password) :=
    simulate_password_dialog self password in
  if negb dialog_success then
    inr (false, lit "Dialog failed: " ++ dialog_message, PyNone)
  else
    let (network_success, network_message) :=
      simulate_network_send self validated_password in
    if negb network_success then
      inr (false, lit "Network failed: " ++ network_message, PyNone)
    else
      match simulate_server_response self validated_password
              server_response with
      | inl e => inl e
      | inr (response_code, response_message) =>
          if pystr_eqb response_code (lit "OK") then
            inr (true, lit "Authentication successful", PyStr response_code)
          else
            inr (false, lit "Server rejected: " ++ response_message,
                 PyStr response_code)
      end.

(** The oracle of the fuzzing tests ([expected_valid] of
    [test_mutation_fuzzing]; its negation is [should_fail] of
    [test_combined_attack_fuzzing]). *)
Definition expected_valid (mutated : pystr) : bool :=
  (length mutated <=? 16)
  && negb (contains NUL mutated)
  && negb (existsb
             (fun c => (c <? 32)%N
                       && negb (existsb (N.eqb c) [9; 10; 13; 12]%N))
             mutated).

(** The loop of [test_combined_attack_fuzzing] from index [i] on: the
    segments, each followed by the injection character of its index
    when there is one. *)
Fixpoint combine_from (i : nat) (text_segments : list pystr)
    (injection_chars : list N) : pystr :=
  match text_segments with
  | [] => []
  | segment :: rest =>
      segment
      ++ (match nth_error injection_chars i with
          | Some c => [c]
          | None => []
          end)
      ++ combine_from (S i) rest injection_chars
  end.

(** [test_combined_attack_fuzzing(self, text_segments, injection_chars)]:
    [true] when the assertion holds, [false] for [AssertionError]. *)
Definition test_combined_attack_fuzzing (self : ClientAuthenticationFuzzer)
    (text_segments : list pystr) (injection_chars : list N)
  : error + bool :=
  let combined_password := combine_from 0 text_segments injection_chars in
  let test_password := firstn 20 combined_password in
  match full_authentication_flow self (PyStr test_password)
          (PyStr (lit "OK")) with
  | inl e => inl e
  | inr (success, message, response_code) =>
      let should_fail :=
        (16 <? length test_password)
        || contains NUL test_password
        || existsb
             (fun c => (c <? 32)%N
                       && negb (existsb (N.eqb c) [9; 10; 13; 12]%N))
             test_password in
      inr (if should_fail then negb success else true)
  end.

End Client.

(** ** Two tests of the path suite *)

(** The suffixes that [test_cpp_vulnerability_showcase] and
    [test_prefix_boundary_attacks] sample from. *)
Definition attack_suffix_samples : list pystr :=
  [lit "_fake"; lit "_backup"; lit "_test"; lit "2"; lit "123";
   lit "Extra"; lit ".bak"; lit "-copy"].

(** The loop of [test_cpp_vulnerability_showcase] over the scenarios
    still to come, with the counter [vulnerable_count]. *)
Fixpoint showcase_loop (env : Env) (fuzzer : FilePathRestrictionsFuzzer)
    (attack_scenarios : list (pystr * pystr)) (vulnerable_count : nat)
  : result nat :=
  match attack_scenarios with
  | [] => Ok vulnerable_count
  | (attack_name, attack_path) :: rest =>
      cpp_result <- is_path_allowed env fuzzer (PyStr attack_path) ;;
      safe_result <- is_path_allowed_safe env fuzzer (PyStr attack_path) ;;
      if cpp_result && negb safe_result then
        print env [PyStr attack_name; PyStr attack_path] ;;;
        showcase_loop env fuzzer rest (S vulnerable_count)
      else showcase_loop env fuzzer rest vulnerable_count
  end.

(** [test_cpp_vulnerability_showcase(self, attack_suffixes)], run on the
    fuzzer of [setup_method]: the value of [vulnerable_count] when the
    test ends, [None] when an exception ends it early (the [except]
    clause passes). *)
Definition test_cpp_vulnerability_showcase (env : Env)
    (attack_suffixes : list pystr) : option nat :=
  let fuzzer := FilePathRestrictionsFuzzer_init in
  let combined_suffix := concat attack_suffixes in
  let attack_scenarios :=
    [ (lit "Fake Directory Attack", allowed_root fuzzer ++ combined_suffix);
      (lit "Malicious File Attack",
       allowed_root fuzzer ++ combined_suffix ++ lit "/malicious.exe");
      (lit "Config File Attack",
       allowed_root fuzzer ++ combined_suffix ++ lit "/config.ini");
      (lit "System File Attack",
       allowed_root fuzzer ++ combined_suffix ++ lit "/system.dll") ] in
  match
    vulnerable_count <- showcase_loop env fuzzer attack_scenarios 0 ;;
    (if 0 <? vulnerable_count
     then print env [PyInt (Z.of_nat vulnerable_count)]
     else Ok tt) ;;;
    Ok vulnerable_count
  with
  | Ok vulnerable_count => Some vulnerable_count
  | Raise _ => None
  end.

(** How a test ends. *)
Inductive test_outcome : Type :=
| Passed
| AssertionFailed.

Section PrefixBoundaryTest.

(** [str.upper] and [str.lower]: total functions on strings. *)
Variables upper lower : pystr -> pystr.

(** The loop of [test_prefix_boundary_attacks]: [Ok false] stands for
    the [AssertionError] of [assert not is_allowed]. *)
Fixpoint boundary_loop (env : Env) (fuzzer : FilePathRestrictionsFuzzer)
    (boundary_attacks : list pystr) : result bool :=
  match boundary_attacks with
  | [] => Ok true
  | path :: rest =>
      is_allowed <- is_path_allowed env fuzzer (PyStr path) ;;
      if negb is_allowed then boundary_loop env fuzzer rest
      else Ok false
  end.

(** [test_prefix_boundary_attacks(self, suffixes)], run on the fuzzer of
    [setup_method]: an [AssertionError] is raised again, any other
    exception passes. *)
Definition test_prefix_boundary_attacks (env : Env) (suffixes : list pystr)
  : test_outcome :=
  let fuzzer := FilePathRestrictionsFuzzer_init in
  let combined_suffix := concat suffixes in
  let boundary_attacks :=
    [ allowed_root fuzzer ++ combined_suffix;
      allowed_root fuzzer ++ combined_suffix ++ lit "/malicious.exe";
      allowed_root fuzzer ++ combined_suffix ++ lit "\sensitive.txt";
      upper (allowed_root fuzzer) ++ upper combined_suffix;
      lower (allowed_root fuzzer) ++ lower combined_suffix ] in
  match boundary_loop env fuzzer boundary_attacks with
  | Ok true => Passed
  | Ok false => AssertionFailed
  | Raise _ => Passed
  end.

End PrefixBoundaryTest.

(** ** Further sample environments and notions *)

(** Step 3 of [is_path_allowed]: the root it compares with. *)
Definition cpp_root (env : Env) (self : FilePathRestrictionsFuzzer) : pystr :=
  if negb (posixpath.isabs (allowed_root self))
  then posixpath.abspath env (allowed_root self)
  else allowed_root self.

(** A host as [plain_env] with the working directory
    [/home/CMU/RawRecords/session]. *)
Definition session_env : Env :=
  {| home := home plain_env;
     pw_dir := pw_dir plain_env;
     cwd := sample_root ++ [lit "session"];
     readlink := fun _ => None;
     stat_eloop := fun _ => false;
     max_hops := 40;
     max_repr_depth := 900;
     stdout_strict := true |}.

(** A host as [plain_env] whose home directory is the allowed root. *)
Definition home_env : Env :=
  {| home := Some (lit "/home/CMU/RawRecords/");
     pw_dir := pw_dir plain_env;
     cwd := cwd plain_env;
     readlink := fun _ => None;
     stat_eloop := fun _ => false;
     max_hops := 40;
     max_repr_depth := 900;
     stdout_strict := true |}.

(** A host as [plain_env] where [/home/CMU/RawRecords/latest] is a link
    to [2024/run1.raw]. *)
Definition inside_env : Env :=
  {| home := home plain_env;
     pw_dir := pw_dir plain_env;
     cwd := cwd plain_env;
     readlink := fun p =>
       if list_eq_dec (list_eq_dec N.eq_dec) p
            [lit "home"; lit "CMU"; lit "RawRecords"; lit "latest"]
       then Some (lit "2024/run1.raw") else None;
     stat_eloop := fun _ => false;
     max_hops := 40;
     max_repr_depth := 900;
     stdout_strict := true |}.

(** A character of a file name that needs no care. *)
Definition ordinary (c : N) : bool :=
  negb (N.eqb c SLASH) && negb (N.eqb c BACKSLASH)
  && negb (fs_rejected c) && negb (is_surrogate c).

(** The text of a host: home directories and working directory. *)
Definition clean_host (env : Env) : Prop :=
  (forall h, home env = Some h -> existsb is_surrogate h = false)
  /\ (forall name h, pw_dir env name = Some h ->
                     existsb is_surrogate h = false)
  /\ existsb (existsb is_surrogate) (cwd env) = false.

(** ** The failure report of the stress test *)

Module Report.

(** [needle in hay] for two strings. *)
Fixpoint is_infix (needle hay : pystr) : bool :=
  startswith hay needle
  || match hay with
     | [] => false
     | _ :: hay' => is_infix needle hay'
     end.

(** The keys of [failure_categories] in [test_stress_fuzzing]. *)
Inductive category : Type :=
| length_exceeded
| null_byte
| control_chars
| network_errors
| validation_errors
| exceptions
| unexpected.

Definition category_eqb (a b : category) : bool :=
  match a, b with
  | length_exceeded, length_exceeded
  | null_byte, null_byte
  | control_chars, control_chars
  | network_errors, network_errors
  | validation_errors, validation_errors
  | exceptions, exceptions
  | unexpected, unexpected => true
  | _, _ => false
  end.

(** An entry of a category: [(password, len(password), message)] under
    [length_exceeded], [(password, message)] elsewhere. *)
Inductive failure_case : Type :=
| WithLength (password : pystr) (len : nat) (message : pystr)
| Plain (password message : pystr).

(** The dict [failure_categories]: a list of entries for each key. *)
Definition failure_categories : Type := category -> list failure_case.

(** [if len(categories[key]) < 5: categories[key].append(entry)] *)
Definition append_capped (key : category) (entry : failure_case)
    (categories : failure_categories) : failure_categories :=
  if length (categories key) <? 5 then
    fun k => if category_eqb k key then categories k ++ [entry]
             else categories k
  else categories.

(** [c.lower()] for an ASCII character. *)
Definition ascii_lower (c : N) : N :=
  if ((65 <=? c) && (c <=? 90))%N then (c + 32)%N else c.

Definition is_ascii (s : pystr) : bool := forallb (fun c => (c <? 128)%N) s.

Section CategorizeFailure.

(** [str.lower] *)
Variable lower : pystr -> pystr.

(** [_categorize_failure(self, password, message, categories)] for a
    string password: the dict after the call. *)
Definition categorize_failure (password message : pystr)
    (categories : failure_categories) : failure_categories :=
  if is_infix (lit "exceeds maximum length") message then
    append_capped length_exceeded
      (WithLength password (length password) message) categories
  else if is_infix (lit "null") (lower message) then
    append_capped null_byte (Plain password message) categories
  else if is_infix (lit "control character") (lower message) then
    append_capped control_chars (Plain password message) categories
  else if is_infix (lit "network") (lower message) then
    append_capped network_errors (Plain password message) categories
  else if is_infix (lit "validation") (lower message) then
    append_capped validation_errors (Plain password message) categories
  else
    append_capped unexpected (Plain password message) categories.

End CategorizeFailure.

(** The key under which [_categorize_failure] files an ASCII message. *)
Definition key_of (message : pystr) : category :=
  let lowered := map ascii_lower message in
  if is_infix (lit "exceeds maximum length") message then length_exceeded
  else if is_infix (lit "null") lowered then null_byte
  else if is_infix (lit "control character") lowered then control_chars
  else if is_infix (lit "network") lowered then network_errors
  else if is_infix (lit "validation") lowered then validation_errors
  else unexpected.

(** The entry that is filed under a key. *)
Definition entry_of (key : category) (password message : pystr)
  : failure_case :=
  match key with
  | length_exceeded => WithLength password (length password) message
  | _ => Plain password message
  end.

End Report.

(** * Properties *)

(** ** Strings *)

Lemma contains_In (c : N) (s : pystr) : contains c s = true <-> In c s.
Proof.
  unfold contains. rewrite existsb_exists. split.
  - intros [x [Hx He]]. apply N.eqb_eq in He. now subst.
  - intros H. exists c. split; [assumption | apply N.eqb_refl].
Qed.

Lemma contains_false (c : N) (s : pystr) : contains c s = false <-> ~ In c s.
Proof.
  rewrite <- contains_In. destruct (contains c s); split; congruence.
Qed.

Lemma contains_cons (c d : N) (s : pystr) :
  contains c (d :: s) = N.eqb c d || contains c s.
Proof. reflexivity. Qed.

Lemma contains_app (c : N) (s t : pystr) :
  contains c (s ++ t) = contains c s || contains c t.
Proof. unfold contains. apply existsb_app. Qed.

Lemma pystr_eqb_eq (a b : pystr) : pystr_eqb a b = true <-> a = b.
Proof.
  unfold pystr_eqb. destruct (list_eq_dec N.eq_dec a b); split; congruence.
Qed.

Lemma pystr_eqb_refl (a : pystr) : pystr_eqb a a = true.
Proof. now apply pystr_eqb_eq. Qed.

Lemma pystr_eqb_neq (a b : pystr) : pystr_eqb a b = false <-> a <> b.
Proof.
  pose proof (pystr_eqb_eq a b) as H. destruct (pystr_eqb a b).
  - split; [discriminate|]. intros Hn. exfalso. apply Hn. now apply H.
  - split; [|reflexivity]. intros _ E. apply H in E. discriminate.
Qed.

Lemma is_empty_true (s : pystr) : is_empty s = true <-> s = [].
Proof. destruct s; split; (reflexivity || discriminate). Qed.

Lemma is_empty_false (s : pystr) : is_empty s = false <-> s <> [].
Proof. destruct s; split; (congruence || discriminate || reflexivity). Qed.

Lemma startswith_app (p t : pystr) : startswith (p ++ t) p = true.
Proof.
  induction p as [|c p IH]; cbn [app startswith]; [reflexivity|].
  now rewrite N.eqb_refl, IH.
Qed.

Lemma startswith_spec (s p : pystr) :
  startswith s p = true <-> exists t, s = p ++ t.
Proof.
  split.
  - revert s. induction p as [|c p IH]; intros s H.
    + now exists s.
    + destruct s as [|d s]; cbn [startswith] in H; [discriminate|].
      apply andb_true_iff in H. destruct H as [Hc Hs].
      apply N.eqb_eq in Hc. subst d.
      destruct (IH _ Hs) as [t ->]. now exists t.
  - intros [t ->]. apply startswith_app.
Qed.

Lemma replace_app (a b : N) (s t : pystr) :
  replace a b (s ++ t) = replace a b s ++ replace a b t.
Proof. unfold replace. apply map_app. Qed.

Lemma replace_cons (a b c : N) (s : pystr) :
  replace a b (c :: s) = (if N.eqb c a then b else c) :: replace a b s.
Proof. reflexivity. Qed.

(** Replacing [a] by [b] does not change whether some character has a
    property that [a] and [b] share. *)
Lemma replace_existsb (P : N -> bool) (a b : N) (s : pystr) :
  P a = P b -> existsb P (replace a b s) = existsb P s.
Proof.
  intros Hab. induction s as [|d s IH]; [reflexivity|].
  rewrite replace_cons. cbn [existsb]. rewrite IH.
  destruct (N.eqb_spec d a) as [->|_]; now rewrite ?Hab.
Qed.

Lemma replace_gone (a b : N) (s : pystr) :
  a <> b -> contains a (replace a b s) = false.
Proof.
  intros Hab. induction s as [|d s IH]; [reflexivity|].
  rewrite replace_cons, contains_cons, IH.
  destruct (N.eqb_spec d a) as [->|Hd].
  - destruct (N.eqb_spec a b); [contradiction|reflexivity].
  - destruct (N.eqb_spec a d); [congruence|reflexivity].
Qed.

Lemma replace_id (a b : N) (s : pystr) :
  contains a s = false -> replace a b s = s.
Proof.
  induction s as [|d s IH]; [reflexivity|].
  rewrite contains_cons. intros H. apply orb_false_iff in H.
  destruct H as [Hd Hs]. rewrite replace_cons, (IH Hs).
  rewrite N.eqb_sym in Hd. now rewrite Hd.
Qed.

Lemma existsb_orb {A : Type} (P Q : A -> bool) (l : list A) :
  existsb (fun x => P x || Q x) l = existsb P l || existsb Q l.
Proof.
  induction l as [|x l IH]; [reflexivity|]. cbn [existsb]. rewrite IH.
  destruct (P x), (Q x), (existsb P l), (existsb Q l); reflexivity.
Qed.

Lemma forallb_impl {A : Type} (P Q : A -> bool) (l : list A) :
  (forall x, P x = true -> Q x = true) ->
  forallb P l = true -> forallb Q l = true.
Proof.
  intros HPQ. rewrite !forallb_forall. intros H x Hx. apply HPQ. now apply H.
Qed.

Lemma forallb_negb_existsb {A : Type} (P : A -> bool) (l : list A) :
  forallb (fun x => negb (P x)) l = true <-> existsb P l = false.
Proof.
  induction l as [|x l IH]; [now split|]. cbn [forallb existsb].
  rewrite andb_true_iff, orb_false_iff, negb_true_iff, IH. reflexivity.
Qed.

Lemma in_removelast {A : Type} (x : A) (l : list A) :
  In x (removelast l) -> In x l.
Proof.
  destruct l as [|a l]; [contradiction|]. intros H.
  assert (Hd : a :: l = removelast (a :: l) ++ [last (a :: l) a]).
  { apply app_removelast_last. discriminate. }
  rewrite Hd. apply in_or_app. now left.
Qed.

Lemma forallb_removelast {A : Type} (P : A -> bool) (l : list A) :
  forallb P l = true -> forallb P (removelast l) = true.
Proof.
  rewrite !forallb_forall. intros H x Hx. apply H. now apply in_removelast.
Qed.

Lemma existsb_removelast {A : Type} (P : A -> bool) (l : list A) :
  existsb P l = false -> existsb P (removelast l) = false.
Proof.
  rewrite <- !forallb_negb_existsb. apply forallb_removelast.
Qed.

(** ** Splitting and joining *)

Lemma split_sep_nonempty (s : pystr) : split_sep s <> [].
Proof.
  destruct s as [|c s]; cbn [split_sep]; [discriminate|].
  destruct (N.eqb c SLASH); [discriminate|].
  destruct (split_sep s); discriminate.
Qed.

Lemma split_sep_cons_sep (s : pystr) :
  split_sep (SLASH :: s) = [] :: split_sep s.
Proof. reflexivity. Qed.

Lemma split_sep_app_sep (u v : pystr) :
  split_sep (u ++ SLASH :: v) = split_sep u ++ split_sep v.
Proof.
  induction u as [|c u IH]; [reflexivity|].
  cbn [app split_sep]. rewrite IH.
  destruct (N.eqb c SLASH); [reflexivity|].
  pose proof (split_sep_nonempty u) as Hne.
  destruct (split_sep u); [contradiction|reflexivity].
Qed.

Lemma split_sep_app (u v : pystr) :
  split_sep (u ++ v)
  = removelast (split_sep u)
    ++ (last (split_sep u) [] ++ hd [] (split_sep v)) :: tl (split_sep v).
Proof.
  induction u as [|c u IH].
  - cbn [app split_sep removelast last].
    pose proof (split_sep_nonempty v) as Hne.
    destruct (split_sep v); [contradiction|reflexivity].
  - cbn [app split_sep]. rewrite IH.
    pose proof (split_sep_nonempty u) as Hne.
    destruct (N.eqb c SLASH).
    + destruct (split_sep u) as [|w ws]; [contradiction|reflexivity].
    + destruct (split_sep u) as [|w ws]; [contradiction|].
      destruct ws as [|w' ws]; reflexivity.
Qed.

Lemma split_sep_nosep (s : pystr) :
  contains SLASH s = false -> split_sep s = [s].
Proof.
  induction s as [|c s IH]; [reflexivity|].
  rewrite contains_cons. intros H. apply orb_false_iff in H.
  destruct H as [Hc Hs]. cbn [split_sep].
  rewrite N.eqb_sym in Hc. now rewrite Hc, (IH Hs).
Qed.

(** The components of a split hold no separator. *)
Lemma split_sep_comps_nosep (s : pystr) :
  existsb (contains SLASH) (split_sep s) = false.
Proof.
  induction s as [|c s IH]; [reflexivity|].
  cbn [split_sep]. destruct (N.eqb_spec c SLASH) as [->|Hc].
  - cbn [existsb]. now rewrite IH.
  - destruct (split_sep s) as [|w ws]; cbn [existsb] in *;
      rewrite contains_cons; destruct (N.eqb_spec SLASH c);
      (congruence || assumption || reflexivity).
Qed.

(** A property that the separator does not have holds of some
    character of the string when it holds of some character of some
    component. *)
Lemma split_sep_existsb (P : N -> bool) (s : pystr) :
  P SLASH = false ->
  existsb (existsb P) (split_sep s) = existsb P s.
Proof.
  intros HP. induction s as [|c s IH]; [reflexivity|].
  cbn [split_sep existsb]. rewrite <- IH.
  destruct (N.eqb_spec c SLASH) as [->|Hc].
  - cbn [existsb]. now rewrite HP.
  - pose proof (split_sep_nonempty s) as Hne.
    destruct (split_sep s) as [|w ws]; [contradiction|].
    cbn [existsb]. now rewrite orb_assoc.
Qed.

Lemma join_sep_cons (x : pystr) (l : list pystr) :
  l <> [] -> join_sep (x :: l) = x ++ SLASH :: join_sep l.
Proof. destruct l; [contradiction|reflexivity]. Qed.

Lemma join_sep_app (a b : list pystr) :
  a <> [] -> b <> [] ->
  join_sep (a ++ b) = join_sep a ++ SLASH :: join_sep b.
Proof.
  intros Ha Hb. induction a as [|x a IH]; [contradiction|].
  destruct a as [|y a].
  - cbn [app]. now rewrite join_sep_cons.
  - change ((x :: y :: a) ++ b) with (x :: ((y :: a) ++ b)).
    rewrite join_sep_cons by discriminate.
    rewrite IH by discriminate.
    rewrite (join_sep_cons x (y :: a)) by discriminate.
    now rewrite <- app_assoc.
Qed.

Lemma split_join (l : list pystr) :
  l <> [] ->
  existsb (contains SLASH) l = false ->
  split_sep (join_sep l) = l.
Proof.
  induction l as [|x l IH]; [contradiction|]. intros _ H.
  cbn [existsb] in H. apply orb_false_iff in H. destruct H as [Hx Hl].
  destruct l as [|y l].
  - now apply split_sep_nosep.
  - rewrite join_sep_cons by discriminate.
    rewrite split_sep_app_sep, (split_sep_nosep _ Hx).
    now rewrite IH by (discriminate || assumption).
Qed.

Lemma join_sep_existsb (P : N -> bool) (l : list pystr) :
  P SLASH = false ->
  existsb P (join_sep l) = existsb (existsb P) l.
Proof.
  intros HP. induction l as [|x l IH]; [reflexivity|].
  destruct l as [|y l].
  - cbn [join_sep existsb]. now rewrite orb_false_r.
  - rewrite join_sep_cons by discriminate.
    rewrite existsb_app. cbn [existsb] in *. now rewrite HP, IH.
Qed.

Lemma split_render (comps : list pystr) :
  comps <> [] ->
  existsb (contains SLASH) comps = false ->
  split_sep (render comps) = [] :: comps.
Proof.
  intros Hne H. unfold render. now rewrite split_sep_cons_sep, split_join.
Qed.

Lemma render_app (root more : list pystr) :
  root <> [] -> more <> [] ->
  render (root ++ more) = render root ++ SLASH :: join_sep more.
Proof.
  intros Hr Hm. unfold render. now rewrite join_sep_app.
Qed.

Lemma render_existsb (P : N -> bool) (comps : list pystr) :
  P SLASH = false ->
  existsb P (render comps) = existsb (existsb P) comps.
Proof.
  intros HP. unfold render. cbn [existsb].
  now rewrite HP, join_sep_existsb.
Qed.

Lemma isabs_render (comps : list pystr) :
  posixpath.isabs (render comps) = true.
Proof. reflexivity. Qed.

(** ** Components *)

Lemma fs_bad_split (s : pystr) :
  fs_bad s = contains NUL s || existsb fs_unencodable s.
Proof. unfold fs_bad, fs_rejected, contains. apply existsb_orb. Qed.

Lemma fs_bad_null (s : pystr) : contains NUL s = true -> fs_bad s = true.
Proof. intros H. now rewrite fs_bad_split, H. Qed.

Lemma fs_bad_app (s t : pystr) : fs_bad (s ++ t) = fs_bad s || fs_bad t.
Proof. unfold fs_bad. apply existsb_app. Qed.

Lemma fs_bad_replace (s : pystr) :
  fs_bad (replace BACKSLASH SLASH s) = fs_bad s.
Proof. unfold fs_bad. now apply replace_existsb. Qed.

Lemma fs_bad_comps (l : list pystr) :
  existsb fs_bad l
  = existsb (existsb fs_unencodable) l || existsb (contains NUL) l.
Proof.
  induction l as [|c l IH]; [reflexivity|]. cbn [existsb].
  rewrite IH, fs_bad_split.
  destruct (contains NUL c), (existsb fs_unencodable c),
    (existsb (existsb fs_unencodable) l), (existsb (contains NUL) l);
    reflexivity.
Qed.

Lemma lstat_link_ok (env : Env) (newpath : pystr) :
  fs_bad newpath = false ->
  lstat_link env newpath = Ok (readlink env (locate env newpath)).
Proof.
  rewrite fs_bad_split. intros H. apply orb_false_iff in H.
  destruct H as [H1 H2]. unfold lstat_link. now rewrite H1, H2.
Qed.

Lemma lstat_link_bad (env : Env) (newpath : pystr) :
  fs_bad newpath = true ->
  exists e, lstat_link env newpath = Raise e.
Proof.
  rewrite fs_bad_split. intros H. unfold lstat_link.
  destruct (existsb fs_unencodable newpath);
    [now exists UnicodeEncodeError|].
  rewrite orb_false_r in H. rewrite H. now exists ValueError.
Qed.

Lemma entry_spec (c : pystr) :
  entry c = true <->
  c <> [] /\ c <> dot /\ c <> dotdot
  /\ contains SLASH c = false /\ fs_bad c = false.
Proof.
  unfold entry. rewrite !andb_true_iff, !negb_true_iff.
  rewrite is_empty_false, !pystr_eqb_neq. tauto.
Qed.

(** How the walk treats an entry. *)
Lemma entry_step (name : pystr) :
  entry name = true ->
  is_empty name || pystr_eqb name dot = false
  /\ pystr_eqb name dotdot = false.
Proof.
  unfold entry. rewrite !andb_true_iff, !negb_true_iff.
  intros [[[[H1 H2] H3] _] _]. now rewrite H1, H2, H3.
Qed.

Lemma step_entry (name : pystr) :
  is_empty name = false -> pystr_eqb name dot = false ->
  pystr_eqb name dotdot = false ->
  contains SLASH name = false -> fs_bad name = false ->
  entry name = true.
Proof. intros H1 H2 H3 H4 H5. unfold entry. now rewrite H1, H2, H3, H4, H5. Qed.

Lemma plain_entry (c : pystr) : plain c = true -> entry c = true.
Proof. unfold plain. intros H. now apply andb_true_iff in H. Qed.

Lemma plain_no_backslash (c : pystr) :
  plain c = true -> contains BACKSLASH c = false.
Proof.
  unfold plain. intros H. apply andb_true_iff in H.
  now apply negb_true_iff.
Qed.

Lemma forallb_plain_entry (l : list pystr) :
  forallb plain l = true -> forallb entry l = true.
Proof. apply forallb_impl. exact plain_entry. Qed.

Lemma forallb_plain (l : list pystr) :
  forallb entry l = true ->
  existsb (contains BACKSLASH) l = false ->
  forallb plain l = true.
Proof.
  rewrite <- forallb_negb_existsb, !forallb_forall.
  intros He Hb c Hc. unfold plain. now rewrite (He c Hc), (Hb c Hc).
Qed.

Lemma entries_nosep (l : list pystr) :
  forallb entry l = true -> existsb (contains SLASH) l = false.
Proof.
  intros H. apply forallb_negb_existsb. revert H. apply forallb_impl.
  intros c Hc. apply entry_spec in Hc. apply negb_true_iff. tauto.
Qed.

Lemma entries_fs_ok (l : list pystr) :
  forallb entry l = true -> existsb fs_bad l = false.
Proof.
  intros H. apply forallb_negb_existsb. revert H. apply forallb_impl.
  intros c Hc. apply entry_spec in Hc. apply negb_true_iff. tauto.
Qed.

Lemma plains_no_backslash (l : list pystr) :
  forallb plain l = true -> existsb (contains BACKSLASH) l = false.
Proof.
  intros H. apply forallb_negb_existsb. revert H. apply forallb_impl.
  intros c Hc. apply negb_true_iff. now apply plain_no_backslash.
Qed.

Lemma last_entry (root : list pystr) :
  root <> [] -> forallb entry root = true -> entry (last root []) = true.
Proof.
  intros Hne H. rewrite forallb_forall in H. apply H.
  rewrite (app_removelast_last [] Hne) at 2.
  apply in_or_app. right. now left.
Qed.

Lemma join_sep_nil (l : list pystr) :
  forallb entry l = true -> join_sep l = [] -> l = [].
Proof.
  destruct l as [|x l]; [reflexivity|]. cbn [forallb]. intros H E.
  apply andb_true_iff in H. destruct H as [Hx _].
  apply entry_spec in Hx. destruct Hx as [Hne _].
  destruct l as [|y l].
  - cbn [join_sep] in E. contradiction.
  - rewrite join_sep_cons in E by discriminate.
    destruct x; [contradiction|discriminate].
Qed.

Lemma render_fs_ok (root : list pystr) :
  forallb entry root = true -> fs_bad (render root) = false.
Proof.
  intros H. unfold fs_bad. rewrite render_existsb by reflexivity.
  now apply entries_fs_ok.
Qed.

Lemma render_no_backslash (root : list pystr) :
  forallb plain root = true -> contains BACKSLASH (render root) = false.
Proof.
  intros H. unfold contains. rewrite render_existsb by reflexivity.
  now apply plains_no_backslash.
Qed.

(** ** Lexical resolution *)

Lemma lexical_app (path a b : list pystr) :
  lexical path (a ++ b) = lexical (lexical path a) b.
Proof.
  revert path. induction a as [|name a IH]; intros path; [reflexivity|].
  cbn [app lexical].
  destruct (is_empty name || pystr_eqb name dot); [apply IH|].
  destruct (pystr_eqb name dotdot); apply IH.
Qed.

Lemma lexical_entries (path comps : list pystr) :
  forallb entry comps = true -> lexical path comps = path ++ comps.
Proof.
  revert path. induction comps as [|name comps IH]; intros path H.
  - now rewrite app_nil_r.
  - cbn [forallb] in H. apply andb_true_iff in H. destruct H as [Hn Hc].
    cbn [lexical]. destruct (entry_step _ Hn) as [-> ->].
    rewrite IH by assumption. now rewrite <- app_assoc.
Qed.

Lemma lexical_dotdots (n : nat) (path rest : list pystr) :
  lexical path (repeat dotdot n ++ rest)
  = lexical (Nat.iter n (@removelast pystr) path) rest.
Proof.
  revert path. induction n as [|n IH]; intros path; [reflexivity|].
  cbn [repeat app lexical].
  change (is_empty dotdot || pystr_eqb dotdot dot) with false.
  change (pystr_eqb dotdot dotdot) with true. cbn iota.
  now rewrite IH, Nat.iter_swap.
Qed.

(** Without [..] among the components, the path walked so far stays. *)
Lemma lexical_shift (path rest : list pystr) :
  existsb (fun c => pystr_eqb c dotdot) rest = false ->
  lexical path rest = path ++ lexical [] rest.
Proof.
  revert path. induction rest as [|name rest IH]; intros path H.
  - cbn [lexical]. now rewrite app_nil_r.
  - cbn [existsb] in H. apply orb_false_iff in H. destruct H as [Hn Hr].
    cbn [lexical]. rewrite Hn.
    destruct (is_empty name || pystr_eqb name dot); [now apply IH|].
    rewrite (IH (path ++ [name]) Hr), (IH ([] ++ [name]) Hr).
    now rewrite <- app_assoc.
Qed.

(** Resolution keeps what holds of every component. *)
Lemma lexical_forallb (P : pystr -> bool) (path rest : list pystr) :
  forallb P path = true -> forallb P rest = true ->
  forallb P (lexical path rest) = true.
Proof.
  revert path. induction rest as [|name rest IH]; intros path Hp Hr;
    [assumption|].
  cbn [forallb] in Hr. apply andb_true_iff in Hr. destruct Hr as [Hn Hr].
  cbn [lexical].
  destruct (is_empty name || pystr_eqb name dot); [now apply IH|].
  destruct (pystr_eqb name dotdot).
  - apply IH; [now apply forallb_removelast | assumption].
  - apply IH; [|assumption]. rewrite forallb_app, Hp. cbn [forallb].
    now rewrite Hn.
Qed.

(** Resolution leaves entries only. *)
Lemma lexical_entry (path rest : list pystr) :
  forallb entry path = true ->
  existsb (contains SLASH) rest = false ->
  existsb fs_bad rest = false ->
  forallb entry (lexical path rest) = true.
Proof.
  revert path. induction rest as [|name rest IH]; intros path Hp Hs Hn;
    [assumption|].
  cbn [existsb] in Hs, Hn. apply orb_false_iff in Hs, Hn.
  destruct Hs as [Hs1 Hs], Hn as [Hn1 Hn]. cbn [lexical].
  destruct (is_empty name) eqn:E1; [now apply IH|].
  destruct (pystr_eqb name dot) eqn:E2; [now apply IH|].
  cbn [orb].
  destruct (pystr_eqb name dotdot) eqn:E3.
  - apply IH; try assumption. now apply forallb_removelast.
  - apply IH; try assumption. rewrite forallb_app, Hp. cbn [forallb].
    now rewrite step_entry.
Qed.

(** The lexical resolution of a string that the operating system
    accepts and that holds no backslash leaves plain components. *)
Lemma lexical_plain (s : pystr) :
  fs_bad s = false ->
  contains BACKSLASH s = false ->
  forallb plain (lexical [] (split_sep s)) = true.
Proof.
  intros Hn Hb. apply forallb_plain.
  - apply lexical_entry; [reflexivity | apply split_sep_comps_nosep |].
    unfold fs_bad. now rewrite split_sep_existsb.
  - apply forallb_negb_existsb.
    apply lexical_forallb; [reflexivity|]. apply forallb_negb_existsb.
    unfold contains. now rewrite split_sep_existsb.
Qed.

(** ** Component-wise prefixes *)

Lemma is_prefix_spec (root path : list pystr) :
  is_prefix root path = true <-> exists more, path = root ++ more.
Proof.
  revert path. induction root as [|r root IH]; intros path.
  - split; [intros _; now exists path | reflexivity].
  - destruct path as [|c path]; cbn [is_prefix].
    + split; [discriminate | intros [more H]; discriminate].
    + rewrite andb_true_iff, pystr_eqb_eq, IH. split.
      * intros [-> [more ->]]. now exists more.
      * intros [more H]. injection H as -> ->. split; [reflexivity|].
        now exists more.
Qed.

Lemma is_prefix_app (root more : list pystr) :
  is_prefix root (root ++ more) = true.
Proof. apply is_prefix_spec. now exists more. Qed.

Lemma not_prefix_extended (init more : list pystr) (l x : pystr) :
  x <> [] ->
  is_prefix (init ++ [l]) (init ++ (l ++ x) :: more) = false.
Proof.
  intros Hx.
  destruct (is_prefix (init ++ [l]) (init ++ (l ++ x) :: more)) eqn:E;
    [exfalso | reflexivity].
  apply is_prefix_spec in E. destruct E as [y E].
  rewrite <- app_assoc in E. apply app_inv_head in E.
  cbn [app] in E. injection E as E _.
  apply Hx. apply (app_inv_head l). now rewrite app_nil_r.
Qed.

Lemma last_skipn (k : nat) (l : list pystr) :
  k < length l -> last l [] = last (skipn k l) [].
Proof.
  intros Hk.
  assert (Hs : skipn k l <> []).
  { intros H. apply (f_equal (@length (list N))) in H.
    rewrite length_skipn in H. cbn [length] in H. lia. }
  rewrite <- (firstn_skipn k l) at 1.
  rewrite (app_removelast_last [] Hs) at 1.
  rewrite app_assoc, last_last.
  rewrite (app_removelast_last [] Hs) at 1. now rewrite last_last.
Qed.

(** A root whose last component is neither of the two appended ones is
    no prefix of what is left of it plus the two. *)
Lemma not_prefix_after_pop (root : list pystr) (k : nat) (a b : pystr) :
  k < length root ->
  last root [] <> a -> last root [] <> b ->
  is_prefix root (firstn k root ++ [a; b]) = false.
Proof.
  intros Hk Ha Hb.
  destruct (is_prefix root (firstn k root ++ [a; b])) eqn:E;
    [exfalso | reflexivity].
  apply is_prefix_spec in E. destruct E as [y E].
  rewrite <- (firstn_skipn k root) in E at 2.
  rewrite <- app_assoc in E. apply app_inv_head in E.
  pose proof (last_skipn k root Hk) as Hlast.
  assert (Hlen : length (skipn k root) = length root - k)
    by apply length_skipn.
  destruct (skipn k root) as [|x [|x' [|x'' t]]];
    cbn [length] in Hlen; [lia| | |].
  - cbn [last] in Hlast. cbn [app] in E. injection E as E _. congruence.
  - cbn [last] in Hlast. cbn [app] in E. injection E as _ E _. congruence.
  - cbn [app] in E. discriminate.
Qed.

Lemma iter_removelast (n : nat) (l : list pystr) :
  Nat.iter n (@removelast pystr) l = firstn (length l - n) l.
Proof.
  induction n as [|n IH].
  - cbn [Nat.iter nat_rect]. rewrite Nat.sub_0_r. symmetry.
    apply firstn_all.
  - rewrite Nat.iter_succ, IH, removelast_firstn_len.
    rewrite length_firstn, firstn_firstn. f_equal. lia.
Qed.

(** ** [normpath] and [abspath] *)

Lemma last_is_dotdot_false (l : list pystr) :
  forallb (fun c => negb (pystr_eqb c dotdot)) l = true ->
  posixpath.last_is_dotdot l = false.
Proof.
  intros H. unfold posixpath.last_is_dotdot.
  destruct (rev l) as [|c r] eqn:E; [reflexivity|].
  assert (Hin : In c l). { apply in_rev. rewrite E. now left. }
  rewrite forallb_forall in H. specialize (H c Hin).
  now apply negb_true_iff in H.
Qed.

(** The loop of [normpath] on an absolute path is the lexical
    resolution. *)
Lemma normpath_loop_lexical (acc comps : list pystr) :
  forallb (fun c => negb (pystr_eqb c dotdot)) acc = true ->
  posixpath.normpath_loop 1 acc comps = lexical acc comps.
Proof.
  revert acc. induction comps as [|comp comps IH]; intros acc Hacc;
    [reflexivity|].
  cbn [posixpath.normpath_loop lexical].
  destruct (is_empty comp || pystr_eqb comp dot); [now apply IH|].
  rewrite (last_is_dotdot_false acc Hacc).
  change (1 =? 0) with false. cbn [andb]. rewrite !orb_false_r.
  destruct (pystr_eqb comp dotdot) eqn:Edd; cbn [negb].
  - apply IH. now apply forallb_removelast.
  - apply IH. rewrite forallb_app, Hacc. cbn [forallb]. now rewrite Edd.
Qed.

Lemma entries_not_dotdot (l : list pystr) :
  forallb entry l = true ->
  forallb (fun c => negb (pystr_eqb c dotdot)) l = true.
Proof.
  apply forallb_impl. intros c Hc.
  destruct (entry_step c Hc) as [_ ->]. reflexivity.
Qed.

Lemma endswith_sep_app (a : pystr) (c : N) :
  endswith_sep (a ++ [c]) = N.eqb c SLASH.
Proof. unfold endswith_sep. now rewrite rev_app_distr. Qed.

Lemma render_endswith (comps : list pystr) :
  forallb entry comps = true ->
  endswith_sep (render comps)
  = match comps with [] => true | _ :: _ => false end.
Proof.
  intros H. destruct comps as [|c comps]; [reflexivity|].
  assert (Hne : join_sep (c :: comps) <> []).
  { intros E. now apply join_sep_nil in E. }
  assert (Hs : contains SLASH (last (c :: comps) []) = false).
  { pose proof (last_entry (c :: comps)) as Hl.
    apply entry_spec in Hl; [tauto | discriminate | assumption]. }
  unfold render.
  (* the last character of the rendering is the last character of the
     last component *)
  assert (Hlast : exists body z,
             join_sep (c :: comps) = body ++ [z] /\ z <> SLASH).
  { revert c H Hne Hs. induction comps as [|d comps IH]; intros c H Hne Hs.
    - cbn [join_sep] in *. cbn [last] in Hs.
      destruct (rev c) as [|z r] eqn:E.
      + apply (f_equal (@rev N)) in E. rewrite rev_involutive in E.
        cbn in E. now contradiction Hne.
      + exists (rev r), z.
        apply (f_equal (@rev N)) in E. rewrite rev_involutive in E.
        cbn [rev] in E. split; [assumption|]. intros ->.
        apply contains_false in Hs. apply Hs. rewrite E.
        apply in_or_app. right. now left.
    - cbn [forallb] in H. apply andb_true_iff in H. destruct H as [Hc H].
      destruct (IH d H) as (body & z & E & Hz).
      + intros E. now apply join_sep_nil in E.
      + exact Hs.
      + exists (c ++ SLASH :: body), z. split; [|assumption].
        rewrite join_sep_cons by discriminate. rewrite E.
        now rewrite <- app_assoc. }
  destruct Hlast as (body & z & -> & Hz).
  change (SLASH :: body ++ [z]) with ((SLASH :: body) ++ [z]).
  rewrite endswith_sep_app. now apply N.eqb_neq.
Qed.

(** [abspath] of a relative path: the lexical resolution of its
    components from the working directory. *)
Lemma abspath_relative (env : Env) (p : pystr) :
  forallb entry (cwd env) = true ->
  posixpath.isabs p = false ->
  posixpath.abspath env p = render (lexical (cwd env) (split_sep p)).
Proof.
  intros Hcwd Hrel. unfold posixpath.abspath. rewrite Hrel. cbn [negb].
  unfold posixpath.join, posixpath.getcwd.
  change (startswith p [SLASH]) with (posixpath.isabs p). rewrite Hrel.
  rewrite (render_endswith _ Hcwd). cbn [is_empty render orb].
  fold (render (cwd env)).
  set (joined := if match cwd env with [] => true | _ :: _ => false end
                 then render (cwd env) ++ p
                 else render (cwd env) ++ SLASH :: p).
  assert (Hsplit : split_sep joined = [] :: cwd env ++ split_sep p).
  { unfold joined. destruct (cwd env) as [|c l] eqn:E.
    - cbn [render join_sep app]. apply split_sep_cons_sep.
    - rewrite split_sep_app_sep, split_render;
        [reflexivity | discriminate | now apply entries_nosep]. }
  assert (Hinit : posixpath.initial_slashes joined = 1).
  { unfold joined. destruct (cwd env) as [|c l] eqn:E.
    - cbn [render join_sep app].
      destruct p as [|d p]; [reflexivity|].
      unfold posixpath.isabs in Hrel. cbn [startswith] in Hrel.
      rewrite andb_true_r in Hrel.
      unfold posixpath.initial_slashes. cbn [startswith].
      rewrite N.eqb_refl, Hrel. reflexivity.
    - cbn [forallb] in Hcwd.
      apply andb_true_iff in Hcwd. destruct Hcwd as [Hc _].
      apply entry_spec in Hc. destruct Hc as (Hne & _ & _ & Hs & _).
      destruct c as [|d c]; [contradiction|].
      rewrite contains_cons in Hs. apply orb_false_iff in Hs.
      destruct Hs as [Hd _].
      unfold posixpath.initial_slashes, render.
      destruct l; cbn [join_sep app startswith];
        rewrite N.eqb_refl, Hd; reflexivity. }
  unfold posixpath.normpath.
  assert (Hne : is_empty joined = false).
  { unfold joined. now destruct (cwd env). }
  fold joined. rewrite Hne. cbv zeta. rewrite Hinit, Hsplit.
  cbn [posixpath.normpath_loop is_empty orb].
  rewrite (normpath_loop_lexical [] _ eq_refl).
  rewrite lexical_app, (lexical_entries [] _ Hcwd). cbn [app repeat].
  reflexivity.
Qed.

Lemma rstrip_sep_abs (h : pystr) :
  posixpath.isabs h = true ->
  rstrip_sep h = [] \/ posixpath.isabs (rstrip_sep h) = true.
Proof.
  destruct h as [|c h]; [discriminate|]. unfold posixpath.isabs.
  cbn [startswith]. rewrite andb_true_r. intros Hc.
  apply N.eqb_eq in Hc. subst c.
  cbn [rstrip_sep]. destruct (rstrip_sep h) as [|d r].
  - rewrite N.eqb_refl. now left.
  - right. cbn [startswith]. now rewrite N.eqb_refl.
Qed.

Lemma cut_sep_rest (rest : pystr) :
  rest = [] \/ posixpath.isabs rest = true ->
  posixpath.cut_sep rest = ([], rest).
Proof.
  intros [->|H]; [reflexivity|]. destruct rest as [|c rest]; [discriminate|].
  unfold posixpath.isabs in H. cbn [startswith] in H.
  rewrite andb_true_r in H. cbn [posixpath.cut_sep].
  apply N.eqb_eq in H. subst c. now rewrite N.eqb_refl.
Qed.

Lemma cut_sep_name (name rest : pystr) :
  contains SLASH name = false ->
  rest = [] \/ posixpath.isabs rest = true ->
  posixpath.cut_sep (name ++ rest) = (name, rest).
Proof.
  intros Hname Hrest. induction name as [|c name IH].
  - now apply cut_sep_rest.
  - rewrite contains_cons in Hname. apply orb_false_iff in Hname.
    destruct Hname as [Hc Hname]. cbn [app posixpath.cut_sep].
    rewrite N.eqb_sym in Hc. rewrite Hc, (IH Hname). reflexivity.
Qed.

(** [normpath] of a path that starts with one separator: the lexical
    resolution of its components. *)
Lemma normpath_absolute (s : pystr) :
  posixpath.initial_slashes s = 1 ->
  posixpath.normpath s = render (lexical [] (split_sep s)).
Proof.
  intros Hinit. unfold posixpath.normpath.
  destruct s as [|c s]; [discriminate|]. cbn [is_empty]. cbv zeta.
  rewrite Hinit, (normpath_loop_lexical [] _ eq_refl). reflexivity.
Qed.

Lemma initial_slashes_render (comps : list pystr) :
  forallb entry comps = true ->
  posixpath.initial_slashes (render comps) = 1.
Proof.
  intros H. destruct comps as [|c comps]; [reflexivity|].
  cbn [forallb] in H. apply andb_true_iff in H. destruct H as [Hc _].
  apply entry_spec in Hc. destruct Hc as (Hne & _ & _ & Hs & _).
  destruct c as [|d c]; [contradiction|].
  rewrite contains_cons in Hs. apply orb_false_iff in Hs.
  destruct Hs as [Hd _].
  unfold posixpath.initial_slashes, render.
  destruct comps; cbn [join_sep app startswith];
    rewrite N.eqb_refl, Hd; reflexivity.
Qed.

Lemma initial_slashes_render_app (comps : list pystr) (t : pystr) :
  comps <> [] ->
  forallb entry comps = true ->
  posixpath.initial_slashes (render comps ++ t) = 1.
Proof.
  intros Hne H. destruct comps as [|c comps]; [contradiction|].
  cbn [forallb] in H. apply andb_true_iff in H. destruct H as [Hc _].
  apply entry_spec in Hc. destruct Hc as (Hc & _ & _ & Hs & _).
  destruct c as [|d c]; [contradiction|].
  rewrite contains_cons in Hs. apply orb_false_iff in Hs.
  destruct Hs as [Hd _].
  unfold posixpath.initial_slashes, render.
  destruct comps; cbn [join_sep app startswith];
    rewrite N.eqb_refl, Hd; reflexivity.
Qed.

Lemma lexical_skip (path rest : list pystr) :
  lexical path ([] :: rest) = lexical path rest.
Proof. reflexivity. Qed.

Lemma lexical_render (comps : list pystr) :
  forallb entry comps = true ->
  lexical [] (split_sep (render comps)) = comps.
Proof.
  intros H. destruct comps as [|c comps]; [reflexivity|].
  rewrite split_render by (discriminate || now apply entries_nosep).
  rewrite lexical_skip. now apply lexical_entries.
Qed.

Lemma normpath_render (comps : list pystr) :
  forallb entry comps = true ->
  posixpath.normpath (render comps) = render comps.
Proof.
  intros H. rewrite normpath_absolute by now apply initial_slashes_render.
  now rewrite lexical_render.
Qed.

(** ** Words *)

Lemma word_spec (c : pystr) :
  word c = true <-> c <> [] /\ contains SLASH c = false.
Proof.
  unfold word. rewrite andb_true_iff, !negb_true_iff, is_empty_false.
  reflexivity.
Qed.

Lemma entry_word (c : pystr) : entry c = true -> word c = true.
Proof. intros H. apply entry_spec in H. apply word_spec. tauto. Qed.

Lemma entries_words (l : list pystr) :
  forallb entry l = true -> forallb word l = true.
Proof. apply forallb_impl. exact entry_word. Qed.

Lemma word_relative (c : pystr) :
  word c = true -> startswith c [SLASH] = false.
Proof.
  intros H. apply word_spec in H. destruct H as [Hne Hs].
  destruct c as [|d c]; [contradiction|].
  rewrite contains_cons in Hs. apply orb_false_iff in Hs.
  cbn [startswith]. now rewrite (proj1 Hs).
Qed.

Lemma words_dotdots (k : nat) : forallb word (repeat dotdot k) = true.
Proof.
  induction k as [|k IH]; [reflexivity|]. cbn [repeat forallb]. exact IH.
Qed.

Lemma join_word (a c : pystr) :
  word c = true ->
  posixpath.join a c
  = if is_empty a || endswith_sep a then a ++ c else a ++ SLASH :: c.
Proof.
  intros H. unfold posixpath.join. now rewrite (word_relative c H).
Qed.

(** The join of words ends in a character that is no separator. *)
Lemma join_sep_last (l : list pystr) :
  l <> [] -> forallb word l = true ->
  exists body z, join_sep l = body ++ [z] /\ z <> SLASH.
Proof.
  induction l as [|c l IH]; [contradiction|]. intros _ H.
  cbn [forallb] in H. apply andb_true_iff in H. destruct H as [Hc H].
  destruct l as [|d l].
  - cbn [join_sep]. apply word_spec in Hc. destruct Hc as [Hne Hs].
    destruct (rev c) as [|z r] eqn:E.
    + apply (f_equal (@rev N)) in E. rewrite rev_involutive in E.
      cbn in E. contradiction.
    + exists (rev r), z.
      apply (f_equal (@rev N)) in E. rewrite rev_involutive in E.
      cbn [rev] in E. split; [assumption|]. intros ->.
      apply contains_false in Hs. apply Hs. rewrite E.
      apply in_or_app. right. now left.
  - destruct (IH ltac:(discriminate) H) as (body & z & E & Hz).
    exists (c ++ SLASH :: body), z. split; [|assumption].
    rewrite join_sep_cons by discriminate. rewrite E.
    now rewrite <- app_assoc.
Qed.

Lemma join_sep_words_end (l : list pystr) :
  l <> [] -> forallb word l = true ->
  is_empty (join_sep l) = false /\ endswith_sep (join_sep l) = false.
Proof.
  intros Hne H. destruct (join_sep_last l Hne H) as (body & z & -> & Hz).
  split; [now destruct body|].
  rewrite endswith_sep_app. now apply N.eqb_neq.
Qed.

Lemma join_sep_snoc (l : list pystr) (c : pystr) :
  l <> [] -> join_sep (l ++ [c]) = join_sep l ++ SLASH :: c.
Proof. intros H. now rewrite join_sep_app by (assumption || discriminate). Qed.

Lemma join_words (l : list pystr) (c : pystr) :
  forallb word l = true -> word c = true ->
  posixpath.join (join_sep l) c = join_sep (l ++ [c]).
Proof.
  intros Hl Hc. rewrite (join_word _ _ Hc).
  destruct l as [|x l]; [reflexivity|].
  destruct (join_sep_words_end (x :: l) ltac:(discriminate) Hl) as [-> ->].
  cbn [orb]. now rewrite join_sep_snoc by discriminate.
Qed.

Lemma join_render (l : list pystr) (c : pystr) :
  forallb word l = true -> word c = true ->
  posixpath.join (render l) c = render (l ++ [c]).
Proof.
  intros Hl Hc. rewrite (join_word _ _ Hc).
  destruct l as [|x l]; [reflexivity|].
  assert (He : endswith_sep (render (x :: l)) = false).
  { unfold render.
    destruct (join_sep_last (x :: l) ltac:(discriminate) Hl)
      as (body & z & -> & Hz).
    change (SLASH :: body ++ [z]) with ((SLASH :: body) ++ [z]).
    rewrite endswith_sep_app. now apply N.eqb_neq. }
  rewrite He. unfold render. cbn [is_empty orb app].
  f_equal. symmetry. apply (join_sep_snoc (x :: l)). discriminate.
Qed.

Lemma rstrip_sep_snoc_sep (s : pystr) :
  rstrip_sep (s ++ [SLASH]) = rstrip_sep s.
Proof.
  induction s as [|c s IH]; [reflexivity|].
  cbn [app rstrip_sep]. now rewrite IH.
Qed.

Lemma rstrip_sep_snoc (s : pystr) (z : N) :
  z <> SLASH -> rstrip_sep (s ++ [z]) = s ++ [z].
Proof.
  intros Hz. induction s as [|c s IH].
  - cbn [app rstrip_sep]. apply N.eqb_neq in Hz. now rewrite Hz.
  - cbn [app rstrip_sep]. rewrite IH. now destruct s.
Qed.

Lemma head_of_split (h : pystr) :
  h <> [] -> endswith_sep h = false ->
  (if is_empty (h ++ [SLASH]) || forallb (N.eqb SLASH) (h ++ [SLASH])
   then h ++ [SLASH] else rstrip_sep (h ++ [SLASH])) = h.
Proof.
  intros Hne He.
  destruct (rev h) as [|z r] eqn:E.
  { apply (f_equal (@rev N)) in E. rewrite rev_involutive in E.
    cbn in E. contradiction. }
  apply (f_equal (@rev N)) in E. rewrite rev_involutive in E.
  cbn [rev] in E. subst h. rewrite endswith_sep_app in He.
  apply N.eqb_neq in He.
  replace (is_empty ((rev r ++ [z]) ++ [SLASH])) with false
    by now destruct (rev r).
  rewrite !forallb_app. cbn [forallb orb].
  destruct (N.eqb_spec SLASH z); [congruence|].
  cbn [andb]. rewrite andb_false_r. cbn [andb].
  rewrite rstrip_sep_snoc_sep. now apply rstrip_sep_snoc.
Qed.

(** [split] takes the last word off a join of words. *)
Lemma split_words (l : list pystr) (c : pystr) :
  forallb word l = true -> word c = true ->
  posixpath.split (join_sep (l ++ [c])) = (join_sep l, c).
Proof.
  intros Hl Hc. pose proof Hc as Hc'. apply word_spec in Hc'.
  destruct Hc' as [_ Hs].
  assert (Hrev : contains SLASH (rev c) = false).
  { apply contains_false. apply contains_false in Hs.
    intros Hin. apply Hs. now apply in_rev. }
  unfold posixpath.split. destruct l as [|x l].
  - cbn [app join_sep]. rewrite <- (app_nil_r (rev c)).
    rewrite (cut_sep_name _ [] Hrev) by now left.
    cbn [rev is_empty orb]. now rewrite rev_involutive.
  - rewrite join_sep_snoc by discriminate.
    rewrite rev_app_distr. cbn [rev]. rewrite <- app_assoc. cbn [app].
    rewrite (cut_sep_name _ _ Hrev) by now right.
    cbn [rev]. rewrite !rev_involutive.
    destruct (join_sep_words_end (x :: l) ltac:(discriminate) Hl)
      as [Hne He].
    rewrite head_of_split; [reflexivity | | assumption].
    now apply is_empty_false.
Qed.

Lemma split_render_snoc (l : list pystr) (c : pystr) :
  forallb word l = true -> word c = true ->
  posixpath.split (render (l ++ [c])) = (render l, c).
Proof.
  intros Hl Hc. pose proof Hc as Hc'. apply word_spec in Hc'.
  destruct Hc' as [_ Hs].
  assert (Hrev : contains SLASH (rev c) = false).
  { apply contains_false. apply contains_false in Hs.
    intros Hin. apply Hs. now apply in_rev. }
  unfold posixpath.split. destruct l as [|x l].
  - unfold render. cbn [app join_sep rev].
    rewrite (cut_sep_name _ _ Hrev) by now right.
    cbn [rev app]. now rewrite rev_involutive.
  - rewrite render_app by discriminate. cbn [join_sep].
    rewrite rev_app_distr. cbn [rev]. rewrite <- app_assoc. cbn [app].
    rewrite (cut_sep_name _ _ Hrev) by now right.
    cbn [rev]. rewrite !rev_involutive.
    rewrite head_of_split; [reflexivity | discriminate |].
    unfold render.
    destruct (join_sep_last (x :: l) ltac:(discriminate) Hl)
      as (body & z & -> & Hz).
    change (SLASH :: body ++ [z]) with ((SLASH :: body) ++ [z]).
    rewrite endswith_sep_app. now apply N.eqb_neq.
Qed.

(** ** Paths as [realpath] spells them *)

Lemma repeat_snoc {A : Type} (x : A) (k : nat) :
  repeat x (S k) = repeat x k ++ [x].
Proof.
  induction k as [|k IH]; [reflexivity|].
  cbn [repeat app] in *. now rewrite <- IH.
Qed.

Lemma words_spelled (k : nat) (comps : list pystr) :
  forallb entry comps = true ->
  forallb word (repeat dotdot k ++ comps) = true.
Proof.
  intros H. rewrite forallb_app, words_dotdots. now apply entries_words.
Qed.

Lemma spell_join (a : anchor) (comps : list pystr) (c : pystr) :
  forallb entry comps = true -> word c = true ->
  posixpath.join (spell a comps) c = spell a (comps ++ [c]).
Proof.
  intros H Hc. destruct a as [|k]; cbn [spell].
  - apply join_render; [now apply entries_words | assumption].
  - rewrite join_words; [| now apply words_spelled | assumption].
    now rewrite <- app_assoc.
Qed.

Lemma spell_nonempty (a : anchor) (comps : list pystr) (c : pystr) :
  forallb entry comps = true -> word c = true ->
  is_empty (spell a (comps ++ [c])) = false.
Proof.
  intros H Hc. destruct a as [|k]; [reflexivity|]. cbn [spell].
  apply join_sep_words_end.
  - destruct (repeat dotdot k); destruct comps; discriminate.
  - rewrite app_assoc, forallb_app, (words_spelled k comps H).
    cbn [forallb]. now rewrite Hc.
Qed.

(** The step of [realpath] for [..] on a spelled path. *)
Lemma pardir_step_spell (a : anchor) (comps : list pystr) :
  forallb entry comps = true ->
  posixpath.pardir_step (spell a comps)
  = spell (fst (step_up a comps)) (snd (step_up a comps)).
Proof.
  intros H. destruct comps as [|x comps].
  - destruct a as [|[|k]]; try reflexivity.
    cbn [step_up fst snd spell]. rewrite !app_nil_r.
    rewrite (repeat_snoc dotdot k). unfold posixpath.pardir_step.
    replace (is_empty (join_sep (repeat dotdot k ++ [dotdot]))) with false.
    2:{ symmetry. apply join_sep_words_end.
        - destruct (repeat dotdot k); discriminate.
        - rewrite forallb_app, words_dotdots. reflexivity. }
    rewrite split_words by (apply words_dotdots || reflexivity).
    rewrite pystr_eqb_refl.
    rewrite !join_words;
      try reflexivity; try apply words_dotdots.
    + now rewrite <- !repeat_snoc.
    + rewrite forallb_app, words_dotdots. reflexivity.
  - assert (Hne : x :: comps <> []) by discriminate.
    pose proof (last_entry _ Hne H) as Hlast.
    pose proof (forallb_removelast _ _ H) as Hinit.
    cbn [step_up fst snd].
    rewrite (app_removelast_last [] Hne) at 1.
    set (init := removelast (x :: comps)) in *.
    set (c := last (x :: comps) []) in *.
    unfold posixpath.pardir_step.
    rewrite (spell_nonempty a init c Hinit (entry_word c Hlast)).
    destruct (entry_step c Hlast) as [_ Hdd].
    destruct a as [|k]; cbn [spell].
    + rewrite split_render_snoc;
        [| now apply entries_words | now apply entry_word].
      now rewrite Hdd.
    + rewrite app_assoc, split_words;
        [| now apply words_spelled | now apply entry_word].
      now rewrite Hdd.
Qed.

Lemma base_step_up (env : Env) (a : anchor) (comps : list pystr) :
  base env (fst (step_up a comps)) ++ snd (step_up a comps)
  = removelast (base env a ++ comps).
Proof.
  destruct comps as [|x comps].
  - destruct a as [|k]; [reflexivity|].
    cbn [step_up fst snd base]. now rewrite !app_nil_r.
  - cbn [step_up fst snd]. symmetry. apply removelast_app. discriminate.
Qed.

Lemma step_up_entries (a : anchor) (comps : list pystr) :
  forallb entry comps = true ->
  forallb entry (snd (step_up a comps)) = true.
Proof.
  intros H. destruct comps as [|x comps].
  - now destruct a.
  - cbn [step_up snd]. now apply forallb_removelast.
Qed.

Lemma step_up_root (comps : list pystr) :
  fst (step_up FromRoot comps) = FromRoot.
Proof. now destruct comps. Qed.

Lemma spelled_relative (k : nat) (comps : list pystr) :
  forallb entry comps = true ->
  startswith (join_sep (repeat dotdot k ++ comps)) [SLASH] = false.
Proof.
  intros H. pose proof (words_spelled k comps H) as Hw.
  destruct (repeat dotdot k ++ comps) as [|x l]; [reflexivity|].
  cbn [forallb] in Hw. apply andb_true_iff in Hw. destruct Hw as [Hx _].
  pose proof (word_relative x Hx) as Hr. apply word_spec in Hx.
  destruct x as [|d x]; [now destruct Hx|].
  destruct l; cbn [join_sep app startswith] in *; exact Hr.
Qed.

Lemma lexical_spelled (env : Env) (k : nat) (comps : list pystr) :
  forallb entry comps = true ->
  lexical (cwd env) (split_sep (join_sep (repeat dotdot k ++ comps)))
  = Nat.iter k (@removelast pystr) (cwd env) ++ comps.
Proof.
  intros H. pose proof (words_spelled k comps H) as Hw.
  destruct (repeat dotdot k ++ comps) as [|x l] eqn:E.
  - destruct k; [|discriminate]. cbn [repeat app] in E. subst comps.
    cbn [join_sep split_sep lexical is_empty orb Nat.iter nat_rect].
    now rewrite app_nil_r.
  - rewrite split_join.
    + rewrite <- E, lexical_dotdots. now apply lexical_entries.
    + discriminate.
    + apply forallb_negb_existsb. revert Hw. apply forallb_impl.
      intros c Hc. apply word_spec in Hc. apply negb_true_iff. tauto.
Qed.

(** The file that a spelled path names. *)
Lemma locate_spell (env : Env) (a : anchor) (comps : list pystr) :
  forallb entry comps = true ->
  locate env (spell a comps) = base env a ++ comps.
Proof.
  intros H. unfold locate. destruct a as [|k]; cbn [spell base].
  - change (startswith (render comps) [SLASH]) with true. cbn iota.
    now apply lexical_render.
  - rewrite (spelled_relative k comps H). now apply lexical_spelled.
Qed.

Lemma fs_bad_spell (a : anchor) (comps : list pystr) :
  forallb entry comps = true -> fs_bad (spell a comps) = false.
Proof.
  intros H. destruct a as [|k]; cbn [spell]; [now apply render_fs_ok|].
  unfold fs_bad. rewrite join_sep_existsb by reflexivity.
  rewrite existsb_app. fold fs_bad.
  change (existsb (existsb fs_rejected)) with (existsb fs_bad).
  rewrite (entries_fs_ok _ H), orb_false_r.
  induction k as [|k IH]; [reflexivity|]. cbn [repeat existsb]. exact IH.
Qed.

(** [abspath] of a spelled path. *)
Lemma abspath_spell (env : Env) (a : anchor) (comps : list pystr) :
  forallb entry comps = true ->
  a = FromRoot \/ forallb entry (cwd env) = true ->
  posixpath.abspath env (spell a comps) = render (base env a ++ comps).
Proof.
  intros H Hcwd. destruct a as [|k]; cbn [spell base].
  - unfold posixpath.abspath. rewrite isabs_render. cbn [negb app].
    now apply normpath_render.
  - destruct Hcwd as [|Hcwd]; [discriminate|].
    rewrite abspath_relative; [| assumption | now apply spelled_relative].
    now rewrite lexical_spelled.
Qed.

Lemma filter_entries (l : list pystr) :
  forallb entry l = true ->
  filter (fun x => negb (is_empty x || pystr_eqb x dot)) l = l.
Proof.
  induction l as [|c l IH]; [reflexivity|]. cbn [forallb filter].
  intros H. apply andb_true_iff in H. destruct H as [Hc Hl].
  destruct (entry_step c Hc) as [-> _]. cbn [negb]. now rewrite IH.
Qed.

Lemma path_parts_render (comps : list pystr) :
  forallb entry comps = true -> pathlib.path_parts (render comps) = comps.
Proof.
  intros H. unfold pathlib.path_parts.
  destruct comps as [|c comps]; [reflexivity|].
  rewrite split_render by (discriminate || now apply entries_nosep).
  change (filter ?f ([] :: ?l)) with (filter f l).
  now apply filter_entries.
Qed.

(** [Path] leaves a rendered path of entries as it is. *)
Lemma path_str_render (comps : list pystr) :
  forallb entry comps = true -> pathlib.path_str (render comps) = render comps.
Proof.
  intros H. unfold pathlib.path_str.
  rewrite (initial_slashes_render _ H), (path_parts_render _ H).
  reflexivity.
Qed.

(** ** The walk of [realpath] *)

Lemma link_free_nil (env : Env) : link_free env [].
Proof. intros pre suf E Hne. destruct pre; [contradiction|discriminate]. Qed.

Lemma link_free_removelast (env : Env) (path : list pystr) :
  link_free env path -> link_free env (removelast path).
Proof.
  intros Hl pre suf E Hne. destruct path as [|x path].
  - destruct pre; [contradiction | discriminate].
  - apply (Hl pre (suf ++ [last (x :: path) x])); [|assumption].
    rewrite app_assoc, <- E. apply app_removelast_last. discriminate.
Qed.

Lemma link_free_push (env : Env) (path : list pystr) (name : pystr) :
  link_free env path -> readlink env (path ++ [name]) = None ->
  link_free env (path ++ [name]).
Proof.
  intros Hl Hn pre suf E Hne.
  destruct (rev suf) as [|z zs] eqn:Ez;
    apply (f_equal (@rev (list N))) in Ez; rewrite rev_involutive in Ez;
    cbn [rev] in Ez; subst suf.
  - rewrite app_nil_r in E. now subst pre.
  - rewrite app_assoc in E. apply app_inj_tail in E. destruct E as [E _].
    now apply (Hl pre (rev zs)).
Qed.

Lemma link_free_prefix (env : Env) (path more : list pystr) :
  link_free env (path ++ more) -> link_free env path.
Proof.
  intros H pre suf E Hne. apply (H pre (suf ++ more)); [|assumption].
  now rewrite E, app_assoc.
Qed.

Lemma no_symlinks_link_free (env : Env) (path : list pystr) :
  no_symlinks env -> link_free env path.
Proof. intros H pre suf _ _. apply H. Qed.

Lemma no_symlinks_unlinked (env : Env) (path names : list pystr) :
  no_symlinks env -> unlinked env path names.
Proof.
  intros H. revert path. induction names as [|name rest IH]; intros path;
    cbn [unlinked]; [exact I|].
  destruct (is_empty name || pystr_eqb name dot); [apply IH|].
  destruct (pystr_eqb name dotdot); [apply IH|]. split; [apply H | apply IH].
Qed.

(** A walk that never steps up looks up the prefixes of its result. *)
Lemma link_free_unlinked (env : Env) (path names : list pystr) :
  existsb (fun c => pystr_eqb c dotdot) names = false ->
  link_free env (lexical path names) ->
  unlinked env path names.
Proof.
  revert path. induction names as [|name rest IH]; intros path Hdd Hl;
    cbn [unlinked]; [exact I|].
  cbn [existsb] in Hdd. apply orb_false_iff in Hdd.
  destruct Hdd as [Hn Hdd]. cbn [lexical] in Hl. rewrite Hn in *.
  destruct (is_empty name || pystr_eqb name dot); [now apply IH|].
  split; [|now apply IH].
  rewrite (lexical_shift _ rest Hdd) in Hl.
  apply (Hl (path ++ [name]) (lexical [] rest) eq_refl).
  now destruct path.
Qed.

Lemma unlinked_filter (env : Env) (path names : list pystr) :
  unlinked env path
    (filter (fun x => negb (is_empty x || pystr_eqb x dot)) names)
  <-> unlinked env path names.
Proof.
  revert path. induction names as [|name rest IH]; intros path;
    [reflexivity|].
  cbn [filter unlinked].
  destruct (is_empty name || pystr_eqb name dot) eqn:E; cbn [negb];
    [apply IH|].
  cbn [unlinked]. rewrite E.
  destruct (pystr_eqb name dotdot); [apply IH|]. now rewrite IH.
Qed.

Lemma lexical_filter (path names : list pystr) :
  lexical path
    (filter (fun x => negb (is_empty x || pystr_eqb x dot)) names)
  = lexical path names.
Proof.
  revert path. induction names as [|name rest IH]; intros path;
    [reflexivity|].
  cbn [filter lexical].
  destruct (is_empty name || pystr_eqb name dot) eqn:E; cbn [negb];
    [apply IH|].
  cbn [lexical]. rewrite E. destruct (pystr_eqb name dotdot); apply IH.
Qed.

Lemma fs_bad_filter (names : list pystr) :
  existsb fs_bad
    (filter (fun x => negb (is_empty x || pystr_eqb x dot)) names)
  = existsb fs_bad names.
Proof.
  induction names as [|name rest IH]; [reflexivity|].
  cbn [filter existsb].
  destruct (is_empty name) eqn:E1.
  { apply is_empty_true in E1. subst name. exact IH. }
  destruct (pystr_eqb name dot) eqn:E2.
  { apply pystr_eqb_eq in E2. subst name. exact IH. }
  cbn [orb negb existsb]. now rewrite IH.
Qed.

Lemma path_parts_words (s : pystr) :
  forallb word (pathlib.path_parts s) = true.
Proof.
  unfold pathlib.path_parts. pose proof (split_sep_comps_nosep s) as H.
  induction (split_sep s) as [|c l IH]; [reflexivity|].
  cbn [existsb] in H. apply orb_false_iff in H. destruct H as [Hc Hl].
  cbn [filter]. destruct (is_empty c) eqn:E; cbn [orb negb];
    [now apply IH|].
  destruct (pystr_eqb c dot); cbn [negb]; [now apply IH|].
  cbn [forallb]. rewrite (IH Hl), andb_true_r.
  unfold word. now rewrite E, Hc.
Qed.

Lemma words_nosep (l : list pystr) :
  forallb word l = true -> existsb (contains SLASH) l = false.
Proof.
  intros H. apply forallb_negb_existsb. revert H. apply forallb_impl.
  intros c Hc. apply word_spec in Hc. apply negb_true_iff. tauto.
Qed.

Lemma fs_bad_join_r (a c : pystr) :
  fs_bad c = true -> fs_bad (posixpath.join a c) = true.
Proof.
  intros H. unfold posixpath.join.
  destruct (startswith c [SLASH]); [assumption|].
  destruct (is_empty a || endswith_sep a); rewrite fs_bad_app;
    [now rewrite H, orb_true_r|].
  change (fs_bad (SLASH :: c)) with (fs_bad c).
  now rewrite H, orb_true_r.
Qed.

Lemma seen_resolved_nil (env : Env) : seen_resolved env [].
Proof. intros key path H. discriminate. Qed.

Lemma seen_resolved_set (env : Env) (seen : posixpath.seen_dict)
    (key : pystr) (v : option pystr) :
  seen_resolved env seen ->
  (forall path, v = Some path -> resolved env path) ->
  seen_resolved env (posixpath.seen_set seen key v).
Proof.
  intros Hs Hv k path. unfold posixpath.seen_set.
  cbn [posixpath.seen_get]. destruct (pystr_eqb key k).
  - intros [= ->]. now apply Hv.
  - apply Hs.
Qed.

Section Loop.

Variable env : Env.
Variable recurse :
  pystr -> pystr -> posixpath.seen_dict
  -> result (pystr * bool * posixpath.seen_dict).

Abbreviation loop := (posixpath.realpath_loop env recurse).

(** As long as it looks up no link, the walk is the lexical resolution,
    and it stops with an exception at a name that the operating system
    rejects. *)
Lemma walk_unlinked (names : list pystr) (a : anchor) (comps : list pystr)
    (seen : posixpath.seen_dict) :
  forallb entry comps = true ->
  existsb (contains SLASH) names = false ->
  unlinked env (base env a ++ comps) names ->
  (existsb fs_bad names = true
   /\ exists e, loop (spell a comps) names seen = Raise e)
  \/ (existsb fs_bad names = false
      /\ exists a' comps',
           loop (spell a comps) names seen = Ok (spell a' comps', true, seen)
           /\ forallb entry comps' = true
           /\ base env a' ++ comps' = lexical (base env a ++ comps) names
           /\ (a = FromRoot -> a' = FromRoot)).
Proof.
  revert a comps. induction names as [|name rest IH];
    intros a comps Hc Hs Hu.
  { right. split; [reflexivity|]. exists a, comps. now repeat split. }
  cbn [existsb] in Hs. apply orb_false_iff in Hs. destruct Hs as [Hs1 Hs].
  cbn [unlinked] in Hu. cbn [posixpath.realpath_loop lexical existsb].
  destruct (is_empty name) eqn:E1.
  { apply is_empty_true in E1. subst name. now apply IH. }
  destruct (pystr_eqb name dot) eqn:E2.
  { apply pystr_eqb_eq in E2. subst name. now apply IH. }
  cbn [orb] in *.
  destruct (pystr_eqb name dotdot) eqn:E3.
  { apply pystr_eqb_eq in E3. subst name.
    change (fs_bad dotdot) with false. cbn [orb].
    rewrite (pardir_step_spell a comps Hc).
    rewrite <- (base_step_up env a comps) in *.
    destruct (IH (fst (step_up a comps)) (snd (step_up a comps))
                (step_up_entries a comps Hc) Hs Hu)
      as [[Hb He] | (Hb & a' & comps' & Hw & Hc' & Hl & Ha)].
    - now left.
    - right. split; [assumption|]. exists a', comps'.
      repeat split; try assumption.
      intros ->. apply Ha. apply step_up_root. }
  destruct Hu as [Hlink Hu].
  assert (Hword : word name = true) by (unfold word; now rewrite E1, Hs1).
  destruct (fs_bad name) eqn:Eb.
  { left. split; [reflexivity|].
    destruct (lstat_link_bad env (posixpath.join (spell a comps) name)
                (fs_bad_join_r _ _ Eb)) as [e He].
    exists e. now rewrite He. }
  assert (Hentry : forallb entry (comps ++ [name]) = true).
  { rewrite forallb_app, Hc. cbn [forallb]. now rewrite step_entry. }
  rewrite (spell_join a comps name Hc Hword).
  rewrite (lstat_link_ok env _ (fs_bad_spell a _ Hentry)).
  rewrite (locate_spell env a _ Hentry), app_assoc, Hlink.
  cbn [orb]. rewrite <- app_assoc in Hu |- *.
  destruct (IH a (comps ++ [name]) Hentry Hs Hu)
    as [[Hb He] | (Hb & a' & comps' & Hw & Hc' & Hl & Ha)].
  - now left.
  - right. split; [assumption|]. exists a', comps'. now repeat split.
Qed.

(** A walk that went through a name that the operating system rejects
    stopped at a loop before it. *)
Lemma walk_bad (names : list pystr) (path : pystr)
    (seen : posixpath.seen_dict) (p : pystr) (ok : bool)
    (seen' : posixpath.seen_dict) :
  loop path names seen = Ok (p, ok, seen') ->
  existsb fs_bad names = true ->
  ok = false.
Proof.
  revert path seen. induction names as [|name rest IH]; intros path seen;
    [discriminate|].
  cbn [posixpath.realpath_loop existsb].
  destruct (is_empty name) eqn:E1.
  { apply is_empty_true in E1. subst name. apply IH. }
  destruct (pystr_eqb name dot) eqn:E2.
  { apply pystr_eqb_eq in E2. subst name. apply IH. }
  cbn [orb].
  destruct (pystr_eqb name dotdot) eqn:E3.
  { apply pystr_eqb_eq in E3. subst name. apply IH. }
  destruct (fs_bad name) eqn:Eb.
  { destruct (lstat_link_bad env (posixpath.join path name)
                (fs_bad_join_r _ _ Eb)) as [e ->]. discriminate. }
  cbn [orb].
  destruct (lstat_link env (posixpath.join path name)) as [[target|]|e];
    [| apply IH | discriminate].
  destruct (posixpath.seen_get seen (posixpath.join path name))
    as [[path'|]|].
  - apply IH.
  - now intros [= _ <- _].
  - destruct (recurse path target _) as [[[path' [|]] seen'']|e];
      [apply IH | now intros [= _ <- _] | discriminate].
Qed.

(** A walk that ends without a loop goes on with further names from
    where it ended. *)
Lemma walk_app_ok (names more : list pystr) (path : pystr)
    (seen : posixpath.seen_dict) (p : pystr) (seen' : posixpath.seen_dict) :
  loop path names seen = Ok (p, true, seen') ->
  loop path (names ++ more) seen = loop p more seen'.
Proof.
  revert path seen. induction names as [|name rest IH]; intros path seen.
  { now intros [= <- <-]. }
  cbn [app posixpath.realpath_loop].
  destruct (is_empty name || pystr_eqb name dot); [apply IH|].
  destruct (pystr_eqb name dotdot); [apply IH|].
  destruct (lstat_link env (posixpath.join path name)) as [[target|]|e];
    [| apply IH | discriminate].
  destruct (posixpath.seen_get seen (posixpath.join path name))
    as [[path'|]|]; [apply IH | discriminate |].
  destruct (recurse path target _) as [[[path' [|]] seen'']|e];
    [apply IH | discriminate | discriminate].
Qed.

(** What a walk without a loop returns is a resolved path, when what
    the recursive call returns is one. *)
Lemma loop_resolved (names : list pystr) (path : pystr)
    (seen : posixpath.seen_dict) (p : pystr) (seen' : posixpath.seen_dict) :
  (forall path rest seen p seen',
      resolved env path -> seen_resolved env seen ->
      recurse path rest seen = Ok (p, true, seen') ->
      resolved env p /\ seen_resolved env seen') ->
  existsb (contains SLASH) names = false ->
  resolved env path -> seen_resolved env seen ->
  loop path names seen = Ok (p, true, seen') ->
  resolved env p /\ seen_resolved env seen'.
Proof.
  intros Hrec. revert path seen.
  induction names as [|name rest IH]; intros path seen Hs Hp Hseen.
  { now intros [= <- <-]. }
  cbn [existsb] in Hs. apply orb_false_iff in Hs. destruct Hs as [Hs1 Hs].
  cbn [posixpath.realpath_loop].
  destruct (is_empty name) eqn:E1; [now apply IH|].
  destruct (pystr_eqb name dot) eqn:E2; [now apply IH|].
  cbn [orb].
  destruct Hp as (a & comps & -> & Hc & Hl).
  destruct (pystr_eqb name dotdot) eqn:E3.
  { apply IH; try assumption.
    rewrite (pardir_step_spell a comps Hc).
    exists (fst (step_up a comps)), (snd (step_up a comps)).
    split; [reflexivity|]. split; [now apply step_up_entries|].
    rewrite base_step_up. now apply link_free_removelast. }
  assert (Hword : word name = true) by (unfold word; now rewrite E1, Hs1).
  rewrite (spell_join a comps name Hc Hword).
  destruct (fs_bad (spell a (comps ++ [name]))) eqn:Eb.
  { destruct (lstat_link_bad env _ Eb) as [e ->]. discriminate. }
  assert (Hname : fs_bad name = false).
  { destruct (fs_bad name) eqn:En; [|reflexivity].
    pose proof (fs_bad_join_r (spell a comps) name En) as Hj.
    rewrite (spell_join a comps name Hc Hword) in Hj. congruence. }
  assert (Hentry : forallb entry (comps ++ [name]) = true).
  { rewrite forallb_app, Hc. cbn [forallb]. now rewrite step_entry. }
  rewrite (lstat_link_ok env _ Eb), (locate_spell env a _ Hentry).
  assert (Hpath : resolved env (spell a comps)).
  { now exists a, comps. }
  destruct (readlink env (base env a ++ comps ++ [name]))
    as [target|] eqn:Er.
  2:{ apply IH; try assumption.
      exists a, (comps ++ [name]). split; [reflexivity|].
      split; [assumption|]. rewrite app_assoc.
      apply link_free_push; [assumption | now rewrite <- app_assoc]. }
  destruct (posixpath.seen_get seen (spell a (comps ++ [name])))
    as [[path'|]|] eqn:Eg.
  - apply IH; try assumption. now apply (Hseen _ _ Eg).
  - discriminate.
  - destruct (recurse (spell a comps) target _)
      as [[[path' [|]] seen'']|e] eqn:Erec; [| discriminate | discriminate].
    destruct (Hrec _ _ _ _ _ Hpath
                (seen_resolved_set env seen _ None Hseen
                   ltac:(discriminate)) Erec) as [Hp' Hs'].
    apply IH; try assumption.
    apply seen_resolved_set; [assumption|]. now intros ? [= <-].
Qed.

End Loop.

Lemma joinrealpath_eq (env : Env) (depth : nat) (path rest : pystr)
    (seen : posixpath.seen_dict) :
  posixpath.joinrealpath env depth path rest seen
  = posixpath.realpath_loop env
      (match depth with
       | O => fun _ _ _ => Raise RuntimeError
       | S depth' => posixpath.joinrealpath env depth'
       end)
      (if posixpath.isabs rest then [SLASH] else path)
      (split_sep (if posixpath.isabs rest then tl rest else rest))
      seen.
Proof. destruct depth; reflexivity. Qed.

Lemma resolved_root (env : Env) : resolved env [SLASH].
Proof.
  exists FromRoot, []. repeat split. apply link_free_nil.
Qed.

(** What [_joinrealpath] returns without a loop is a resolved path. *)
Lemma joinrealpath_resolved (env : Env) (depth : nat) (path rest : pystr)
    (seen : posixpath.seen_dict) (p : pystr) (seen' : posixpath.seen_dict) :
  resolved env path -> seen_resolved env seen ->
  posixpath.joinrealpath env depth path rest seen = Ok (p, true, seen') ->
  resolved env p /\ seen_resolved env seen'.
Proof.
  revert path rest seen p seen'.
  induction depth as [|depth IH]; intros path rest seen p seen' Hp Hs;
    rewrite joinrealpath_eq; apply loop_resolved;
    try apply split_sep_comps_nosep; try assumption;
    try (destruct (posixpath.isabs rest);
         [apply resolved_root | assumption]).
  discriminate.
Qed.

(** ** Resolution *)

Lemma on_posix : negb (pystr_eqb platform_system (lit "Windows")) = true.
Proof. reflexivity. Qed.

Lemma canonicalize_safe_eq (env : Env) (s : pystr) :
  canonicalize_safe env s = pathlib.resolve env (replace BACKSLASH SLASH s).
Proof. unfold canonicalize_safe. now rewrite on_posix. Qed.

Lemma isabs_replace (s : pystr) :
  posixpath.isabs s = true ->
  posixpath.isabs (replace BACKSLASH SLASH s) = true.
Proof.
  destruct s as [|c s]; [discriminate|]. unfold posixpath.isabs.
  rewrite replace_cons. cbn [startswith]. rewrite !andb_true_r. intros H.
  apply N.eqb_eq in H. now subst c.
Qed.

Lemma words_relative (l : list pystr) :
  forallb word l = true -> startswith (join_sep l) [SLASH] = false.
Proof.
  intros Hw. destruct l as [|x l]; [reflexivity|].
  cbn [forallb] in Hw. apply andb_true_iff in Hw. destruct Hw as [Hx _].
  pose proof (word_relative x Hx) as Hr. apply word_spec in Hx.
  destruct x as [|d x]; [now destruct Hx|].
  destruct l; cbn [join_sep app startswith] in *; exact Hr.
Qed.

Lemma loop_split_join (env : Env)
    (recurse : pystr -> pystr -> posixpath.seen_dict
               -> result (pystr * bool * posixpath.seen_dict))
    (path : pystr) (parts : list pystr) (seen : posixpath.seen_dict) :
  forallb word parts = true ->
  posixpath.realpath_loop env recurse path (split_sep (join_sep parts)) seen
  = posixpath.realpath_loop env recurse path parts seen.
Proof.
  intros Hw. destruct parts as [|x l]; [reflexivity|].
  now rewrite split_join by (discriminate || now apply words_nosep).
Qed.

(** The walk over [str(Path(s))] is the walk over the parts of [s]. *)
Lemma path_str_walk (env : Env)
    (recurse : pystr -> pystr -> posixpath.seen_dict
               -> result (pystr * bool * posixpath.seen_dict))
    (path s : pystr) (seen : posixpath.seen_dict) :
  posixpath.realpath_loop env recurse
    (if posixpath.isabs (pathlib.path_str s) then [SLASH] else path)
    (split_sep (if posixpath.isabs (pathlib.path_str s)
                then tl (pathlib.path_str s) else pathlib.path_str s))
    seen
  = posixpath.realpath_loop env recurse
      (if posixpath.isabs s then [SLASH] else path)
      (pathlib.path_parts s) seen.
Proof.
  pose proof (path_parts_words s) as Hw.
  unfold pathlib.path_str, posixpath.initial_slashes.
  change (startswith s [SLASH]) with (posixpath.isabs s).
  destruct (posixpath.isabs s).
  - destruct (startswith s [SLASH; SLASH]
              && negb (startswith s [SLASH; SLASH; SLASH]));
      cbn [repeat app is_empty tl];
      change (posixpath.isabs (SLASH :: ?x)) with true; cbn iota;
      cbn [tl]; rewrite ?split_sep_cons_sep;
      cbn [posixpath.realpath_loop is_empty orb];
      now apply loop_split_join.
  - cbn [repeat app].
    destruct (pathlib.path_parts s) as [|x l] eqn:E; [reflexivity|].
    destruct (join_sep_words_end (x :: l) ltac:(discriminate) Hw)
      as [-> _].
    unfold posixpath.isabs. rewrite (words_relative _ Hw).
    now apply loop_split_join.
Qed.

Lemma isabs_path_str (s : pystr) :
  posixpath.isabs (pathlib.path_str s) = posixpath.isabs s.
Proof.
  pose proof (path_parts_words s) as Hw.
  unfold pathlib.path_str, posixpath.initial_slashes.
  change (startswith s [SLASH]) with (posixpath.isabs s).
  destruct (posixpath.isabs s).
  - now destruct (startswith s [SLASH; SLASH]
                  && negb (startswith s [SLASH; SLASH; SLASH])).
  - cbn [repeat app].
    destruct (pathlib.path_parts s) as [|x l] eqn:E; [reflexivity|].
    destruct (join_sep_words_end (x :: l) ltac:(discriminate) Hw)
      as [-> _].
    apply (words_relative _ Hw).
Qed.

(** [realpath] of [Path(s)] as a walk over the parts of [s]. *)
Lemma realpath_parts (env : Env) (s : pystr) :
  posixpath.realpath env (pathlib.path_str s)
  = (r <- posixpath.realpath_loop env
            (match max_hops env with
             | O => fun _ _ _ => Raise RuntimeError
             | S depth' => posixpath.joinrealpath env depth'
             end)
            (if posixpath.isabs s then [SLASH] else [])
            (pathlib.path_parts s) [] ;;
     let '(path, ok, _) := r in
     Ok (posixpath.abspath env path, ok)).
Proof.
  unfold posixpath.realpath. now rewrite joinrealpath_eq, path_str_walk.
Qed.

Lemma parts_fs_bad (s : pystr) :
  existsb fs_bad (pathlib.path_parts s) = fs_bad s.
Proof.
  unfold pathlib.path_parts. rewrite fs_bad_filter.
  unfold fs_bad. now apply split_sep_existsb.
Qed.

Lemma base_entries (env : Env) (a : anchor) :
  a = FromRoot \/ forallb entry (cwd env) = true ->
  forallb entry (base env a) = true.
Proof.
  intros H. destruct a as [|k]; [reflexivity|].
  destruct H as [|H]; [discriminate|]. cbn [base].
  induction k as [|k IH]; [exact H|].
  cbn [Nat.iter nat_rect]. now apply forallb_removelast.
Qed.

Lemma stat_check_ok (env : Env) (p : pystr) :
  fs_bad p = false -> pathlib.stat_check env p true = Ok tt.
Proof.
  rewrite fs_bad_split. intros H. apply orb_false_iff in H.
  destruct H as [H1 H2]. unfold pathlib.stat_check. now rewrite H1, H2.
Qed.

(** What [resolve] makes of a path that [realpath] resolved
    completely. *)
Lemma resolve_of_spelled (env : Env) (a : anchor) (comps : list pystr) :
  forallb entry comps = true ->
  a = FromRoot \/ forallb entry (cwd env) = true ->
  (pathlib.stat_check env
     (pathlib.path_str (posixpath.abspath env (spell a comps))) true ;;;
   Ok (pathlib.path_str (posixpath.abspath env (spell a comps))))
  = Ok (render (base env a ++ comps)).
Proof.
  intros Hc Ha. rewrite (abspath_spell env a comps Hc Ha).
  assert (He : forallb entry (base env a ++ comps) = true).
  { now rewrite forallb_app, (base_entries env a Ha). }
  rewrite (path_str_render _ He).
  now rewrite (stat_check_ok env _ (render_fs_ok _ He)).
Qed.

(** [realpath] of a candidate whose lexical walk looks up no symbolic
    link. *)
Lemma realpath_unlinked (env : Env) (s : pystr) :
  unlinked env (if posixpath.isabs s then [] else cwd env) (split_sep s) ->
  (fs_bad s = true
   /\ exists e, posixpath.realpath env (pathlib.path_str s) = Raise e)
  \/ (fs_bad s = false
      /\ exists a comps,
           posixpath.realpath env (pathlib.path_str s)
           = Ok (posixpath.abspath env (spell a comps), true)
           /\ forallb entry comps = true
           /\ base env a ++ comps
              = lexical (if posixpath.isabs s then [] else cwd env)
                  (split_sep s)
           /\ (posixpath.isabs s = true -> a = FromRoot)).
Proof.
  intros Hu. rewrite realpath_parts.
  set (a := if posixpath.isabs s then FromRoot else FromCwd 0).
  assert (Hspell : (if posixpath.isabs s then [SLASH] else [])
                   = spell a []).
  { unfold a. now destruct (posixpath.isabs s). }
  assert (Hbase : (if posixpath.isabs s then [] else cwd env)
                  = base env a ++ []).
  { unfold a. destruct (posixpath.isabs s); [reflexivity|].
    cbn [base Nat.iter nat_rect]. now rewrite app_nil_r. }
  rewrite Hspell. rewrite Hbase in Hu |- *.
  apply unlinked_filter in Hu. fold (pathlib.path_parts s) in Hu.
  set (rec := match max_hops env with
              | O => _
              | S depth' => posixpath.joinrealpath env depth'
              end).
  destruct (walk_unlinked env rec (pathlib.path_parts s) a [] [] eq_refl
              (words_nosep _ (path_parts_words s)) Hu)
    as [[Hb [e ->]] | (Hb & a' & comps' & -> & Hc' & Hl & Ha)];
    rewrite parts_fs_bad in Hb; cbn [bind].
  - left. split; [assumption|]. now exists e.
  - right. split; [assumption|]. exists a', comps'.
    split; [reflexivity|]. split; [assumption|]. split.
    + rewrite Hl. unfold pathlib.path_parts. now rewrite lexical_filter.
    + intros Habs. apply Ha. unfold a. now rewrite Habs.
Qed.

(** Such a walk stops at no loop. *)
Lemma unlinked_no_loop (env : Env) (s : pystr) :
  unlinked env (if posixpath.isabs s then [] else cwd env) (split_sep s) ->
  pathlib.stops_at_loop env s = false.
Proof.
  intros Hu. unfold pathlib.stops_at_loop.
  now destruct (realpath_unlinked env s Hu)
    as [[_ [e ->]] | (_ & a & comps & -> & _)].
Qed.

Lemma no_symlinks_no_loop (env : Env) (s : pystr) :
  no_symlinks env -> pathlib.stops_at_loop env s = false.
Proof.
  intros H. apply unlinked_no_loop. now apply no_symlinks_unlinked.
Qed.

(** A candidate whose lexical walk looks up no symbolic link resolves
    to its lexical resolution, from the filesystem root or from the
    working directory; one with a character that the operating system
    rejects does not resolve. *)
Lemma resolve_unlinked (env : Env) (s : pystr) :
  posixpath.isabs s = true \/ forallb entry (cwd env) = true ->
  unlinked env (if posixpath.isabs s then [] else cwd env) (split_sep s) ->
  (fs_bad s = true -> exists e, pathlib.resolve env s = Raise e)
  /\ (fs_bad s = false ->
      pathlib.resolve env s
      = Ok (render (lexical (if posixpath.isabs s then [] else cwd env)
                      (split_sep s)))).
Proof.
  intros Hcwd Hu. unfold pathlib.resolve.
  destruct (realpath_unlinked env s Hu)
    as [[Hb [e ->]] | (Hb & a & comps & -> & Hc & Hl & Ha)]; cbn [bind].
  - split; [|congruence]. intros _. now exists e.
  - split; [congruence|]. intros _.
    assert (Ha' : a = FromRoot \/ forallb entry (cwd env) = true).
    { destruct Hcwd as [Habs|Hcwd]; [left; now apply Ha | now right]. }
    now rewrite (resolve_of_spelled env a comps Hc Ha'), Hl.
Qed.

(** A path of entries without links resolves to itself. *)
Lemma resolve_real (env : Env) (comps : list pystr) :
  forallb entry comps = true ->
  link_free env comps ->
  pathlib.resolve env (render comps) = Ok (render comps).
Proof.
  intros He Hl.
  destruct (resolve_unlinked env (render comps)) as (_ & H).
  - now left.
  - rewrite isabs_render. apply link_free_unlinked.
    + destruct comps as [|c comps]; [reflexivity|].
      rewrite split_render by (discriminate || now apply entries_nosep).
      change (existsb ?f ([] :: ?l)) with (existsb f l).
      apply forallb_negb_existsb. now apply entries_not_dotdot.
    + now rewrite lexical_render.
  - rewrite H by now apply render_fs_ok.
    rewrite isabs_render. now rewrite lexical_render.
Qed.

(** Without links an absolute path resolves lexically. *)
Lemma resolve_lexical (env : Env) (s : pystr) :
  no_symlinks env ->
  posixpath.isabs s = true ->
  fs_bad s = false ->
  pathlib.resolve env s = Ok (render (lexical [] (split_sep s))).
Proof.
  intros Hfs Habs Hok.
  destruct (resolve_unlinked env s) as (_ & H).
  - now left.
  - now apply no_symlinks_unlinked.
  - rewrite (H Hok). now rewrite Habs.
Qed.

(** A string that the operating system rejects does not resolve,
    unless the walk stops at a loop. *)
Lemma resolve_rejects (env : Env) (s : pystr) :
  fs_bad s = true ->
  pathlib.stops_at_loop env s = false ->
  exists e, pathlib.resolve env s = Raise e.
Proof.
  intros Hbad. unfold pathlib.stops_at_loop, pathlib.resolve.
  rewrite realpath_parts.
  destruct (posixpath.realpath_loop _ _ _ _ _)
    as [[[p ok] seen]|e] eqn:Ew; cbn [bind]; [|now exists e].
  rewrite <- parts_fs_bad in Hbad.
  rewrite (walk_bad _ _ _ _ _ _ _ _ Ew Hbad). discriminate.
Qed.

Lemma canonicalize_safe_rejects (env : Env) (s : pystr) :
  fs_bad s = true ->
  pathlib.stops_at_loop env (replace BACKSLASH SLASH s) = false ->
  exists e, canonicalize_safe env s = Raise e.
Proof.
  intros H Hl. rewrite canonicalize_safe_eq.
  apply resolve_rejects; [now rewrite fs_bad_replace | assumption].
Qed.

Lemma safe_rejects (env : Env) (self : FilePathRestrictionsFuzzer)
    (s : pystr) :
  fs_bad s = true ->
  pathlib.stops_at_loop env (replace BACKSLASH SLASH s) = false ->
  is_path_allowed_safe env self (PyStr s) = Ok false.
Proof.
  intros H Hl. unfold is_path_allowed_safe.
  destruct (canonicalize_safe_rejects env s H Hl) as [e ->]. reflexivity.
Qed.

Lemma path_str_nonempty (s : pystr) : pathlib.path_str s <> [].
Proof.
  unfold pathlib.path_str.
  destruct (repeat SLASH (posixpath.initial_slashes s)
              ++ join_sep (pathlib.path_parts s)); discriminate.
Qed.

Lemma resolve_nonempty (env : Env) (s q : pystr) :
  pathlib.resolve env s = Ok q -> q <> [].
Proof.
  unfold pathlib.resolve.
  destruct (posixpath.realpath env (pathlib.path_str s)) as [[s' ok]|e];
    cbn [bind]; [|discriminate].
  destruct (pathlib.stat_check env (pathlib.path_str s') ok);
    cbn [bind]; [|discriminate].
  intros [= <-]. apply path_str_nonempty.
Qed.

(** A resolution that met no loop, as a walk: where the walk ended,
    and what [resolve] returns for it. *)
Lemma resolve_walk (env : Env) (s q : pystr) :
  forallb entry (cwd env) = true ->
  link_free env (cwd env) ->
  pathlib.stops_at_loop env s = false ->
  pathlib.resolve env s = Ok q ->
  exists a comps seen,
    posixpath.realpath_loop env
      (match max_hops env with
       | O => fun _ _ _ => Raise RuntimeError
       | S depth' => posixpath.joinrealpath env depth'
       end)
      (if posixpath.isabs s then [SLASH] else [])
      (pathlib.path_parts s) []
    = Ok (spell a comps, true, seen)
    /\ forallb entry comps = true
    /\ link_free env (base env a ++ comps)
    /\ q = render (base env a ++ comps).
Proof.
  intros Hcwd Hfree. unfold pathlib.stops_at_loop, pathlib.resolve.
  rewrite realpath_parts.
  set (rec := match max_hops env with
              | O => _
              | S depth' => posixpath.joinrealpath env depth'
              end).
  destruct (posixpath.realpath_loop env rec _ _ _)
    as [[[p ok] seen]|e] eqn:Ew; cbn [bind]; [|discriminate].
  destruct ok; [intros _ | discriminate].
  assert (Hstart : resolved env (if posixpath.isabs s then [SLASH] else [])).
  { destruct (posixpath.isabs s); [apply resolved_root|].
    exists (FromCwd 0), []. repeat split.
    cbn [base Nat.iter nat_rect]. now rewrite app_nil_r. }
  assert (Hrec : forall path rest seen p seen',
             resolved env path -> seen_resolved env seen ->
             rec path rest seen = Ok (p, true, seen') ->
             resolved env p /\ seen_resolved env seen').
  { unfold rec. destruct (max_hops env); [discriminate|].
    intros path rest seen0 p0 seen0'. apply joinrealpath_resolved. }
  destruct (loop_resolved env rec _ _ _ _ _ Hrec
              (words_nosep _ (path_parts_words s)) Hstart
              (seen_resolved_nil env) Ew)
    as [(a & comps & -> & Hc & Hl) _].
  rewrite (resolve_of_spelled env a comps Hc (or_intror Hcwd)).
  intros [= <-]. exists a, comps, seen. now repeat split.
Qed.

(** What [resolve] returns when the walk met no loop is a real path. *)
Lemma resolve_complete (env : Env) (s q : pystr) :
  forallb entry (cwd env) = true ->
  link_free env (cwd env) ->
  pathlib.stops_at_loop env s = false ->
  pathlib.resolve env s = Ok q ->
  exists out, q = render out
              /\ forallb entry out = true /\ link_free env out.
Proof.
  intros Hcwd Hfree Hloop Hres.
  destruct (resolve_walk env s q Hcwd Hfree Hloop Hres)
    as (a & comps & seen & _ & Hc & Hl & ->).
  exists (base env a ++ comps). split; [reflexivity|].
  split; [|assumption].
  now rewrite forallb_app, (base_entries env a (or_intror Hcwd)).
Qed.

Lemma canonicalize_safe_real (env : Env) (p q : pystr) :
  forallb entry (cwd env) = true ->
  link_free env (cwd env) ->
  pathlib.stops_at_loop env (replace BACKSLASH SLASH p) = false ->
  canonicalize_safe env p = Ok q ->
  exists out, q = render out
              /\ forallb entry out = true /\ link_free env out.
Proof.
  intros Hcwd Hfree Hl. rewrite canonicalize_safe_eq.
  now apply resolve_complete.
Qed.

(** ** One symbolic link on the way *)

Lemma unlinked_app (env : Env) (path a b : list pystr) :
  unlinked env path (a ++ b)
  <-> unlinked env path a /\ unlinked env (lexical path a) b.
Proof.
  revert path. induction a as [|name a IH]; intros path.
  - cbn [app unlinked lexical]. tauto.
  - cbn [app unlinked lexical].
    destruct (is_empty name || pystr_eqb name dot); [apply IH|].
    destruct (pystr_eqb name dotdot); [apply IH|].
    rewrite IH. tauto.
Qed.

Lemma unlinked_dotdots (env : Env) (n : nat) (path rest : list pystr) :
  unlinked env path (repeat dotdot n ++ rest)
  <-> unlinked env (Nat.iter n (@removelast pystr) path) rest.
Proof.
  revert path. induction n as [|n IH]; intros path; [reflexivity|].
  cbn [repeat app unlinked].
  change (is_empty dotdot || pystr_eqb dotdot dot) with false.
  change (pystr_eqb dotdot dotdot) with true. cbn iota.
  now rewrite IH, Nat.iter_swap.
Qed.

(** The walk from a directory that is reached through no link, over a
    name that is a link whose target is walked without a further link,
    and over names that follow without a link. *)
Lemma walk_link (env : Env) (depth : nat) (dir : list pystr)
    (name target : pystr) (rest : list pystr) (seen : posixpath.seen_dict) :
  forallb entry dir = true ->
  entry name = true ->
  readlink env (dir ++ [name]) = Some target ->
  posixpath.seen_get seen (render (dir ++ [name])) = None ->
  fs_bad target = false ->
  unlinked env (if posixpath.isabs target then [] else dir)
    (split_sep target) ->
  existsb (contains SLASH) rest = false ->
  existsb fs_bad rest = false ->
  unlinked env
    (lexical (if posixpath.isabs target then [] else dir) (split_sep target))
    rest ->
  exists comps seen',
    posixpath.realpath_loop env (posixpath.joinrealpath env depth)
      (render dir) (name :: rest) seen
    = Ok (render comps, true, seen')
    /\ forallb entry comps = true
    /\ comps
       = lexical
           (lexical (if posixpath.isabs target then [] else dir)
              (split_sep target))
           rest.
Proof.
  intros Hdir Hname Hlink Hseen Hbad Hut Hs Hb Hur.
  cbn [posixpath.realpath_loop].
  destruct (entry_step _ Hname) as [-> ->].
  assert (Hentry : forallb entry (dir ++ [name]) = true).
  { rewrite forallb_app, Hdir. cbn [forallb]. now rewrite Hname. }
  change (render dir) with (spell FromRoot dir).
  rewrite (spell_join FromRoot dir name Hdir (entry_word _ Hname)).
  rewrite (lstat_link_ok env _ (fs_bad_spell FromRoot _ Hentry)).
  rewrite (locate_spell env FromRoot _ Hentry). cbn [base app spell].
  rewrite Hlink, Hseen, joinrealpath_eq.
  set (rec := match depth with
              | O => _
              | S depth' => posixpath.joinrealpath env depth'
              end).
  set (seen1 := posixpath.seen_set seen (render (dir ++ [name])) None).
  assert (Hw : exists comps,
             posixpath.realpath_loop env rec
               (if posixpath.isabs target then [SLASH] else render dir)
               (split_sep (if posixpath.isabs target then tl target
                           else target)) seen1
             = Ok (render comps, true, seen1)
             /\ forallb entry comps = true
             /\ comps = lexical (if posixpath.isabs target then [] else dir)
                          (split_sep target)).
  { assert (Hcut : forall l : list pystr,
               (if posixpath.isabs target then [] :: l else l)
               = split_sep target ->
               exists comps,
                 posixpath.realpath_loop env rec
                   (if posixpath.isabs target then [SLASH] else render dir)
                   l seen1
                 = Ok (render comps, true, seen1)
                 /\ forallb entry comps = true
                 /\ comps
                    = lexical (if posixpath.isabs target then [] else dir)
                        (split_sep target)).
    { intros l Hl.
      assert (Hsl : existsb (contains SLASH) l = false).
      { pose proof (split_sep_comps_nosep target) as H. rewrite <- Hl in H.
        destruct (posixpath.isabs target); [|assumption].
        cbn [existsb] in H. now apply orb_false_iff in H. }
      assert (Hbl : existsb fs_bad l = false).
      { assert (H : existsb fs_bad (split_sep target) = false).
        { unfold fs_bad. now rewrite split_sep_existsb. }
        rewrite <- Hl in H.
        destruct (posixpath.isabs target); [|assumption].
        cbn [existsb] in H. now apply orb_false_iff in H. }
      rewrite <- Hl in Hut |- *.
      destruct (posixpath.isabs target).
      - change [SLASH] with (spell FromRoot []).
        destruct (walk_unlinked env rec l FromRoot [] seen1 eq_refl Hsl Hut)
          as [[Hx _] | (_ & a' & comps' & Hw & Hc' & Hl' & Ha)];
          [congruence|].
        rewrite (Ha eq_refl) in *. exists comps'.
        split; [assumption|]. split; [assumption|]. exact Hl'.
      - change (render dir) with (spell FromRoot dir).
        destruct (walk_unlinked env rec l FromRoot dir seen1 Hdir Hsl Hut)
          as [[Hx _] | (_ & a' & comps' & Hw & Hc' & Hl' & Ha)];
          [congruence|].
        rewrite (Ha eq_refl) in *. exists comps'.
        split; [assumption|]. split; [assumption|]. exact Hl'. }
    apply Hcut. destruct target as [|c t]; [reflexivity|].
    unfold posixpath.isabs. cbn [startswith tl]. rewrite andb_true_r.
    destruct (N.eqb_spec SLASH c) as [<-|Hc]; [reflexivity|].
    reflexivity. }
  destruct Hw as (mid & -> & Hmid & Emid). rewrite <- Emid in *.
  set (seen2 := posixpath.seen_set seen1 (render (dir ++ [name]))
                  (Some (render mid))).
  change (render mid) with (spell FromRoot mid).
  destruct (walk_unlinked env (posixpath.joinrealpath env depth) rest
              FromRoot mid seen2 Hmid Hs Hur)
    as [[Hx _] | (_ & a' & comps' & Hw & Hc' & Hl' & Ha)];
    [congruence|].
  rewrite (Ha eq_refl) in *. exists comps', seen2.
  split; [exact Hw|]. split; [assumption|]. exact Hl'.
Qed.

Lemma entries_no_dotdot (l : list pystr) :
  forallb entry l = true ->
  existsb (fun c => pystr_eqb c dotdot) l = false.
Proof.
  intros H. apply forallb_negb_existsb. now apply entries_not_dotdot.
Qed.

Lemma entries_unlinked (env : Env) (path comps : list pystr) :
  forallb entry comps = true ->
  link_free env (path ++ comps) ->
  unlinked env path comps.
Proof.
  intros He Hl. apply link_free_unlinked.
  - now apply entries_no_dotdot.
  - now rewrite lexical_entries.
Qed.

(** The resolution of an absolute candidate that runs through one
    symbolic link. *)
Lemma resolve_through_link (env : Env) (s : pystr) (dir : list pystr)
    (name target : pystr) (rest : list pystr) :
  posixpath.isabs s = true ->
  pathlib.path_parts s = dir ++ name :: rest ->
  forallb entry dir = true ->
  entry name = true ->
  link_free env dir ->
  readlink env (dir ++ [name]) = Some target ->
  fs_bad target = false ->
  unlinked env (if posixpath.isabs target then [] else dir)
    (split_sep target) ->
  existsb fs_bad rest = false ->
  unlinked env
    (lexical (if posixpath.isabs target then [] else dir) (split_sep target))
    rest ->
  1 <= max_hops env ->
  pathlib.stops_at_loop env s = false
  /\ pathlib.resolve env s
     = Ok (render
             (lexical
                (lexical (if posixpath.isabs target then [] else dir)
                   (split_sep target))
                rest)).
Proof.
  intros Habs Hparts Hdir Hname Hfree Hlink Hbad Hut Hb Hur Hhops.
  assert (Hs : existsb (contains SLASH) rest = false).
  { pose proof (words_nosep _ (path_parts_words s)) as H.
    rewrite Hparts, existsb_app in H. apply orb_false_iff in H.
    destruct H as [_ H]. cbn [existsb] in H.
    now apply orb_false_iff in H. }
  unfold pathlib.stops_at_loop, pathlib.resolve.
  rewrite realpath_parts, Habs, Hparts.
  destruct (max_hops env) as [|depth]; [lia|].
  change [SLASH] with (spell FromRoot []).
  destruct (walk_unlinked env (posixpath.joinrealpath env depth) dir
              FromRoot [] [] eq_refl (entries_nosep _ Hdir)
              (entries_unlinked env [] dir Hdir Hfree))
    as [[Hx _] | (_ & a' & comps' & Hw & Hc' & Hl' & Ha)].
  { rewrite (entries_fs_ok _ Hdir) in Hx. discriminate. }
  rewrite (Ha eq_refl) in *. cbn [base app] in Hl'.
  rewrite (lexical_entries [] dir Hdir) in Hl'. cbn [app] in Hl'.
  subst comps'. rewrite (walk_app_ok _ _ _ _ _ _ _ _ Hw).
  destruct (walk_link env depth dir name target rest [] Hdir Hname Hlink
              eq_refl Hbad Hut Hs Hb Hur)
    as (comps & seen' & Hwalk & Hc & Hcomps).
  cbn [spell]. rewrite Hwalk. cbn [bind]. split; [reflexivity|].
  change (render comps) with (spell FromRoot comps).
  rewrite (resolve_of_spelled env FromRoot comps Hc (or_introl eq_refl)).
  cbn [base app]. now rewrite Hcomps.
Qed.

(** ** A link to itself on the way *)

(** The walk from a directory that is reached through no link, over a
    name that is a link to itself: the names that follow stay
    unresolved behind the link. *)
Lemma walk_self_link (env : Env) (depth : nat) (dir : list pystr)
    (l : pystr) (rest : list pystr) :
  forallb entry dir = true ->
  entry l = true ->
  forallb word rest = true ->
  readlink env (dir ++ [l]) = Some l ->
  posixpath.realpath_loop env
    (match depth with
     | O => fun _ _ _ => Raise RuntimeError
     | S depth' => posixpath.joinrealpath env depth'
     end) (render dir) (l :: rest) []
  = match depth with
    | O => Raise RuntimeError
    | S _ =>
        Ok (render (dir ++ [l]) ++ SLASH :: join_sep rest, false,
            [(render (dir ++ [l]), None)])
    end.
Proof.
  intros Hdir Hl Hrest Hlink.
  assert (Hentry : forallb entry (dir ++ [l]) = true).
  { rewrite forallb_app, Hdir. cbn [forallb]. now rewrite Hl. }
  assert (Hstep : forall rec names seen,
             posixpath.realpath_loop env rec (render dir) (l :: names) seen
             = match posixpath.seen_get seen (render (dir ++ [l])) with
               | Some (Some path) =>
                   posixpath.realpath_loop env rec path names seen
               | Some None =>
                   Ok (posixpath.join (render (dir ++ [l]))
                         (join_sep names), false, seen)
               | None =>
                   match rec (render dir) l
                           (posixpath.seen_set seen (render (dir ++ [l]))
                              None) with
                   | Raise e => Raise e
                   | Ok (path, false, seen) =>
                       Ok (posixpath.join path (join_sep names), false, seen)
                   | Ok (path, true, seen) =>
                       posixpath.realpath_loop env rec path names
                         (posixpath.seen_set seen (render (dir ++ [l]))
                            (Some path))
                   end
               end).
  { intros rec names seen. cbn [posixpath.realpath_loop].
    destruct (entry_step _ Hl) as [-> ->].
    change (render dir) with (spell FromRoot dir).
    rewrite (spell_join FromRoot dir l Hdir (entry_word _ Hl)).
    rewrite (lstat_link_ok env _ (fs_bad_spell FromRoot _ Hentry)).
    rewrite (locate_spell env FromRoot _ Hentry). cbn [base app spell].
    now rewrite Hlink. }
  rewrite Hstep. cbn [posixpath.seen_get].
  destruct depth as [|depth]; [reflexivity|].
  rewrite joinrealpath_eq.
  assert (Hrel : posixpath.isabs l = false).
  { exact (word_relative l (entry_word _ Hl)). }
  rewrite Hrel.
  rewrite (split_sep_nosep l)
    by (apply entry_spec in Hl; tauto).
  rewrite Hstep. unfold posixpath.seen_set. cbn [posixpath.seen_get].
  rewrite pystr_eqb_refl. cbn [join_sep].
  assert (Hj : posixpath.join (render (dir ++ [l])) []
               = render (dir ++ [l]) ++ [SLASH]).
  { unfold posixpath.join. cbn [startswith].
    rewrite (render_endswith _ Hentry).
    destruct (dir ++ [l]) eqn:E; [now destruct dir|]. reflexivity. }
  rewrite Hj. f_equal. f_equal. f_equal.
  unfold posixpath.join. rewrite (words_relative rest Hrest).
  rewrite endswith_sep_app, N.eqb_refl, orb_true_r.
  now rewrite <- app_assoc.
Qed.

(** ** The boundary test on rendered paths *)

(** On rendered component lists the string test of
    [is_path_allowed_safe] is the component-wise prefix test. *)
Lemma within_root_render (root path : list pystr) :
  root <> [] ->
  forallb entry root = true ->
  forallb plain path = true ->
  within_root (render root) (render path) = is_prefix root path.
Proof.
  intros Hne Hroot Hpath.
  pose proof (forallb_plain_entry _ Hpath) as Hentry.
  destruct (is_prefix root path) eqn:Ep.
  - apply is_prefix_spec in Ep. destruct Ep as [more ->].
    unfold within_root. destruct more as [|m more].
    + now rewrite app_nil_r, pystr_eqb_refl.
    + destruct (pystr_eqb (render (root ++ m :: more)) (render root));
        [reflexivity|].
      rewrite render_app by (assumption || discriminate).
      change (render root ++ SLASH :: join_sep (m :: more))
        with (render root ++ [SLASH] ++ join_sep (m :: more)).
      now rewrite app_assoc, startswith_app.
  - destruct (within_root (render root) (render path)) eqn:Ew;
      [exfalso | reflexivity].
    assert (Hp : is_prefix root path = true); [|congruence].
    apply is_prefix_spec. unfold within_root in Ew.
    destruct (pystr_eqb (render path) (render root)) eqn:Eq.
    + apply pystr_eqb_eq in Eq. injection Eq as Eq.
      exists []. rewrite app_nil_r. destruct path as [|c path].
      * symmetry in Eq. apply join_sep_nil in Eq; [|assumption].
        contradiction.
      * rewrite <- (split_join (c :: path));
          [| discriminate | now apply entries_nosep].
        rewrite Eq. apply split_join; [assumption|].
        now apply entries_nosep.
    + destruct (startswith (render path) (render root ++ [SLASH])) eqn:Es.
      * apply startswith_spec in Es. destruct Es as [t Et].
        unfold render in Et. cbn [app] in Et. injection Et as Et.
        rewrite <- app_assoc in Et. cbn [app] in Et.
        exists (split_sep t). destruct path as [|c path].
        { cbn [join_sep] in Et. now apply app_cons_not_nil in Et. }
        rewrite <- (split_join (c :: path));
          [| discriminate | now apply entries_nosep].
        rewrite Et, split_sep_app_sep. f_equal.
        apply split_join; [assumption | now apply entries_nosep].
      * cbn [orb] in Ew.
        destruct (startswith (render path) (render root ++ [BACKSLASH]))
          eqn:Eb; [|discriminate].
        apply startswith_spec in Eb. destruct Eb as [t Et].
        pose proof (render_no_backslash _ Hpath) as Hb.
        rewrite Et, <- app_assoc, !contains_app in Hb.
        cbn [app] in Hb. rewrite contains_cons, N.eqb_refl in Hb.
        cbn [orb] in Hb. rewrite orb_true_r in Hb. discriminate.
Qed.



(** ** [is_path_allowed_safe] along a walk without symbolic links *)

(** The decision of [is_path_allowed_safe] for an absolute candidate
    whose lexical walk looks up no symbolic link: a candidate that the
    operating system rejects is refused, any other by the component-wise
    prefix test between the root and the lexical resolution of the
    candidate. *)
Lemma safe_unlinked (env : Env) (self : FilePathRestrictionsFuzzer)
    (root : list pystr) (s : pystr) :
  root <> [] ->
  forallb entry root = true ->
  allowed_root self = render root ->
  link_free env root ->
  posixpath.isabs s = true ->
  unlinked env [] (split_sep (replace BACKSLASH SLASH s)) ->
  is_path_allowed_safe env self (PyStr s)
  = Ok (negb (fs_bad s)
        && is_prefix root
             (lexical [] (split_sep (replace BACKSLASH SLASH s)))).
Proof.
  intros Hne Hroot Hself Hfree Habs Hu.
  unfold is_path_allowed_safe. rewrite canonicalize_safe_eq, Hself.
  pose proof (isabs_replace s Habs) as Habs'.
  destruct (resolve_unlinked env (replace BACKSLASH SLASH s))
    as [Hbad Hgood]; [now left | now rewrite Habs' |].
  rewrite fs_bad_replace, Habs' in *.
  destruct (fs_bad s) eqn:Hok.
  - destruct (Hbad eq_refl) as [e ->]. reflexivity.
  - rewrite (Hgood eq_refl), (resolve_real env root Hroot Hfree).
    cbn [bind try_except negb andb]. f_equal.
    apply within_root_render; [assumption | assumption |].
    apply lexical_plain; [now rewrite fs_bad_replace|].
    apply replace_gone. discriminate.
Qed.

(** On a host without symbolic links. *)
Lemma safe_lexical (env : Env) (self : FilePathRestrictionsFuzzer)
    (root : list pystr) (s : pystr) :
  no_symlinks env ->
  root <> [] ->
  forallb entry root = true ->
  allowed_root self = render root ->
  posixpath.isabs s = true ->
  fs_bad s = false ->
  is_path_allowed_safe env self (PyStr s)
  = Ok (is_prefix root
          (lexical [] (split_sep (replace BACKSLASH SLASH s)))).
Proof.
  intros Hfs Hne Hroot Hself Habs Hok.
  rewrite (safe_unlinked env self root); try assumption.
  - now rewrite Hok.
  - now apply no_symlinks_link_free.
  - now apply no_symlinks_unlinked.
Qed.

(** A component made of the last component of the root and something
    more is walked as a name of its own. *)
Lemma extended_entry_step (l w : pystr) (c : N) :
  entry l = true ->
  is_empty (l ++ c :: w) || pystr_eqb (l ++ c :: w) dot = false
  /\ pystr_eqb (l ++ c :: w) dotdot = false.
Proof.
  intros Hl. apply entry_spec in Hl. destruct Hl as (Hne & Hdot & _).
  destruct l as [|a l]; [contradiction|]. split.
  - cbn [app is_empty orb]. apply pystr_eqb_neq. unfold dot.
    intros [= _ E]. destruct l; discriminate.
  - apply pystr_eqb_neq. unfold dotdot. cbn [app]. intros [= Ea E].
    destruct l as [|b l].
    + subst a. now contradiction Hdot.
    + cbn [app] in E. injection E as _ E. destruct l; discriminate.
Qed.

(** The components of a root followed by a suffix that starts inside
    the last component. *)
Lemma split_render_suffix (root : list pystr) (c : N) (S : pystr) :
  root <> [] ->
  forallb entry root = true ->
  c <> SLASH ->
  exists w cs,
    split_sep (c :: S) = (c :: w) :: cs
    /\ split_sep (render root ++ c :: S)
       = [] :: removelast root ++ (last root [] ++ c :: w) :: cs.
Proof.
  intros Hne Hroot Hc.
  assert (Hs : exists w cs, split_sep (c :: S) = (c :: w) :: cs).
  { cbn [split_sep]. destruct (N.eqb_spec c SLASH); [contradiction|].
    destruct (split_sep S) as [|w ws]; eauto. }
  destruct Hs as (w & cs & Hs). exists w, cs. split; [assumption|].
  rewrite split_sep_app, Hs.
  rewrite split_render by (assumption || now apply entries_nosep).
  cbn [hd tl]. destruct root as [|r root]; [contradiction|].
  reflexivity.
Qed.

Lemma split_sep_traversal (n : nat) (u v : pystr) :
  split_sep (u ++ traversal n ++ SLASH :: v)
  = split_sep u ++ repeat dotdot n ++ split_sep v.
Proof.
  revert u. induction n as [|n IH]; intros u.
  - apply split_sep_app_sep.
  - unfold traversal. cbn [repeat concat]. fold (traversal n).
    change (lit "/..") with (SLASH :: dotdot).
    cbn [app]. rewrite split_sep_app_sep, <- app_assoc, IH.
    reflexivity.
Qed.

Lemma traversal_existsb (P : N -> bool) (n : nat) :
  P SLASH = false -> P DOT = false -> existsb P (traversal n) = false.
Proof.
  intros H1 H2. induction n as [|n IH]; [reflexivity|].
  unfold traversal. cbn [repeat concat]. fold (traversal n).
  rewrite existsb_app, IH.
  change (lit "/..") with [SLASH; DOT; DOT]. cbn [existsb].
  now rewrite H1, H2.
Qed.

(** What [is_path_allowed_safe] does with the root followed by a suffix
    that starts with a separator and never steps up, when the path it
    leads to is reached through no symbolic link. *)
Lemma safe_under_root (env : Env) (self : FilePathRestrictionsFuzzer)
    (root : list pystr) (T T' : pystr) :
  root <> [] ->
  forallb plain root = true ->
  allowed_root self = render root ->
  fs_bad T = false ->
  replace BACKSLASH SLASH T = SLASH :: T' ->
  existsb (fun c => pystr_eqb c dotdot) (split_sep T') = false ->
  link_free env (root ++ lexical [] (split_sep T')) ->
  canonicalize_safe env (render root ++ T)
  = Ok (render (root ++ lexical [] (split_sep T')))
  /\ is_path_allowed_safe env self (PyStr (render root ++ T)) = Ok true.
Proof.
  intros Hne Hplain Hself Hok HT Hdd Hfree.
  pose proof (forallb_plain_entry _ Hplain) as Hentry.
  assert (Hn : fs_bad (render root ++ T) = false).
  { now rewrite fs_bad_app, Hok, render_fs_ok. }
  assert (Hsplit : split_sep (replace BACKSLASH SLASH (render root ++ T))
                   = ([] :: root) ++ split_sep T').
  { rewrite replace_app, HT.
    rewrite (replace_id _ _ _ (render_no_backslash _ Hplain)).
    rewrite split_sep_app_sep.
    now rewrite split_render by (assumption || now apply entries_nosep). }
  assert (Hlex : lexical []
                   (split_sep (replace BACKSLASH SLASH (render root ++ T)))
                 = root ++ lexical [] (split_sep T')).
  { rewrite Hsplit, lexical_app. cbn [app]. rewrite lexical_skip.
    rewrite (lexical_entries [] root Hentry). cbn [app].
    now apply lexical_shift. }
  assert (Hu : unlinked env []
                 (split_sep (replace BACKSLASH SLASH (render root ++ T)))).
  { apply link_free_unlinked; [|now rewrite Hlex].
    rewrite Hsplit, existsb_app, Hdd. cbn [app existsb].
    now rewrite (entries_no_dotdot _ Hentry). }
  split.
  - rewrite canonicalize_safe_eq.
    destruct (resolve_unlinked env
                (replace BACKSLASH SLASH (render root ++ T)))
      as [_ Hgood].
    + left. now apply isabs_replace.
    + now rewrite isabs_replace.
    + rewrite Hgood by now rewrite fs_bad_replace.
      now rewrite isabs_replace, Hlex.
  - rewrite (safe_unlinked env self root); try assumption;
      [| eapply link_free_prefix; eassumption | reflexivity ].
    rewrite Hn, Hlex. cbn [negb andb]. f_equal. apply is_prefix_app.
Qed.

(** [is_path_allowed_safe] accepts its root. *)
Lemma safe_accepts_root (env : Env) (self : FilePathRestrictionsFuzzer)
    (root : list pystr) :
  forallb plain root = true ->
  allowed_root self = render root ->
  link_free env root ->
  is_path_allowed_safe env self (PyStr (render root)) = Ok true.
Proof.
  intros Hplain Hself Hfree.
  pose proof (forallb_plain_entry _ Hplain) as Hentry.
  unfold is_path_allowed_safe.
  rewrite canonicalize_safe_eq, Hself.
  rewrite (replace_id _ _ _ (render_no_backslash _ Hplain)).
  rewrite resolve_real by assumption. cbn [bind try_except].
  unfold within_root. now rewrite pystr_eqb_refl.
Qed.

(** [is_path_allowed_safe] returns a boolean on every input, and
    [False] for a value that is no [str]. *)
Lemma is_path_allowed_safe_total (env : Env)
    (self : FilePathRestrictionsFuzzer) (v : pyval) :
  (exists b, is_path_allowed_safe env self v = Ok b)
  /\ (is_str v = false -> is_path_allowed_safe env self v = Ok false).
Proof.
  split.
  - unfold is_path_allowed_safe.
    destruct v; try (exists false; reflexivity).
    destruct (canonicalize_safe env s) as [abs_str|e]; cbn [bind try_except];
      [|eauto].
    destruct (pathlib.resolve env (allowed_root self)) as [root_str|e];
      cbn [bind try_except]; eauto.
  - destruct v; try discriminate; reflexivity.
Qed.

(** ** The step of [is_path_allowed] before its comparison *)

Lemma normpath_abs (path : pystr) :
  posixpath.isabs path = true ->
  posixpath.isabs (posixpath.normpath path) = true.
Proof.
  intros H. unfold posixpath.normpath.
  destruct path as [|c path]; [discriminate|]. cbn [is_empty].
  unfold posixpath.initial_slashes. unfold posixpath.isabs in H.
  rewrite H.
  destruct (startswith (c :: path) [SLASH; SLASH]
            && negb (startswith (c :: path) [SLASH; SLASH; SLASH]));
    reflexivity.
Qed.

Lemma join_abs (a b : pystr) :
  posixpath.isabs a = true ->
  posixpath.isabs (posixpath.join a b) = true.
Proof.
  intros H. unfold posixpath.join.
  destruct (startswith b [SLASH]) eqn:Eb; [exact Eb|].
  destruct a as [|c a]; [discriminate|].
  unfold posixpath.isabs in *. cbn [startswith] in H.
  rewrite andb_true_r in H.
  destruct (is_empty (c :: a) || endswith_sep (c :: a));
    cbn [app startswith]; now rewrite H.
Qed.

(** The step returns an absolute path. *)
Lemma canonicalize_cpp_abs (env : Env) (p q : pystr) :
  canonicalize_cpp env p = Ok q -> posixpath.isabs q = true.
Proof.
  unfold canonicalize_cpp.
  destruct (if startswith p [TILDE] then posixpath.expanduser env p
            else Ok p) as [file_path|e]; cbn [bind]; [|discriminate].
  intros [= <-].
  destruct (posixpath.isabs file_path) eqn:E; cbn [negb]; [exact E|].
  unfold posixpath.abspath. rewrite E. cbn [negb].
  apply normpath_abs. now apply join_abs.
Qed.

(** The step leaves an absolute path as it is. *)
Lemma canonicalize_cpp_fixed (env : Env) (q : pystr) :
  posixpath.isabs q = true -> canonicalize_cpp env q = Ok q.
Proof.
  intros H. unfold canonicalize_cpp.
  destruct q as [|c q]; [discriminate|].
  unfold posixpath.isabs in H. pose proof H as H'.
  cbn [startswith] in H'. rewrite andb_true_r in H'.
  apply N.eqb_eq in H'. subst c.
  change (startswith (SLASH :: q) [TILDE]) with false.
  cbn [bind]. unfold posixpath.isabs. now rewrite H.
Qed.

(** ** [is_path_allowed] and the standard output *)

Lemma print_nothing (env : Env) : print env [] = Ok tt.
Proof.
  unfold print. cbn [first_error forallb negb]. now rewrite andb_false_r.
Qed.

(** The interpolation of strings never fails. *)
Lemma first_error_strs (env : Env) (values : list pyval) :
  forallb is_str values = true -> first_error env values = None.
Proof.
  induction values as [|v values IH]; [reflexivity|]. cbn [forallb].
  intros H. apply andb_true_iff in H. destruct H as [Hv H].
  destruct v; try discriminate. cbn [first_error format_error].
  now apply IH.
Qed.

Lemma print_non_str (env : Env) (v : pyval) :
  is_str v = false -> format_error env v = None -> print env [v] = Ok tt.
Proof.
  intros H Hf. unfold print. cbn [first_error]. rewrite Hf.
  assert (He : forallb encodable [v] = true).
  { destruct v; try discriminate; reflexivity. }
  rewrite He. cbn [negb]. now rewrite andb_false_r.
Qed.

Lemma print_unformattable (env : Env) (v : pyval) (e : exn) :
  format_error env v = Some e -> print env [v] = Raise e.
Proof. intros Hf. unfold print. cbn [first_error]. now rewrite Hf. Qed.

Lemma print_printable (env : Env) (s : pystr) :
  printable env s = true -> print env [PyStr s] = Ok tt.
Proof.
  unfold printable, print. cbn [first_error format_error forallb encodable].
  rewrite andb_true_r.
  destruct (stdout_strict env); cbn [negb orb andb].
  - now intros ->.
  - reflexivity.
Qed.

Lemma printable_app (env : Env) (s t : pystr) :
  printable env (s ++ t) = printable env s && printable env t.
Proof.
  unfold printable. rewrite existsb_app.
  destruct (stdout_strict env); cbn [negb orb]; [|reflexivity].
  apply negb_orb.
Qed.

Lemma print_lenient (env : Env) (values : list pyval) :
  stdout_strict env = false -> forallb is_str values = true ->
  print env values = Ok tt.
Proof.
  intros H Hs. unfold print. now rewrite (first_error_strs env _ Hs), H.
Qed.

(** A value that is no [str] and whose text can be built is refused,
    whatever the standard output. *)
Lemma is_path_allowed_non_str (env : Env)
    (self : FilePathRestrictionsFuzzer) (v : pyval) :
  is_str v = false -> format_error env v = None ->
  is_path_allowed env self v = Ok false.
Proof.
  intros H Hf. destruct v; try discriminate;
    unfold is_path_allowed, is_path_allowed_except;
    now rewrite print_non_str.
Qed.

(** For a value that is no [str] and whose text cannot be built, an
    integer of more than 4300 digits or a list that holds one or is
    nested too deep, the [except] clause raises while it builds its
    message. *)
Lemma is_path_allowed_unformattable (env : Env)
    (self : FilePathRestrictionsFuzzer) (v : pyval) (e : exn) :
  is_str v = false -> format_error env v = Some e ->
  is_path_allowed env self v = Raise e.
Proof.
  intros H Hf. destruct v; try discriminate;
    unfold is_path_allowed, is_path_allowed_except;
    now rewrite (print_unformattable env _ e Hf).
Qed.

Example is_path_allowed_long_int :
  is_path_allowed plain_env FilePathRestrictionsFuzzer_init
    (PyInt (10 ^ 5000)) = Raise ValueError.
Proof. vm_compute. reflexivity. Qed.

(** With a standard output that accepts any text, [is_path_allowed]
    returns a boolean on every string and on every other value whose
    text can be built. *)
Lemma is_path_allowed_total (env : Env)
    (self : FilePathRestrictionsFuzzer) (v : pyval) :
  stdout_strict env = false ->
  is_str v = true \/ format_error env v = None ->
  exists b, is_path_allowed env self v = Ok b.
Proof.
  intros H Hv.
  destruct (is_str v) eqn:Ev.
  - destruct v; try discriminate. unfold is_path_allowed.
    destruct (canonicalize_cpp env s) as [file_path|e].
    + destruct (_ && _);
        repeat rewrite (print_lenient env _ H) by reflexivity;
        cbn [bind try_except]; eauto.
    + unfold is_path_allowed_except.
      rewrite (print_lenient env _ H) by reflexivity.
      cbn [bind]. eauto.
  - destruct Hv as [|Hv]; [discriminate|].
    exists false. now apply is_path_allowed_non_str.
Qed.

Lemma startswith_length (s p : pystr) :
  startswith s p = true -> length p <= length s.
Proof.
  intros H. apply startswith_spec in H. destruct H as [t ->].
  rewrite length_app. lia.
Qed.

(** When [is_path_allowed] raises, it is the encoder of a strict
    standard output that does, for a string, or the interpolation of a
    value that is no string. *)
Lemma is_path_allowed_raises (env : Env)
    (self : FilePathRestrictionsFuzzer) (v : pyval) (e : exn) :
  is_path_allowed env self v = Raise e ->
  (e = UnicodeEncodeError /\ stdout_strict env = true /\ is_str v = true)
  \/ (is_str v = false /\ format_error env v = Some e).
Proof.
  intros H. destruct (is_str v) eqn:Ev.
  2:{ right. split; [reflexivity|].
      destruct (format_error env v) as [e'|] eqn:Ef.
      - rewrite (is_path_allowed_unformattable env self v e' Ev Ef) in H.
        congruence.
      - rewrite (is_path_allowed_non_str env self v Ev Ef) in H.
        discriminate. }
  left. destruct (stdout_strict env) eqn:Estrict.
  2:{ destruct (is_path_allowed_total env self v Estrict (or_introl Ev))
        as [b Hb]. congruence. }
  split; [|now split].
  assert (Hp : forall s u, print env [PyStr s] = Raise u ->
                           u = UnicodeEncodeError).
  { intros s u. unfold print. cbn [first_error format_error].
    destruct (stdout_strict env && negb (forallb encodable [PyStr s]));
      [now intros [= <-] | discriminate]. }
  destruct v; try discriminate.
  unfold is_path_allowed, is_path_allowed_except in H.
  destruct (canonicalize_cpp env s) as [file_path|e0].
  - cbv zeta in H.
    set (root_path := if negb (posixpath.isabs (allowed_root self))
                      then posixpath.abspath env (allowed_root self)
                      else allowed_root self) in H.
    destruct (print env [PyStr file_path]) as [[]|u] eqn:E1.
    + destruct (print env [PyStr root_path]) as [[]|u2];
        destruct (_ && _); rewrite ?print_nothing in H;
        cbn [bind try_except] in H; discriminate.
    + apply Hp in E1. destruct (_ && _); cbn [bind try_except] in H;
        injection H as <-; assumption.
  - destruct (print env [PyStr s]) as [[]|u] eqn:E1; cbn [bind] in H;
      [discriminate|].
    apply Hp in E1. now injection H as <-.
Qed.

(** [is_path_allowed] decides an absolute candidate by the prefix test
    on the string as it is given, when the standard output takes the
    candidate and the root. *)
Lemma is_path_allowed_absolute (env : Env)
    (self : FilePathRestrictionsFuzzer) (s : pystr) :
  posixpath.isabs (allowed_root self) = true ->
  posixpath.isabs s = true ->
  printable env (allowed_root self) = true ->
  printable env s = true ->
  is_path_allowed env self (PyStr s)
  = Ok (startswith s (allowed_root self)).
Proof.
  intros Hroot Habs Hproot Hps.
  unfold is_path_allowed. rewrite (canonicalize_cpp_fixed env s Habs).
  rewrite Hroot. cbn [negb].
  rewrite (print_printable _ _ Hps), (print_printable _ _ Hproot).
  rewrite print_nothing. cbn [bind].
  destruct (startswith s (allowed_root self)) eqn:E.
  - apply startswith_length in E. apply Nat.leb_le in E. now rewrite E.
  - now rewrite andb_false_r.
Qed.

(** It accepts whatever starts with its absolute root. *)
Lemma is_path_allowed_prefix (env : Env)
    (self : FilePathRestrictionsFuzzer) (S : pystr) :
  posixpath.isabs (allowed_root self) = true ->
  printable env (allowed_root self ++ S) = true ->
  is_path_allowed env self (PyStr (allowed_root self ++ S)) = Ok true.
Proof.
  intros Habs Hprint.
  pose proof Hprint as Hp. rewrite printable_app in Hp.
  apply andb_true_iff in Hp. destruct Hp as [Hroot _].
  rewrite is_path_allowed_absolute; try assumption.
  - now rewrite startswith_app.
  - destruct (allowed_root self); [discriminate | exact Habs].
Qed.

Lemma is_path_allowed_under_root (env : Env)
    (self : FilePathRestrictionsFuzzer) (root : list pystr) (S : pystr) :
  allowed_root self = render root ->
  printable env (render root) = true ->
  existsb is_surrogate S = false ->
  is_path_allowed env self (PyStr (render root ++ S)) = Ok true.
Proof.
  intros Hself Hprint HS. rewrite <- Hself.
  apply is_path_allowed_prefix; rewrite Hself; [reflexivity|].
  rewrite printable_app, Hprint. unfold printable. rewrite HS.
  now rewrite orb_true_r.
Qed.

(** Outside the filesystem root, both checks accept the root and the
    descendant [sub/file.txt]. *)
Lemma accepts_root_and_descendant (env : Env)
    (self : FilePathRestrictionsFuzzer) (root : list pystr) :
  link_free env (root ++ [lit "sub"; lit "file.txt"]) ->
  root <> [] ->
  forallb plain root = true ->
  allowed_root self = render root ->
  printable env (render root) = true ->
  is_path_allowed_safe env self (PyStr (render root)) = Ok true
  /\ is_path_allowed_safe env self
       (PyStr (render root ++ lit "/" ++ lit "sub/file.txt")) = Ok true
  /\ is_path_allowed env self (PyStr (render root)) = Ok true
  /\ is_path_allowed env self
       (PyStr (render root ++ lit "/" ++ lit "sub/file.txt")) = Ok true.
Proof.
  intros Hfree Hne Hplain Hself Hprint. repeat split.
  - apply safe_accepts_root; try assumption.
    eapply link_free_prefix; eassumption.
  - apply (safe_under_root env self root
             (lit "/" ++ lit "sub/file.txt") (lit "sub/file.txt"));
      try assumption; reflexivity.
  - rewrite <- (app_nil_r (render root)).
    now apply is_path_allowed_under_root.
  - now apply is_path_allowed_under_root.
Qed.

(** ** The credential validator *)

Lemma first_blocked_Some (chars : list N) (s : pystr) (c : N) :
  Auth.first_blocked chars s = Some c -> In c chars /\ In c s.
Proof.
  induction chars as [|d chars IH]; cbn [Auth.first_blocked];
    [discriminate|].
  destruct (contains d s) eqn:E.
  - intros [= <-]. apply contains_In in E. split; [now left | assumption].
  - intros H. destruct (IH H). split; [now right | assumption].
Qed.

Lemma first_blocked_None (chars : list N) (s : pystr) :
  Auth.first_blocked chars s = None <-> forall c, In c chars -> ~ In c s.
Proof.
  induction chars as [|d chars IH]; cbn [Auth.first_blocked].
  - split; [intros _ c [] | reflexivity].
  - destruct (contains d s) eqn:E.
    + split; [discriminate|]. intros H. exfalso.
      apply (H d); [now left | now apply contains_In].
    + rewrite IH. apply contains_false in E. split.
      * intros H c [<-|Hc]; auto.
      * intros H c Hc. apply H. now right.
Qed.

Lemma validate_accepts (self : Auth.ClientAuthenticationFuzzer)
    (s : pystr) :
  length s <= Auth.max_password_length self ->
  ~ In NUL s ->
  (forall c, In c Auth.control_chars -> ~ In c s) ->
  Auth.validate_client_input self (PyStr s)
  = (true, lit "Client validation passed").
Proof.
  intros Hlen Hnul Hctl. unfold Auth.validate_client_input.
  destruct (Nat.ltb_spec (Auth.max_password_length self) (length s));
    [lia|].
  apply contains_false in Hnul. rewrite Hnul.
  apply first_blocked_None in Hctl. now rewrite Hctl.
Qed.

Example validate_too_long :
  Auth.validate_client_input Auth.init (PyStr (lit "01234567890123456"))
  = (false, lit "Password exceeds maximum length of 16").
Proof. reflexivity. Qed.

Example validate_escape :
  Auth.validate_client_input Auth.init (PyStr (lit "pass" ++ [27%N]))
  = (false, lit "Control character not allowed: '\x1b'").
Proof. reflexivity. Qed.

Example validate_none :
  Auth.validate_client_input Auth.init PyNone
  = (false, lit "Password cannot be None").
Proof. reflexivity. Qed.

Example validate_int :
  Auth.validate_client_input Auth.init (PyInt 123)
  = (false, lit "Password must be string").
Proof. reflexivity. Qed.

Lemma validate_refuses_iff (self : Auth.ClientAuthenticationFuzzer)
    (v : pyval) :
  fst (Auth.validate_client_input self v) = false
  <-> Auth.refused (Auth.max_password_length self) v.
Proof.
  destruct v as [| b | z | b | s | l];
    try (cbn [Auth.validate_client_input fst Auth.refused];
         split; auto; fail).
  cbn [Auth.validate_client_input Auth.refused].
  destruct (Nat.ltb_spec (Auth.max_password_length self) (length s))
    as [Hl|Hl].
  { cbn [fst]. split; auto. }
  destruct (contains NUL s) eqn:En.
  { apply contains_In in En. cbn [fst]. split; auto. }
  apply contains_false in En.
  destruct (Auth.first_blocked Auth.control_chars s) as [c|] eqn:Ef;
    cbn [fst].
  - apply first_blocked_Some in Ef. split; [intros _ | reflexivity].
    right. right. now exists c.
  - split; [discriminate|].
    intros [H | [H | [c [Hc Hs]]]]; [lia | contradiction |].
    exfalso. revert Hs. now apply (proj1 (first_blocked_None _ _) Ef).
Qed.

(** * The properties of the specification *)

(** ** The path gate *)

(** C1 (amended).  For a root of plain components that is reached
    through no symbolic link, and a non-empty suffix [S] whose first
    character is neither a slash nor a backslash and which holds no [..]
    component, such that the path that the root followed by [S] names
    is reached through no symbolic link either: [is_path_allowed_safe]
    refuses the root followed by [S]; and on every path of plain
    components its string test is the component-wise prefix test, so
    no sibling whose name merely starts like the root is accepted. *)
Theorem C1_prefix_boundary_safe (env : Env)
    (self : FilePathRestrictionsFuzzer) (root : list pystr) (S : pystr) :
  root <> [] ->
  forallb plain root = true ->
  allowed_root self = render root ->
  link_free env root ->
  link_free env
    (lexical [] (split_sep (replace BACKSLASH SLASH (render root ++ S)))) ->
  S <> [] ->
  startswith S [SLASH] = false ->
  startswith S [BACKSLASH] = false ->
  existsb (fun c => pystr_eqb c dotdot)
    (split_sep (replace BACKSLASH SLASH S)) = false ->
  is_path_allowed_safe env self (PyStr (render root ++ S)) = Ok false
  /\ forall path, forallb plain path = true ->
       within_root (render root) (render path) = is_prefix root path.
Proof.
  intros Hne Hplain Hself Hfree Hcand HS Hslash Hback Hdd.
  pose proof (forallb_plain_entry _ Hplain) as Hentry.
  split; [| intros path Hpath; now apply within_root_render].
  rewrite replace_app in Hcand.
  rewrite (replace_id _ _ _ (render_no_backslash _ Hplain)) in Hcand.
  destruct S as [|c S]; [contradiction|].
  assert (Hc1 : c <> SLASH) by (intros ->; discriminate).
  assert (Hc2 : c <> BACKSLASH) by (intros ->; discriminate).
  rewrite replace_cons in *.
  destruct (N.eqb_spec c BACKSLASH) as [|_]; [contradiction|].
  destruct (split_render_suffix root c (replace BACKSLASH SLASH S)
              Hne Hentry Hc1) as (w & cs & Hsplit & Hall).
  rewrite Hsplit in Hdd. cbn [existsb] in Hdd.
  apply orb_false_iff in Hdd. destruct Hdd as [_ Hdd].
  destruct (extended_entry_step (last root []) w c
              (last_entry root Hne Hentry)) as [Hskip Hup].
  assert (Hnames : split_sep
                     (replace BACKSLASH SLASH (render root ++ c :: S))
                   = [] :: removelast root
                        ++ (last root [] ++ c :: w) :: cs).
  { rewrite replace_app, replace_cons.
    rewrite (replace_id _ _ _ (render_no_backslash _ Hplain)).
    destruct (N.eqb_spec c BACKSLASH) as [|_]; [contradiction|].
    exact Hall. }
  assert (Hlex : lexical []
                   ([] :: removelast root
                       ++ (last root [] ++ c :: w) :: cs)
                 = removelast root
                     ++ (last root [] ++ c :: w) :: lexical [] cs).
  { rewrite lexical_skip.
    change (removelast root ++ (last root [] ++ c :: w) :: cs)
      with (removelast root ++ [last root [] ++ c :: w] ++ cs).
    rewrite lexical_app.
    rewrite (lexical_entries [] (removelast root))
      by (apply forallb_removelast; assumption).
    cbn [app lexical]. rewrite Hskip, Hup.
    rewrite (lexical_shift _ cs Hdd), <- app_assoc. reflexivity. }
  rewrite (safe_unlinked env self root); try assumption; [| reflexivity |].
  - assert (Hnp : is_prefix root
                    (removelast root
                       ++ (last root [] ++ c :: w) :: lexical [] cs)
                  = false).
    { rewrite (app_removelast_last [] Hne) at 1.
      apply not_prefix_extended. discriminate. }
    rewrite Hnames, Hlex, Hnp. now rewrite andb_false_r.
  - rewrite Hnames. apply link_free_unlinked.
    + cbn [existsb]. rewrite existsb_app. cbn [existsb].
      rewrite Hup, Hdd.
      rewrite (entries_no_dotdot _ (forallb_removelast _ _ Hentry)).
      reflexivity.
    + rewrite Hall in Hcand. exact Hcand.
Qed.

Lemma C1_prefix_boundary_safe_witness :
  is_path_allowed_safe plain_env FilePathRestrictionsFuzzer_init
    (PyStr (render sample_root ++ lit "_fake")) = Ok false
  /\ forall path, forallb plain path = true ->
       within_root (render sample_root) (render path)
       = is_prefix sample_root path.
Proof.
  apply (C1_prefix_boundary_safe plain_env FilePathRestrictionsFuzzer_init
           sample_root (lit "_fake")).
  - discriminate.
  - reflexivity.
  - reflexivity.
  - intros pre suf _ _. reflexivity.
  - intros pre suf _ _. reflexivity.
  - discriminate.
  - reflexivity.
  - reflexivity.
  - reflexivity.
Defined.

(** C1 as stated fails: [is_path_allowed] accepts the sibling
    [/home/CMU/RawRecords_fake], and [is_path_allowed_safe] accepts a
    suffix that starts with a backslash. *)
Lemma C1_counterexample :
  (lit "_fake" <> [] /\ startswith (lit "_fake") [SLASH] = false
   /\ is_path_allowed plain_env FilePathRestrictionsFuzzer_init
        (PyStr (lit "/home/CMU/RawRecords" ++ lit "_fake")) = Ok true)
  /\ (lit "\sub" <> [] /\ startswith (lit "\sub") [SLASH] = false
      /\ is_path_allowed_safe plain_env FilePathRestrictionsFuzzer_init
           (PyStr (lit "/home/CMU/RawRecords" ++ lit "\sub")) = Ok true).
Proof.
  repeat split; try discriminate; vm_compute; reflexivity.
Qed.

(** A suffix may also leave the root's sibling again through [..]. *)
Lemma safe_accepts_reentry :
  is_path_allowed_safe plain_env FilePathRestrictionsFuzzer_init
    (PyStr (lit "/home/CMU/RawRecords" ++ lit "x/../RawRecords")) = Ok true.
Proof. vm_compute. reflexivity. Qed.

(** C2 (amended).  For a root of plain components that is reached
    through no symbolic link and whose last component is neither [etc]
    nor [passwd], and every depth [n >= 1] such that the path of the
    first [length root - n] components of the root followed by [etc]
    and [passwd] is reached through no symbolic link:
    [is_path_allowed_safe] refuses the root followed by [n] steps to
    the parent and [/etc/passwd]; the [..] components are resolved by
    dropping the last component walked so far, before the comparison,
    and the candidate resolves to that path. *)
Theorem C2_traversal_safe (env : Env) (self : FilePathRestrictionsFuzzer)
    (root : list pystr) (n : nat) :
  root <> [] ->
  forallb plain root = true ->
  allowed_root self = render root ->
  link_free env root ->
  link_free env
    (firstn (length root - n) root ++ [lit "etc"; lit "passwd"]) ->
  last root [] <> lit "etc" ->
  last root [] <> lit "passwd" ->
  1 <= n ->
  is_path_allowed_safe env self
    (PyStr (render root ++ traversal n ++ lit "/etc/passwd")) = Ok false
  /\ canonicalize_safe env (render root ++ traversal n ++ lit "/etc/passwd")
     = Ok (render (firstn (length root - n) root
                     ++ [lit "etc"; lit "passwd"])).
Proof.
  intros Hne Hplain Hself Hfree Hout Hetc Hpasswd Hn.
  pose proof (forallb_plain_entry _ Hplain) as Hentry.
  set (cand := render root ++ traversal n ++ lit "/etc/passwd").
  assert (Hok : fs_bad cand = false).
  { unfold cand. rewrite !fs_bad_app, (render_fs_ok _ Hentry).
    unfold fs_bad at 1. now rewrite traversal_existsb. }
  assert (Hback : contains BACKSLASH cand = false).
  { unfold cand. rewrite !contains_app, (render_no_backslash _ Hplain).
    unfold contains at 1. now rewrite traversal_existsb. }
  assert (Hsplit : split_sep cand
                   = ([] :: root)
                       ++ repeat dotdot n ++ [lit "etc"; lit "passwd"]).
  { unfold cand.
    change (lit "/etc/passwd") with (SLASH :: lit "etc/passwd").
    rewrite split_sep_traversal.
    now rewrite split_render by (assumption || now apply entries_nosep). }
  assert (Hroot : lexical [] ([] :: root) = root).
  { rewrite lexical_skip. now apply lexical_entries. }
  assert (Hlex : lexical [] (split_sep cand)
                 = firstn (length root - n) root
                     ++ [lit "etc"; lit "passwd"]).
  { rewrite Hsplit, lexical_app, Hroot.
    rewrite lexical_dotdots, iter_removelast.
    now apply lexical_entries. }
  assert (Hu : unlinked env [] (split_sep cand)).
  { rewrite Hsplit. apply unlinked_app. rewrite Hroot. split.
    - cbn [unlinked is_empty orb]. now apply entries_unlinked.
    - apply unlinked_dotdots. rewrite iter_removelast.
      now apply entries_unlinked. }
  split.
  - rewrite (safe_unlinked env self root); try assumption;
      [| reflexivity | now rewrite (replace_id _ _ _ Hback) ].
    fold cand. rewrite Hok, (replace_id _ _ _ Hback), Hlex.
    cbn [negb andb]. f_equal.
    apply not_prefix_after_pop; try assumption.
    destruct root; [contradiction | cbn [length]; lia].
  - rewrite canonicalize_safe_eq. fold cand.
    rewrite (replace_id _ _ _ Hback).
    destruct (resolve_unlinked env cand) as [_ Hgood];
      [now left | exact Hu |].
    rewrite (Hgood Hok). change (posixpath.isabs cand) with true.
    cbn iota. now rewrite Hlex.
Qed.

Lemma C2_traversal_safe_witness :
  is_path_allowed_safe plain_env FilePathRestrictionsFuzzer_init
    (PyStr (render sample_root ++ traversal 2 ++ lit "/etc/passwd"))
  = Ok false
  /\ canonicalize_safe plain_env
       (render sample_root ++ traversal 2 ++ lit "/etc/passwd")
     = Ok (render (firstn (length sample_root - 2) sample_root
                     ++ [lit "etc"; lit "passwd"])).
Proof.
  apply (C2_traversal_safe plain_env FilePathRestrictionsFuzzer_init
           sample_root 2).
  - discriminate.
  - reflexivity.
  - reflexivity.
  - intros pre suf _ _. reflexivity.
  - intros pre suf _ _. reflexivity.
  - discriminate.
  - discriminate.
  - lia.
Defined.

(** C2 as stated fails: [is_path_allowed] compares the string with the
    [..] still in it, and under the root [/etc] the traversal comes back
    into the root. *)
Lemma C2_counterexample :
  is_path_allowed plain_env FilePathRestrictionsFuzzer_init
    (PyStr (lit "/home/CMU/RawRecords" ++ lit "/../../etc/passwd"))
  = Ok true
  /\ is_path_allowed_safe plain_env
       (with_root FilePathRestrictionsFuzzer_init (lit "/etc"))
       (PyStr (lit "/etc" ++ lit "/../../etc/passwd"))
     = Ok true.
Proof. split; vm_compute; reflexivity. Qed.

(** C3 (amended).  [is_path_allowed_safe] refuses every string that
    holds a null code point: the resolution raises, nothing is cut at
    the null, and the exception is turned into [False].  The one way
    past it is a symbolic link loop: when the walk of [realpath] stops
    at a loop before it comes to the null, what follows is normalized
    lexically only, and the string is refused as long as the null is
    still in the path that comes out. *)
Theorem C3_null_byte_safe (env : Env) (self : FilePathRestrictionsFuzzer)
    (s : pystr) :
  contains NUL s = true ->
  (forall q,
     posixpath.realpath env
       (pathlib.path_str (replace BACKSLASH SLASH s)) = Ok (q, false) ->
     contains NUL (pathlib.path_str q) = true) ->
  is_path_allowed_safe env self (PyStr s) = Ok false
  /\ exists e, canonicalize_safe env s = Raise e.
Proof.
  intros H Hq. apply fs_bad_null in H.
  assert (Hr : exists e, canonicalize_safe env s = Raise e).
  { rewrite canonicalize_safe_eq.
    destruct (pathlib.stops_at_loop env (replace BACKSLASH SLASH s))
      eqn:El.
    - unfold pathlib.stops_at_loop in El. unfold pathlib.resolve.
      destruct (posixpath.realpath env _) as [[q [|]]|e];
        try discriminate.
      specialize (Hq q eq_refl). cbn [bind].
      unfold pathlib.stat_check. rewrite Hq.
      destruct (existsb fs_unencodable _); eexists; reflexivity.
    - apply resolve_rejects; [now rewrite fs_bad_replace | assumption]. }
  split; [|exact Hr].
  unfold is_path_allowed_safe. destruct Hr as [e ->]. reflexivity.
Qed.

Lemma C3_null_byte_safe_witness :
  is_path_allowed_safe loop_env FilePathRestrictionsFuzzer_init
    (PyStr (lit "/home/CMU/RawRecords/loop/../file.txt" ++ [NUL]
              ++ lit ".exe"))
  = Ok false
  /\ exists e,
       canonicalize_safe loop_env
         (lit "/home/CMU/RawRecords/loop/../file.txt" ++ [NUL]
            ++ lit ".exe")
       = Raise e.
Proof.
  apply (C3_null_byte_safe loop_env FilePathRestrictionsFuzzer_init
           (lit "/home/CMU/RawRecords/loop/../file.txt" ++ [NUL]
              ++ lit ".exe")).
  - reflexivity.
  - intros q Hq. vm_compute in Hq. injection Hq as <-.
    vm_compute. reflexivity.
Defined.

(** C3 as stated fails: [is_path_allowed] accepts a path under the root
    with a null code point in it; and where [/home/CMU/RawRecords/loop]
    is a link to itself, [is_path_allowed_safe] accepts a path that
    comes to the null behind that link and steps up again, since
    [realpath] leaves what follows the loop unresolved and [abspath]
    then drops the component with the null. *)
Lemma C3_counterexample :
  (contains NUL (lit "/home/CMU/RawRecords/file.txt" ++ [NUL] ++ lit ".exe")
   = true
   /\ is_path_allowed plain_env FilePathRestrictionsFuzzer_init
        (PyStr (lit "/home/CMU/RawRecords/file.txt" ++ [NUL] ++ lit ".exe"))
      = Ok true)
  /\ (contains NUL
        (lit "/home/CMU/RawRecords/loop/../sub/x" ++ [NUL] ++ lit "/..")
      = true
      /\ canonicalize_safe loop_env
           (lit "/home/CMU/RawRecords/loop/../sub/x" ++ [NUL] ++ lit "/..")
         = Ok (lit "/home/CMU/RawRecords/sub")
      /\ is_path_allowed_safe loop_env FilePathRestrictionsFuzzer_init
           (PyStr (lit "/home/CMU/RawRecords/loop/../sub/x" ++ [NUL]
                     ++ lit "/.."))
         = Ok true).
Proof. repeat split; vm_compute; reflexivity. Qed.




(** A target with a backslash is another matter: the sibling directory
    named [RawRecords\evil] passes the test for the root followed by a
    backslash, which [is_path_allowed_safe] makes on every platform. *)
Lemma safe_accepts_backslash_sibling :
  canonicalize_safe sibling_env (lit "/home/CMU/RawRecords/out/x")
  = Ok (render [lit "home"; lit "CMU"; lit "RawRecords\evil"; lit "x"])
  /\ is_prefix sample_root
       [lit "home"; lit "CMU"; lit "RawRecords\evil"; lit "x"] = false
  /\ is_path_allowed_safe sibling_env FilePathRestrictionsFuzzer_init
       (PyStr (lit "/home/CMU/RawRecords/out/x")) = Ok true.
Proof. repeat split; vm_compute; reflexivity. Qed.

(** C5 (the code at the failing input).  With a standard output that
    encodes strictly, [is_path_allowed] called with a string that holds
    a lone surrogate does not return: printing the path raises in the
    [try] block and again in the [except] clause, whose exception
    reaches the caller. *)
Theorem C5_exception_escapes :
  stdout_strict plain_env = true
  /\ is_path_allowed plain_env FilePathRestrictionsFuzzer_init
       (PyStr [56575%N]) = Raise UnicodeEncodeError.
Proof. split; vm_compute; reflexivity. Qed.

(** C6 (the code at the failing input).  With the filesystem root as
    allowed root, [is_path_allowed_safe] refuses the descendant
    [sub/file.txt], which [is_path_allowed] accepts: the candidate
    resolves to [/sub/file.txt], and the test looks for the root string
    followed by one more separator. *)
Theorem C6_filesystem_root_descendant_refused :
  canonicalize_safe plain_env (lit "/" ++ lit "/" ++ lit "sub/file.txt")
  = Ok (lit "/sub/file.txt")
  /\ is_path_allowed_safe plain_env
       (with_root FilePathRestrictionsFuzzer_init (lit "/"))
       (PyStr (lit "/" ++ lit "/" ++ lit "sub/file.txt")) = Ok false
  /\ is_path_allowed_safe plain_env
       (with_root FilePathRestrictionsFuzzer_init (lit "/"))
       (PyStr (lit "/sub/file.txt")) = Ok false
  /\ is_path_allowed plain_env
       (with_root FilePathRestrictionsFuzzer_init (lit "/"))
       (PyStr (lit "/" ++ lit "/" ++ lit "sub/file.txt")) = Ok true.
Proof. repeat split; vm_compute; reflexivity. Qed.

(** A root with a backslash in a name is refused as a candidate as
    well: the backslash is replaced in the candidate and kept in the
    root.  Here the root is the one [__init__] keeps for Windows. *)
Lemma safe_refuses_backslash_root :
  is_path_allowed_safe plain_env
    (with_root FilePathRestrictionsFuzzer_init
       (allowed_root_windows FilePathRestrictionsFuzzer_init))
    (PyStr (allowed_root_windows FilePathRestrictionsFuzzer_init))
  = Ok false.
Proof. vm_compute. reflexivity. Qed.

(** C7 (amended).  For a root of plain components other than the
    filesystem root, such that the path of the root followed by [sub]
    and [file.raw] is reached through no symbolic link:
    [is_path_allowed_safe] accepts the root followed by
    [//sub/./file.raw] and by [\sub\file.raw], and its normalization
    brings both to the root followed by [/sub/file.raw], which is its
    own normal form; [is_path_allowed] accepts both as well when the
    standard output takes the root. *)
Theorem C7_separator_normalization_safe (env : Env)
    (self : FilePathRestrictionsFuzzer) (root : list pystr) :
  link_free env (root ++ [lit "sub"; lit "file.raw"]) ->
  root <> [] ->
  forallb plain root = true ->
  allowed_root self = render root ->
  printable env (render root) = true ->
  (is_path_allowed_safe env self
     (PyStr (render root ++ lit "//sub/./file.raw")) = Ok true
   /\ is_path_allowed_safe env self
        (PyStr (render root ++ lit "\sub\file.raw")) = Ok true)
  /\ (canonicalize_safe env (render root ++ lit "//sub/./file.raw")
      = Ok (render root ++ lit "/sub/file.raw")
      /\ canonicalize_safe env (render root ++ lit "\sub\file.raw")
         = Ok (render root ++ lit "/sub/file.raw")
      /\ canonicalize_safe env (render root ++ lit "/sub/file.raw")
         = Ok (render root ++ lit "/sub/file.raw"))
  /\ (is_path_allowed env self
        (PyStr (render root ++ lit "//sub/./file.raw")) = Ok true
      /\ is_path_allowed env self
           (PyStr (render root ++ lit "\sub\file.raw")) = Ok true).
Proof.
  intros Hfree Hne Hplain Hself Hprint.
  assert (Hform : render (root ++ [lit "sub"; lit "file.raw"])
                  = render root ++ lit "/sub/file.raw").
  { now rewrite render_app by (assumption || discriminate). }
  destruct (safe_under_root env self root (lit "//sub/./file.raw")
              (lit "/sub/./file.raw") Hne Hplain Hself
              eq_refl eq_refl eq_refl Hfree) as [Ha1 Ha2].
  destruct (safe_under_root env self root (lit "\sub\file.raw")
              (lit "sub/file.raw") Hne Hplain Hself
              eq_refl eq_refl eq_refl Hfree) as [Hb1 Hb2].
  destruct (safe_under_root env self root (lit "/sub/file.raw")
              (lit "sub/file.raw") Hne Hplain Hself
              eq_refl eq_refl eq_refl Hfree) as [Hc1 _].
  change (lexical [] (split_sep (lit "/sub/./file.raw")))
    with [lit "sub"; lit "file.raw"] in Ha1.
  change (lexical [] (split_sep (lit "sub/file.raw")))
    with [lit "sub"; lit "file.raw"] in Hb1, Hc1.
  rewrite Hform in Ha1, Hb1, Hc1.
  repeat split; try assumption;
    now apply is_path_allowed_under_root.
Qed.

Lemma C7_separator_normalization_safe_witness :
  (is_path_allowed_safe plain_env FilePathRestrictionsFuzzer_init
     (PyStr (render sample_root ++ lit "//sub/./file.raw")) = Ok true
   /\ is_path_allowed_safe plain_env FilePathRestrictionsFuzzer_init
        (PyStr (render sample_root ++ lit "\sub\file.raw")) = Ok true)
  /\ (canonicalize_safe plain_env
        (render sample_root ++ lit "//sub/./file.raw")
      = Ok (render sample_root ++ lit "/sub/file.raw")
      /\ canonicalize_safe plain_env
           (render sample_root ++ lit "\sub\file.raw")
         = Ok (render sample_root ++ lit "/sub/file.raw")
      /\ canonicalize_safe plain_env
           (render sample_root ++ lit "/sub/file.raw")
         = Ok (render sample_root ++ lit "/sub/file.raw"))
  /\ (is_path_allowed plain_env FilePathRestrictionsFuzzer_init
        (PyStr (render sample_root ++ lit "//sub/./file.raw")) = Ok true
      /\ is_path_allowed plain_env FilePathRestrictionsFuzzer_init
           (PyStr (render sample_root ++ lit "\sub\file.raw")) = Ok true).
Proof.
  apply (C7_separator_normalization_safe plain_env
           FilePathRestrictionsFuzzer_init sample_root).
  - intros pre suf _ _. reflexivity.
  - discriminate.
  - reflexivity.
  - reflexivity.
  - reflexivity.
Defined.

(** C7 as stated fails: the step of [is_path_allowed] that precedes its
    comparison leaves an absolute candidate as it is, so the doubled
    separator and the [.] stay and the two strings compared differ. *)
Lemma C7_counterexample :
  canonicalize_cpp plain_env
    (lit "/home/CMU/RawRecords" ++ lit "//sub/./file.raw")
  = Ok (lit "/home/CMU/RawRecords//sub/./file.raw")
  /\ canonicalize_cpp plain_env
       (lit "/home/CMU/RawRecords" ++ lit "//sub/./file.raw")
     <> canonicalize_cpp plain_env
          (lit "/home/CMU/RawRecords" ++ lit "/sub/file.raw").
Proof. split; vm_compute; [reflexivity | discriminate]. Qed.

(** C8 (amended).  With a working directory that is a real path, the
    normalization of [is_path_allowed_safe] maps its own result to
    itself whenever [realpath] resolved the candidate completely,
    without stopping at a symbolic link loop, and the result holds no
    backslash; the step of [is_path_allowed] maps its own result to
    itself always. *)
Theorem C8_idempotent_canonicalization (env : Env) (p1 q1 p2 q2 : pystr) :
  forallb entry (cwd env) = true ->
  link_free env (cwd env) ->
  pathlib.stops_at_loop env (replace BACKSLASH SLASH p1) = false ->
  canonicalize_safe env p1 = Ok q1 ->
  contains BACKSLASH q1 = false ->
  canonicalize_cpp env p2 = Ok q2 ->
  canonicalize_safe env q1 = Ok q1 /\ canonicalize_cpp env q2 = Ok q2.
Proof.
  intros Hcwd Hfree Hloop Hsafe Hback Hcpp. split.
  - destruct (canonicalize_safe_real env p1 q1 Hcwd Hfree Hloop Hsafe)
      as (out & -> & Hentry & Hout).
    rewrite canonicalize_safe_eq, (replace_id _ _ _ Hback).
    now apply resolve_real.
  - apply canonicalize_cpp_fixed. now apply (canonicalize_cpp_abs env p2).
Qed.

Lemma C8_idempotent_canonicalization_witness :
  canonicalize_safe plain_env (lit "/home/CMU/RawRecords/sub/file.raw")
  = Ok (lit "/home/CMU/RawRecords/sub/file.raw")
  /\ canonicalize_cpp plain_env (lit "/work/a/b")
     = Ok (lit "/work/a/b").
Proof.
  apply (C8_idempotent_canonicalization plain_env
           (lit "/home/CMU/RawRecords\sub/./file.raw")
           (lit "/home/CMU/RawRecords/sub/file.raw")
           (lit "a//x/../b") (lit "/work/a/b")).
  - reflexivity.
  - intros pre suf _ _. reflexivity.
  - reflexivity.
  - vm_compute. reflexivity.
  - reflexivity.
  - vm_compute. reflexivity.
Defined.

(** C8 as stated fails: in a working directory named with a backslash,
    the normalization of [is_path_allowed_safe] sends [x] to [/w\d/x]
    and that to [/w/d/x]; and where [/home/CMU/RawRecords/loop] is a
    link to itself, it sends the link [link.txt] reached behind the
    loop to the path of the link, and that to the target of the
    link. *)
Lemma C8_counterexample :
  (canonicalize_safe backslash_env (lit "x") = Ok (lit "/w\d/x")
   /\ canonicalize_safe backslash_env (lit "/w\d/x") = Ok (lit "/w/d/x")
   /\ canonicalize_safe backslash_env (lit "/w\d/x")
      <> canonicalize_safe backslash_env (lit "x"))
  /\ (canonicalize_safe detour_env
        (lit "/home/CMU/RawRecords/loop/../link.txt")
      = Ok (lit "/home/CMU/RawRecords/link.txt")
      /\ contains BACKSLASH (lit "/home/CMU/RawRecords/link.txt") = false
      /\ canonicalize_safe detour_env (lit "/home/CMU/RawRecords/link.txt")
         = Ok (lit "/etc/passwd")).
Proof. repeat split; vm_compute; (reflexivity || discriminate). Qed.

(** ** The credential validator *)

(** C9.  With the configured maximum of 16, [validate_client_input]
    returns [False] with a non-empty reason exactly when the input is
    [None] or no string, or is a string longer than 16, or one that
    holds a null or a character of the blocked list; every other string
    is answered [True] with the message of success.  The function is a
    total function to results: no input makes it raise. *)
Theorem C9_validate_client_input (password : pyval) :
  Auth.max_password_length Auth.init = 16
  /\ (fst (Auth.validate_client_input Auth.init password) = false
      <-> (password = PyNone \/ is_str password = false
           \/ exists s, password = PyStr s
                /\ (16 < length s \/ In NUL s
                    \/ exists c, In c Auth.control_chars /\ In c s)))
  /\ (fst (Auth.validate_client_input Auth.init password) = false
      -> snd (Auth.validate_client_input Auth.init password) <> [])
  /\ (fst (Auth.validate_client_input Auth.init password) = true
      -> Auth.validate_client_input Auth.init password
         = (true, lit "Client validation passed")).
Proof.
  split; [reflexivity|]. split; [|split].
  - rewrite validate_refuses_iff.
    change (Auth.max_password_length Auth.init) with 16.
    destruct password as [| b | z | b | s | l]; cbn [Auth.refused is_str];
      try (split; [intros _; right; left; reflexivity | trivial]).
    split.
    + intros H. right. right. now exists s.
    + intros [H | [H | [s' [[= <-] H]]]]; (discriminate || assumption).
  - destruct password as [| b | z | b | s | l];
      cbn [Auth.validate_client_input]; try (intros _; discriminate).
    destruct (Auth.max_password_length Auth.init <? length s).
    { intros _. cbn [snd]. discriminate. }
    destruct (contains NUL s); [intros _; discriminate|].
    destruct (Auth.first_blocked Auth.control_chars s);
      cbn [fst snd]; intros H; discriminate.
  - destruct password as [| b | z | b | s | l];
      cbn [Auth.validate_client_input fst]; try discriminate.
    destruct (Auth.max_password_length Auth.init <? length s);
      [discriminate|].
    destruct (contains NUL s); [discriminate|].
    destruct (Auth.first_blocked Auth.control_chars s);
      [discriminate | reflexivity].
Qed.

(** C10.  A string of at most 16 characters without null, whose
    characters below 0x20 are among tab, line feed, vertical tab, form
    feed and carriage return, is accepted; the vertical tab is not in
    the blocked list. *)
Theorem C10_whitespace_controls_accepted (s : pystr) :
  length s <= 16 ->
  ~ In NUL s ->
  (forall c, In c s -> (c < 32)%N -> In c [9; 10; 11; 12; 13]%N) ->
  Auth.validate_client_input Auth.init (PyStr s)
  = (true, lit "Client validation passed")
  /\ ~ In 11%N Auth.control_chars.
Proof.
  intros Hlen Hnul Hws. split.
  - apply validate_accepts; [exact Hlen | exact Hnul |].
    intros c Hc Hs.
    assert (Hlt : (c < 32)%N).
    { unfold Auth.control_chars in Hc. cbn [In] in Hc.
      repeat (destruct Hc as [<-|Hc]; [reflexivity|]). contradiction. }
    specialize (Hws c Hs Hlt). unfold Auth.control_chars in Hc.
    cbn [In] in Hc, Hws.
    repeat (destruct Hws as [<-|Hws];
            [repeat (destruct Hc as [Hc|Hc]; [discriminate|]);
             contradiction|]).
    contradiction.
  - unfold Auth.control_chars. cbn [In].
    intros H. repeat (destruct H as [H|H]; [discriminate|]). contradiction.
Qed.

Lemma C10_whitespace_controls_accepted_witness :
  Auth.validate_client_input Auth.init (PyStr (lit "pass" ++ [11%N]))
  = (true, lit "Client validation passed")
  /\ ~ In 11%N Auth.control_chars.
Proof.
  apply (C10_whitespace_controls_accepted (lit "pass" ++ [11%N])).
  - vm_compute. lia.
  - vm_compute. intros H.
    repeat (destruct H as [H|H]; [discriminate|]). contradiction.
  - intros c Hc Hlt. vm_compute in Hc.
    repeat (destruct Hc as [<-|Hc];
            [first [discriminate Hlt | vm_compute; tauto]|]).
    contradiction.
Defined.

(** * Further properties of the code *)

(** ** The answer of the validator *)

Lemma control_chars_sorted : StronglySorted N.le Auth.control_chars.
Proof.
  unfold Auth.control_chars.
  repeat (apply SSorted_cons;
          [| repeat (apply Forall_cons; [discriminate|]); apply Forall_nil]).
  apply SSorted_nil.
Qed.

Lemma first_blocked_least (chars : list N) (s : pystr) (c : N) :
  StronglySorted N.le chars ->
  Auth.first_blocked chars s = Some c ->
  forall d, In d chars -> In d s -> (c <= d)%N.
Proof.
  induction 1 as [|x chars Hs IH Hall]; cbn [Auth.first_blocked];
    [discriminate|].
  destruct (contains x s) eqn:E.
  - intros [= <-] d [<-|Hd] _; [apply N.le_refl|].
    rewrite Forall_forall in Hall. now apply Hall.
  - intros H d [<-|Hd] Hin.
    + apply contains_false in E. contradiction.
    + now apply IH.
Qed.

(** X1.  Which reason [validate_client_input] gives: the length is checked
    first, then the null, then the listed control characters in the
    order of the list, so that the message names the blocked character
    of the lowest code, wherever it stands in the password. *)
Theorem validate_reason (self : Auth.ClientAuthenticationFuzzer)
    (s : pystr) :
  (Auth.max_password_length self < length s ->
   Auth.validate_client_input self (PyStr s)
   = (false, lit "Password exceeds maximum length of "
               ++ str_of_nat (Auth.max_password_length self)))
  /\ (length s <= Auth.max_password_length self ->
      In NUL s ->
      Auth.validate_client_input self (PyStr s)
      = (false, lit "Null bytes not allowed in GUI input"))
  /\ (forall c,
        length s <= Auth.max_password_length self ->
        ~ In NUL s ->
        In c Auth.control_chars -> In c s ->
        (forall d, In d Auth.control_chars -> In d s -> (c <= d)%N) ->
        Auth.validate_client_input self (PyStr s)
        = (false, lit "Control character not allowed: "
                    ++ Auth.repr_char c)).
Proof.
  cbn [Auth.validate_client_input]. split; [|split].
  - intros H. apply Nat.ltb_lt in H. now rewrite H.
  - intros Hlen Hnul.
    destruct (Nat.ltb_spec (Auth.max_password_length self) (length s));
      [lia|].
    apply contains_In in Hnul. now rewrite Hnul.
  - intros c Hlen Hnul Hc Hs Hmin.
    destruct (Nat.ltb_spec (Auth.max_password_length self) (length s));
      [lia|].
    apply contains_false in Hnul. rewrite Hnul.
    destruct (Auth.first_blocked Auth.control_chars s) as [c'|] eqn:E.
    + pose proof (first_blocked_least _ _ _ control_chars_sorted E c Hc Hs).
      apply first_blocked_Some in E. destruct E as [Hc' Hs'].
      specialize (Hmin c' Hc' Hs').
      now replace c' with c by (apply N.le_antisymm; assumption).
    + exfalso. now apply (proj1 (first_blocked_None _ _) E c).
Qed.

Lemma validate_reason_witness :
  Auth.validate_client_input Auth.init
    (PyStr (lit "0123456789abcdefg" ++ [NUL]))
  = (false, lit "Password exceeds maximum length of "
              ++ str_of_nat (Auth.max_password_length Auth.init))
  /\ Auth.validate_client_input Auth.init (PyStr (27%N :: NUL :: lit "ab"))
     = (false, lit "Null bytes not allowed in GUI input")
  /\ Auth.validate_client_input Auth.init (PyStr (27%N :: lit "a" ++ [7%N]))
     = (false, lit "Control character not allowed: " ++ Auth.repr_char 7).
Proof.
  split; [|split].
  - apply (proj1 (validate_reason Auth.init
                    (lit "0123456789abcdefg" ++ [NUL]))).
    vm_compute. lia.
  - apply (proj1 (proj2 (validate_reason Auth.init
                           (27%N :: NUL :: lit "ab")))).
    + vm_compute. lia.
    + right. now left.
  - apply (proj2 (proj2 (validate_reason Auth.init
                           (27%N :: lit "a" ++ [7%N]))) 7%N).
    + vm_compute. lia.
    + vm_compute. intros H.
      repeat (destruct H as [H|H]; [discriminate|]). contradiction.
    + vm_compute. auto 10.
    + vm_compute. auto.
    + intros d _ Hd. vm_compute in Hd.
      repeat (destruct Hd as [<-|Hd]; [vm_compute; discriminate|]).
      contradiction.
Defined.

Lemma contains_permutation (c : N) (s t : pystr) :
  Permutation s t -> contains c s = contains c t.
Proof.
  intros H. destruct (contains c t) eqn:E.
  - apply contains_In. apply contains_In in E.
    now apply (Permutation_in c (Permutation_sym H)).
  - apply contains_false. apply contains_false in E. intros Hin.
    apply E. now apply (Permutation_in c H).
Qed.

Lemma first_blocked_permutation (chars : list N) (s t : pystr) :
  Permutation s t ->
  Auth.first_blocked chars s = Auth.first_blocked chars t.
Proof.
  intros H. induction chars as [|c chars IH]; [reflexivity|].
  cbn [Auth.first_blocked]. rewrite (contains_permutation c s t H).
  now rewrite IH.
Qed.

(** X2.  What [validate_client_input] answers, verdict and message, does not
    depend on the order of the characters of the password: a password
    and any rearrangement of it, its reversal among them, get the same
    answer. *)
Theorem validate_permutation_invariant
    (self : Auth.ClientAuthenticationFuzzer) (s t : pystr) :
  Permutation s t ->
  Auth.validate_client_input self (PyStr s)
  = Auth.validate_client_input self (PyStr t).
Proof.
  intros H. cbn [Auth.validate_client_input].
  rewrite (Permutation_length H), (contains_permutation NUL s t H).
  now rewrite (first_blocked_permutation Auth.control_chars s t H).
Qed.

Lemma validate_permutation_invariant_witness :
  Auth.validate_client_input Auth.init (PyStr (lit "ab" ++ [27; 7]%N))
  = Auth.validate_client_input Auth.init
      (PyStr (rev (lit "ab" ++ [27; 7]%N))).
Proof.
  apply validate_permutation_invariant. apply Permutation_rev.
Defined.

(** ** The encoder of the network step *)

Lemma utf8_char_length (c : N) :
  1 <= length (Client.utf8_char c) <= 4.
Proof.
  unfold Client.utf8_char.
  destruct (c <? 128)%N; [cbn; lia|].
  destruct (c <? 2048)%N; [cbn; lia|].
  destruct (c <? 65536)%N; cbn; lia.
Qed.

Lemma encode_from_ok (pos : nat) (s : pystr) :
  existsb is_surrogate s = false ->
  exists bytes, Client.encode_from pos s = inr bytes
                /\ length s <= length bytes <= 4 * length s.
Proof.
  revert pos. induction s as [|c s IH]; intros pos H.
  - exists []. split; [reflexivity | cbn; lia].
  - cbn [existsb] in H. apply orb_false_iff in H. destruct H as [Hc Hs].
    destruct (IH (S pos) Hs) as (bytes & E & Hlen).
    exists (Client.utf8_char c ++ bytes). cbn [Client.encode_from].
    rewrite Hc, E. split; [reflexivity|].
    rewrite length_app. pose proof (utf8_char_length c). cbn [length]. lia.
Qed.

Lemma encode_from_error (pos : nat) (pre post : pystr) (c : N) :
  existsb is_surrogate pre = false ->
  is_surrogate c = true ->
  Client.encode_from pos (pre ++ c :: post)
  = inl (pos + length pre,
         pos + length pre + 1 + Client.surrogate_run post).
Proof.
  revert pos. induction pre as [|d pre IH]; intros pos Hpre Hc.
  - cbn [app Client.encode_from length]. rewrite Hc.
    now rewrite Nat.add_0_r.
  - cbn [existsb] in Hpre. apply orb_false_iff in Hpre.
    destruct Hpre as [Hd Hpre].
    cbn [app Client.encode_from length]. rewrite Hd, (IH (S pos) Hpre Hc).
    do 2 f_equal; lia.
Qed.

(** A string with a surrogate splits at the first one. *)
Lemma first_surrogate (s : pystr) :
  existsb is_surrogate s = true ->
  exists pre c post,
    s = pre ++ c :: post
    /\ existsb is_surrogate pre = false /\ is_surrogate c = true.
Proof.
  induction s as [|d s IH]; [discriminate|]. cbn [existsb].
  destruct (is_surrogate d) eqn:Ed.
  - intros _. now exists [], d, s.
  - cbn [orb]. intros H. destruct (IH H) as (pre & c & post & -> & Hp & Hc).
    exists (d :: pre), c, post. repeat split; [|assumption].
    cbn [existsb]. now rewrite Ed.
Qed.

Lemma encode_surrogate (s : pystr) :
  existsb is_surrogate s = true ->
  exists start stop, Client.encode s = inl (start, stop).
Proof.
  intros H. destruct (first_surrogate s H) as (pre & c & post & -> & Hp & Hc).
  unfold Client.encode. rewrite (encode_from_error 0 pre post c Hp Hc).
  eauto.
Qed.

(** ** The steps of the authentication flow *)

Lemma send_str_ok (self : Client.ClientAuthenticationFuzzer) (s : pystr) :
  existsb is_surrogate s = false ->
  length s <= 2048 ->
  Client.simulate_network_send self (PyStr s)
  = (true, lit "Network send successful").
Proof.
  intros Hs Hlen. unfold Client.simulate_network_send, Client.encode.
  destruct (encode_from_ok 0 s Hs) as (bytes & -> & Hb).
  destruct (N.ltb_spec 8192 (N.of_nat (length bytes))); [lia | reflexivity].
Qed.

Lemma send_surrogate (self : Client.ClientAuthenticationFuzzer)
    (s : pystr) :
  existsb is_surrogate s = true ->
  exists start stop,
    Client.simulate_network_send self (PyStr s)
    = (false, lit "Encoding error: " ++ Client.encode_error_str s start stop).
Proof.
  intros H. destruct (encode_surrogate s H) as (start & stop & E).
  exists start, stop. unfold Client.simulate_network_send. now rewrite E.
Qed.

Lemma validate_fst (self : Client.ClientAuthenticationFuzzer) (v : pyval) :
  fst (Client.validate_client_input self v) = true ->
  exists s, v = PyStr s /\ length s <= Client.max_password_length self
            /\ Client.validate_client_input self v
               = (true, lit "Client validation passed").
Proof.
  unfold Client.validate_client_input.
  set (a := {| Auth.max_password_length := Client.max_password_length self |}).
  intros H.
  destruct (fst (Auth.validate_client_input a v)) eqn:E; [|discriminate].
  destruct v as [| b | z | b | s | l]; try discriminate.
  exists s. split; [reflexivity|].
  cbn [Auth.validate_client_input] in *.
  change (Auth.max_password_length a) with (Client.max_password_length self)
    in *.
  destruct (Nat.ltb_spec (Client.max_password_length self) (length s));
    [discriminate|].
  split; [assumption|].
  destruct (contains NUL s); [discriminate|].
  destruct (Auth.first_blocked Auth.control_chars s); [discriminate|].
  reflexivity.
Qed.

Lemma dialog_accepts (self : Client.ClientAuthenticationFuzzer)
    (v : pyval) :
  fst (Client.validate_client_input self v) = true ->
  Client.simulate_password_dialog self v = (true, lit "Dialog confirmed", v).
Proof.
  intros H. destruct (validate_fst self v H) as (s & -> & _ & E).
  unfold Client.simulate_password_dialog. rewrite E. cbn [negb].
  now destruct (Client.is_empty_str (PyStr s)).
Qed.

Lemma dialog_refuses (self : Client.ClientAuthenticationFuzzer)
    (v : pyval) :
  fst (Client.validate_client_input self v) = false ->
  Client.simulate_password_dialog self v
  = (false, snd (Client.validate_client_input self v), PyNone).
Proof.
  intros H. unfold Client.simulate_password_dialog.
  destruct (Client.validate_client_input self v) as [b m].
  cbn [fst] in H. subst b. reflexivity.
Qed.

Lemma dict_in_get (d : list (pystr * pystr)) (key : pystr) :
  Client.dict_in d key = true <-> exists v, Client.dict_get d key = Some v.
Proof.
  unfold Client.dict_in. destruct (Client.dict_get d key) as [v|].
  - split; eauto.
  - split; [discriminate | now intros [v Hv]].
Qed.

(** The steps after the dialog, for a password that the dialog hands
    on. *)
Lemma flow_accepted (self : Client.ClientAuthenticationFuzzer)
    (s : pystr) (server_response : pyval) :
  fst (Client.validate_client_input self (PyStr s)) = true ->
  existsb is_surrogate s = false ->
  Client.max_password_length self <= 2048 ->
  Client.full_authentication_flow self (PyStr s) server_response
  = match Client.simulate_server_response self (PyStr s) server_response with
    | inl e => inl e
    | inr (response_code, response_message) =>
        if pystr_eqb response_code (lit "OK") then
          inr (true, lit "Authentication successful", PyStr response_code)
        else
          inr (false, lit "Server rejected: " ++ response_message,
               PyStr response_code)
    end.
Proof.
  intros Hv Hs Hmax. unfold Client.full_authentication_flow.
  rewrite (dialog_accepts self _ Hv). cbn [negb].
  destruct (validate_fst self _ Hv) as (s' & [= <-] & Hlen & _).
  rewrite send_str_ok by (assumption || lia). reflexivity.
Qed.

Lemma flow_refused (self : Client.ClientAuthenticationFuzzer)
    (v server_response : pyval) :
  fst (Client.validate_client_input self v) = false ->
  Client.full_authentication_flow self v server_response
  = inr (false,
         lit "Dialog failed: " ++ snd (Client.validate_client_input self v),
         PyNone).
Proof.
  intros H. unfold Client.full_authentication_flow.
  now rewrite (dialog_refuses self v H).
Qed.

Lemma flow_surrogate (self : Client.ClientAuthenticationFuzzer)
    (s : pystr) (server_response : pyval) :
  fst (Client.validate_client_input self (PyStr s)) = true ->
  existsb is_surrogate s = true ->
  exists start stop,
    Client.full_authentication_flow self (PyStr s) server_response
    = inr (false,
           lit "Network failed: " ++ lit "Encoding error: "
           ++ Client.encode_error_str s start stop,
           PyNone).
Proof.
  intros Hv Hs. destruct (send_surrogate self s Hs) as (start & stop & E).
  exists start, stop. unfold Client.full_authentication_flow.
  rewrite (dialog_accepts self _ Hv). cbn [negb]. now rewrite E.
Qed.

Lemma response_cases (self : Client.ClientAuthenticationFuzzer)
    (password response_type : pyval) (code msg : pystr) :
  Client.simulate_server_response self password response_type
  = inr (code, msg) ->
  Client.dict_get (Client.server_responses self) code = Some msg
  /\ ((response_type = PyStr code
       /\ Client.dict_in (Client.server_responses self) code = true)
      \/ (code = lit "ERROR"
          /\ forall r, response_type = PyStr r ->
                       Client.dict_in (Client.server_responses self) r
                       = false)).
Proof.
  unfold Client.simulate_server_response.
  destruct response_type as [| b | z | b | r | l]; try discriminate.
  5:{ destruct (Client.dict_in (Client.server_responses self) r) eqn:Ein;
      cbn [negb].
      - destruct (Client.dict_get (Client.server_responses self) r)
          as [m|] eqn:Eg; [|discriminate].
        intros [= <- <-]. split; [assumption|]. left. now split.
      - destruct (Client.dict_get (Client.server_responses self)
                    (lit "ERROR")) as [m|] eqn:Eg; [|discriminate].
        intros [= <- <-]. split; [assumption|]. right.
        split; [reflexivity|]. now intros r' [= <-]. }
  all: destruct (Client.dict_get (Client.server_responses self)
                   (lit "ERROR")) as [m|] eqn:Eg; [|discriminate];
    intros [= <- <-]; (split; [assumption|]); right;
    (split; [reflexivity | discriminate]).
Qed.

(** ** The authentication flow *)

(** X3.  [simulate_network_send] by size: a password without surrogates
    of at most 2048 characters is sent, since a character takes at most
    four bytes; one of more than 8192 characters is not, since a
    character takes at least one. *)
Theorem network_send_size (self : Client.ClientAuthenticationFuzzer)
    (s : pystr) :
  (existsb is_surrogate s = false ->
   length s <= 2048 ->
   Client.simulate_network_send self (PyStr s)
   = (true, lit "Network send successful"))
  /\ ((8192 < N.of_nat (length s))%N ->
      fst (Client.simulate_network_send self (PyStr s)) = false).
Proof.
  split; [apply send_str_ok|]. intros Hlen.
  destruct (existsb is_surrogate s) eqn:Hs.
  - destruct (send_surrogate self s Hs) as (start & stop & ->). reflexivity.
  - unfold Client.simulate_network_send, Client.encode.
    destruct (encode_from_ok 0 s Hs) as (bytes & -> & Hb).
    destruct (N.ltb_spec 8192 (N.of_nat (length bytes)));
      [reflexivity | lia].
Qed.

Lemma network_send_size_witness :
  Client.simulate_network_send Client.init (PyStr (lit "admin"))
  = (true, lit "Network send successful")
  /\ fst (Client.simulate_network_send Client.init
            (PyStr (repeat 65%N (N.to_nat 8193)))) = false.
Proof.
  split.
  - apply (proj1 (network_send_size Client.init (lit "admin")));
      [reflexivity | vm_compute; lia].
  - apply (proj2 (network_send_size Client.init
                    (repeat 65%N (N.to_nat 8193)))).
    rewrite repeat_length. reflexivity.
Defined.

(** X4.  The answer of [simulate_network_send] to a password with a lone
    surrogate names the character and its position: the number of
    characters before the first surrogate. *)
Theorem network_send_encoding_error
    (self : Client.ClientAuthenticationFuzzer) (pre post : pystr) (c : N) :
  existsb is_surrogate pre = false ->
  is_surrogate c = true ->
  Client.surrogate_run post = 0 ->
  Client.simulate_network_send self (PyStr (pre ++ c :: post))
  = (false,
     lit "Encoding error: 'utf-8' codec can't encode character '\u"
     ++ Client.hex4 c ++ lit "' in position " ++ str_of_nat (length pre)
     ++ lit ": surrogates not allowed").
Proof.
  intros Hpre Hc Hpost. unfold Client.simulate_network_send, Client.encode.
  rewrite (encode_from_error 0 pre post c Hpre Hc), Hpost.
  cbn [Nat.add]. unfold Client.encode_error_str.
  replace (length pre + 1 + 0 =? length pre + 1) with true
    by (symmetry; apply Nat.eqb_eq; lia).
  rewrite nth_middle. reflexivity.
Qed.

Lemma network_send_encoding_error_witness :
  Client.simulate_network_send Client.init
    (PyStr (lit "ab" ++ 56575%N :: lit "c"))
  = (false,
     lit "Encoding error: 'utf-8' codec can't encode character '\udcff'"
     ++ lit " in position 2: surrogates not allowed").
Proof.
  exact (network_send_encoding_error Client.init (lit "ab") (lit "c")
           56575%N eq_refl eq_refl eq_refl).
Defined.



Lemma ok_not_error : pystr_eqb (lit "ERROR") (lit "OK") = false.
Proof. reflexivity. Qed.

(** X6.  The flow succeeds exactly for a string that the validator accepts,
    that holds no surrogate, with the server answer ["OK"] (a key of
    the table); the result then is the triple of [True], the success
    message and ["OK"]. *)
Theorem flow_succeeds_iff (self : Client.ClientAuthenticationFuzzer)
    (password server_response : pyval) :
  Client.max_password_length self <= 2048 ->
  ((exists m c,
      Client.full_authentication_flow self password server_response
      = inr (true, m, c))
   <-> (exists s,
          password = PyStr s
          /\ fst (Client.validate_client_input self password) = true
          /\ existsb is_surrogate s = false
          /\ server_response = PyStr (lit "OK")
          /\ Client.dict_in (Client.server_responses self) (lit "OK")
             = true))
  /\ forall m c,
       Client.full_authentication_flow self password server_response
       = inr (true, m, c) ->
       m = lit "Authentication successful" /\ c = PyStr (lit "OK").
Proof.
  intros Hmax.
  assert (Hfwd : forall m c,
             Client.full_authentication_flow self password server_response
             = inr (true, m, c) ->
             (exists s,
                 password = PyStr s
                 /\ fst (Client.validate_client_input self password) = true
                 /\ existsb is_surrogate s = false
                 /\ server_response = PyStr (lit "OK")
                 /\ Client.dict_in (Client.server_responses self) (lit "OK")
                    = true)
             /\ m = lit "Authentication successful"
             /\ c = PyStr (lit "OK")).
  { intros m c H.
    destruct (fst (Client.validate_client_input self password)) eqn:Hv.
    2:{ rewrite (flow_refused self _ _ Hv) in H. discriminate. }
    destruct (validate_fst self _ Hv) as (s & -> & _ & _).
    destruct (existsb is_surrogate s) eqn:Hs.
    { destruct (flow_surrogate self s server_response Hv Hs)
        as (start & stop & E). rewrite E in H. discriminate. }
    rewrite (flow_accepted self s _ Hv Hs Hmax) in H.
    destruct (Client.simulate_server_response self (PyStr s)
                server_response) as [e|[code msg]] eqn:Er; [discriminate|].
    destruct (pystr_eqb code (lit "OK")) eqn:Ec; [|discriminate].
    apply pystr_eqb_eq in Ec. subst code. injection H as <- <-.
    destruct (response_cases self _ _ _ _ Er) as [_ [[-> Hin]|[E _]]];
      [|discriminate].
    split; [|now split]. exists s. now repeat split. }
  split; [split|].
  - intros (m & c & H). now destruct (Hfwd m c H).
  - intros (s & -> & Hv & Hs & -> & Hin).
    exists (lit "Authentication successful"), (PyStr (lit "OK")).
    rewrite (flow_accepted self s _ Hv Hs Hmax).
    unfold Client.simulate_server_response. rewrite Hin. cbn [negb].
    apply dict_in_get in Hin. destruct Hin as [v ->]. reflexivity.
  - intros m c H. now destruct (Hfwd m c H).
Qed.

Lemma flow_succeeds_iff_witness :
  ((exists m c,
      Client.full_authentication_flow Client.init (PyStr (lit "admin"))
        Client.default_server_response
      = inr (true, m, c))
   <-> (exists s,
          PyStr (lit "admin") = PyStr s
          /\ fst (Client.validate_client_input Client.init
                    (PyStr (lit "admin"))) = true
          /\ existsb is_surrogate s = false
          /\ Client.default_server_response = PyStr (lit "OK")
          /\ Client.dict_in (Client.server_responses Client.init) (lit "OK")
             = true))
  /\ forall m c,
       Client.full_authentication_flow Client.init (PyStr (lit "admin"))
         Client.default_server_response
       = inr (true, m, c) ->
       m = lit "Authentication successful" /\ c = PyStr (lit "OK").
Proof.
  apply (flow_succeeds_iff Client.init (PyStr (lit "admin"))
           Client.default_server_response).
  vm_compute. lia.
Defined.



(** X8.  A server answer that is no key of the table, whether an unknown
    string or a value of another hashable type, is handled as
    ["ERROR"]: the flow rejects with the message the table holds for
    it. *)
Theorem flow_unknown_response (self : Client.ClientAuthenticationFuzzer)
    (s : pystr) (server_response : pyval) (msg : pystr) :
  Client.max_password_length self <= 2048 ->
  fst (Client.validate_client_input self (PyStr s)) = true ->
  existsb is_surrogate s = false ->
  (forall l, server_response <> PyList l) ->
  (forall r, server_response = PyStr r ->
             Client.dict_in (Client.server_responses self) r = false) ->
  Client.dict_get (Client.server_responses self) (lit "ERROR") = Some msg ->
  Client.full_authentication_flow self (PyStr s) server_response
  = inr (false, lit "Server rejected: " ++ msg, PyStr (lit "ERROR")).
Proof.
  intros Hmax Hv Hs Hlist Hkey Herr.
  rewrite (flow_accepted self s _ Hv Hs Hmax).
  assert (E : Client.simulate_server_response self (PyStr s) server_response
              = inr (lit "ERROR", msg)).
  { unfold Client.simulate_server_response.
    destruct server_response as [| b | z | b | r | l];
      rewrite ?(Hkey _ eq_refl); cbn [negb]; rewrite ?Herr;
      try reflexivity.
    now contradiction (Hlist l). }
  rewrite E. now rewrite ok_not_error.
Qed.

Lemma flow_unknown_response_witness :
  Client.full_authentication_flow Client.init (PyStr (lit "admin")) PyNone
  = inr (false, lit "Server rejected: " ++ lit "Server error",
         PyStr (lit "ERROR")).
Proof.
  apply flow_unknown_response;
    try reflexivity; try discriminate.
  vm_compute. lia.
Defined.

(** X9.  The flow raises only in its last step and only for a password
    that reached it: with a table that holds ["ERROR"], exactly when
    the password passes the dialog and the network step and the server
    answer is a list, which is no dictionary key. *)
Theorem flow_raises_iff (self : Client.ClientAuthenticationFuzzer)
    (password server_response : pyval) (e : Client.error) :
  Client.max_password_length self <= 2048 ->
  Client.dict_in (Client.server_responses self) (lit "ERROR") = true ->
  Client.full_authentication_flow self password server_response = inl e
  <-> (e = Client.Unhashable
       /\ (exists l, server_response = PyList l)
       /\ exists s, password = PyStr s
                    /\ fst (Client.validate_client_input self password)
                       = true
                    /\ existsb is_surrogate s = false).
Proof.
  intros Hmax Herr. split.
  - intros H.
    destruct (fst (Client.validate_client_input self password)) eqn:Hv.
    2:{ rewrite (flow_refused self _ _ Hv) in H. discriminate. }
    destruct (validate_fst self _ Hv) as (s & -> & _ & _).
    destruct (existsb is_surrogate s) eqn:Hs.
    { destruct (flow_surrogate self s server_response Hv Hs)
        as (start & stop & E). rewrite E in H. discriminate. }
    rewrite (flow_accepted self s _ Hv Hs Hmax) in H.
    apply dict_in_get in Herr. destruct Herr as [msg Herr].
    unfold Client.simulate_server_response in H.
    destruct server_response as [| b | z | b | r | l];
      rewrite ?Herr in H; try (rewrite ?ok_not_error in H; discriminate).
    + destruct (Client.dict_in (Client.server_responses self) r) eqn:Ein;
        cbn [negb] in H.
      * apply dict_in_get in Ein. destruct Ein as [v Ein].
        rewrite Ein in H. destruct (pystr_eqb r (lit "OK")); discriminate.
      * rewrite Herr, ok_not_error in H. discriminate.
    + injection H as <-. split; [reflexivity|]. split; [now exists l|].
      exists s. now repeat split.
  - intros (-> & [l ->] & s & -> & Hv & Hs).
    now rewrite (flow_accepted self s _ Hv Hs Hmax).
Qed.

Lemma flow_raises_iff_witness :
  Client.full_authentication_flow Client.init (PyStr (lit "admin"))
    (PyList [])
  = inl Client.Unhashable
  <-> (Client.Unhashable = Client.Unhashable
       /\ (exists l, PyList [] = PyList l)
       /\ exists s, PyStr (lit "admin") = PyStr s
                    /\ fst (Client.validate_client_input Client.init
                              (PyStr (lit "admin"))) = true
                    /\ existsb is_surrogate s = false).
Proof.
  apply flow_raises_iff.
  - vm_compute. lia.
  - reflexivity.
Defined.

(** ** The oracle of the fuzzing tests *)

Lemma existsb_ext {A : Type} (P Q : A -> bool) (l : list A) :
  (forall x, In x l -> P x = Q x) -> existsb P l = existsb Q l.
Proof.
  induction l as [|x l IH]; intros H; [reflexivity|]. cbn [existsb].
  rewrite (H x) by now left. rewrite IH; [reflexivity|].
  intros y Hy. apply H. now right.
Qed.

Lemma below_32 (c : N) :
  (c < 32)%N -> In c (map N.of_nat (seq 0 32)).
Proof.
  intros H. apply in_map_iff. exists (N.to_nat c). split.
  - apply N2Nat.id.
  - apply in_seq. lia.
Qed.

(** The characters the oracle counts as bad are the null, the listed
    control characters and the vertical tab. *)
Lemma oracle_bad_char (c : N) :
  (c <? 32)%N && negb (existsb (N.eqb c) [9; 10; 13; 12]%N)
  = N.eqb c NUL || existsb (N.eqb c) Auth.control_chars || N.eqb c 11%N.
Proof.
  destruct (N.ltb_spec c 32) as [H|H].
  - apply below_32 in H. vm_compute in H.
    repeat (destruct H as [<-|H]; [reflexivity|]). contradiction.
  - cbn [andb]. symmetry.
    repeat (apply orb_false_iff; split); try (apply N.eqb_neq; unfold NUL; lia).
    destruct (existsb (N.eqb c) Auth.control_chars) eqn:E; [|reflexivity].
    apply existsb_exists in E. destruct E as (x & Hx & Ex).
    apply N.eqb_eq in Ex. subst x. exfalso. revert Hx.
    unfold Auth.control_chars. cbn [In]. intuition lia.
Qed.

Lemma first_blocked_existsb (s : pystr) :
  (match Auth.first_blocked Auth.control_chars s with
   | Some _ => true
   | None => false
   end)
  = existsb (fun c => existsb (N.eqb c) Auth.control_chars) s.
Proof.
  destruct (Auth.first_blocked Auth.control_chars s) as [c|] eqn:E.
  - apply first_blocked_Some in E. destruct E as [Hc Hs]. symmetry.
    apply existsb_exists. exists c. split; [assumption|].
    apply existsb_exists. exists c. split; [assumption | apply N.eqb_refl].
  - symmetry.
    destruct (existsb (fun c => existsb (N.eqb c) Auth.control_chars) s)
      eqn:E'; [|reflexivity].
    apply existsb_exists in E'. destruct E' as (c & Hs & Hc).
    apply existsb_exists in Hc. destruct Hc as (x & Hx & Ex).
    apply N.eqb_eq in Ex. subst x. exfalso.
    now apply (proj1 (first_blocked_None _ _) E c).
Qed.

(** The verdict of the validator as a boolean expression. *)
Lemma validate_verdict (self : Client.ClientAuthenticationFuzzer)
    (s : pystr) :
  fst (Client.validate_client_input self (PyStr s))
  = (length s <=? Client.max_password_length self)
    && negb (contains NUL s)
    && negb (existsb (fun c => existsb (N.eqb c) Auth.control_chars) s).
Proof.
  unfold Client.validate_client_input. cbn [Auth.validate_client_input].
  cbn [Auth.max_password_length]. rewrite <- first_blocked_existsb.
  rewrite Nat.leb_antisym.
  destruct (Client.max_password_length self <? length s); [reflexivity|].
  destruct (contains NUL s); [reflexivity|].
  now destruct (Auth.first_blocked Auth.control_chars s).
Qed.

(** X10.  The oracle of the tests and the validator agree on every string
    without a vertical tab; a string with one is never valid for the
    oracle, while the validator does not look at that character. *)
Theorem oracle_agrees (s : pystr) :
  (~ In 11%N s ->
   fst (Client.validate_client_input Client.init (PyStr s))
   = Client.expected_valid s)
  /\ (In 11%N s -> Client.expected_valid s = false)
  /\ (Client.expected_valid s = true ->
      fst (Client.validate_client_input Client.init (PyStr s)) = true).
Proof.
  assert (Hagree : ~ In 11%N s ->
            fst (Client.validate_client_input Client.init (PyStr s))
            = Client.expected_valid s).
  { intros Hvt. rewrite validate_verdict. unfold Client.expected_valid.
    change (Client.max_password_length Client.init) with 16.
    destruct (length s <=? 16); [|reflexivity].
    destruct (contains NUL s) eqn:En; [reflexivity|]. cbn [andb negb].
    f_equal. apply existsb_ext. intros c Hc. rewrite oracle_bad_char.
    assert (E0 : N.eqb c NUL = false).
    { apply N.eqb_neq. intros ->. apply contains_false in En.
      contradiction. }
    assert (E11 : N.eqb c 11 = false).
    { apply N.eqb_neq. intros ->. contradiction. }
    rewrite E0, E11. now rewrite orb_false_r. }
  assert (Hvt : In 11%N s -> Client.expected_valid s = false).
  { intros Hin. unfold Client.expected_valid.
    assert (E : existsb
                  (fun c => (c <? 32)%N
                            && negb (existsb (N.eqb c) [9; 10; 13; 12]%N))
                  s = true).
    { apply existsb_exists. now exists 11%N. }
    rewrite E. apply andb_false_r. }
  split; [assumption|]. split; [assumption|].
  intros H. rewrite Hagree; [assumption|].
  intros Hin. rewrite (Hvt Hin) in H. discriminate.
Qed.

Lemma oracle_agrees_witness :
  fst (Client.validate_client_input Client.init (PyStr (lit "adm" ++ [9%N])))
  = Client.expected_valid (lit "adm" ++ [9%N])
  /\ Client.expected_valid (lit "adm" ++ [11%N]) = false
  /\ fst (Client.validate_client_input Client.init (PyStr (lit "admin")))
     = true.
Proof.
  split; [|split].
  - apply (proj1 (oracle_agrees (lit "adm" ++ [9%N]))).
    cbn. intuition discriminate.
  - apply (proj1 (proj2 (oracle_agrees (lit "adm" ++ [11%N])))).
    cbn. auto.
  - apply (proj2 (proj2 (oracle_agrees (lit "admin")))). reflexivity.
Defined.

(** X11.  [test_combined_attack_fuzzing] passes on every input of its
    strategy: the first injected character stands within the first
    twenty characters and the validator refuses it, so the flow fails
    as the test expects. *)
Theorem combined_attack_test_passes (segment : pystr)
    (text_segments : list pystr) (c : N) (injection_chars : list N) :
  length segment <= 19 ->
  In c [0; 1; 2; 7; 8; 27]%N ->
  Client.test_combined_attack_fuzzing Client.init
    (segment :: text_segments) (c :: injection_chars)
  = inr true.
Proof.
  intros Hlen Hc. unfold Client.test_combined_attack_fuzzing.
  cbn [Client.combine_from nth_error].
  set (tail := Client.combine_from 1 text_segments (c :: injection_chars)).
  set (test_password := firstn 20 (segment ++ [c] ++ tail)).
  assert (Hin : In c test_password).
  { unfold test_password. rewrite firstn_app. apply in_or_app. right.
    destruct (20 - length segment) as [|k] eqn:E; [lia|]. now left. }
  assert (Hv : fst (Client.validate_client_input Client.init
                      (PyStr test_password)) = false).
  { rewrite validate_verdict.
    destruct (N.eq_dec c NUL) as [->|Hnul].
    - apply contains_In in Hin. rewrite Hin. cbn [negb].
      now rewrite andb_false_r.
    - assert (E : existsb
                    (fun c => existsb (N.eqb c) Auth.control_chars)
                    test_password = true).
      { apply existsb_exists. exists c. split; [assumption|].
        cbn [In] in Hc.
        destruct Hc as [<-|[<-|[<-|[<-|[<-|[<-|[]]]]]]];
          try reflexivity. now contradiction Hnul. }
      rewrite E. apply andb_false_r. }
  rewrite (flow_refused Client.init _ _ Hv). cbn [negb].
  now destruct (_ || _).
Qed.

Lemma combined_attack_test_passes_witness :
  Client.test_combined_attack_fuzzing Client.init
    [lit "pass"; lit "word"] [27%N; 0%N]
  = inr true.
Proof.
  apply combined_attack_test_passes.
  - cbn. lia.
  - cbn. auto 10.
Defined.

(** ** The failure report of the stress test *)

Lemma append_capped_length (key : Report.category)
    (entry : Report.failure_case) (categories : Report.failure_categories)
    (k : Report.category) :
  length (categories k) <= 5 ->
  length (Report.append_capped key entry categories k) <= 5.
Proof.
  intros H. unfold Report.append_capped.
  destruct (Nat.ltb_spec (length (categories key)) 5) as [Hlt|Hge];
    [|assumption].
  destruct (Report.category_eqb k key) eqn:E; [|assumption].
  assert (k = key) by (destruct k, key; (reflexivity || discriminate)).
  subst k. rewrite length_app. cbn [length]. lia.
Qed.

Lemma append_capped_other (key : Report.category)
    (entry : Report.failure_case) (categories : Report.failure_categories)
    (k : Report.category) :
  k <> key -> Report.append_capped key entry categories k = categories k.
Proof.
  intros H. unfold Report.append_capped.
  destruct (length (categories key) <? 5); [|reflexivity].
  destruct (Report.category_eqb k key) eqn:E; [|reflexivity].
  exfalso. apply H. destruct k, key; (reflexivity || discriminate).
Qed.

Lemma append_capped_key (key : Report.category)
    (entry : Report.failure_case) (categories : Report.failure_categories) :
  Report.append_capped key entry categories key
  = if length (categories key) <? 5 then categories key ++ [entry]
    else categories key.
Proof.
  unfold Report.append_capped.
  destruct (length (categories key) <? 5); [|reflexivity].
  now destruct key.
Qed.

(** [_categorize_failure] files the case under one key, never under
    [exceptions]. *)
Lemma categorize_failure_key (lower : pystr -> pystr)
    (password message : pystr) (categories : Report.failure_categories) :
  exists key,
    key <> Report.exceptions
    /\ Report.categorize_failure lower password message categories
       = Report.append_capped key (Report.entry_of key password message)
           categories.
Proof.
  unfold Report.categorize_failure.
  destruct (Report.is_infix _ message);
    [exists Report.length_exceeded; now split|].
  destruct (Report.is_infix (lit "null") _);
    [exists Report.null_byte; now split|].
  destruct (Report.is_infix (lit "control character") _);
    [exists Report.control_chars; now split|].
  destruct (Report.is_infix (lit "network") _);
    [exists Report.network_errors; now split|].
  destruct (Report.is_infix (lit "validation") _);
    [exists Report.validation_errors; now split|].
  exists Report.unexpected. now split.
Qed.

(** X12.  One call of [_categorize_failure] changes at most one list of the
    report, by one entry at its end and only while the list holds fewer
    than five; lists of at most five entries stay so, and the list of
    [exceptions] is never touched. *)
Theorem categorize_failure_capped (lower : pystr -> pystr)
    (password message : pystr) (categories : Report.failure_categories) :
  (forall k, length (categories k) <= 5) ->
  (forall k,
     length (Report.categorize_failure lower password message categories k)
     <= 5)
  /\ Report.categorize_failure lower password message categories
       Report.exceptions
     = categories Report.exceptions
  /\ exists key,
       (forall k, k <> key ->
          Report.categorize_failure lower password message categories k
          = categories k)
       /\ Report.categorize_failure lower password message categories key
          = if length (categories key) <? 5
            then categories key
                 ++ [Report.entry_of key password message]
            else categories key.
Proof.
  intros Hcap.
  destruct (categorize_failure_key lower password message categories)
    as (key & Hkey & ->).
  split; [|split].
  - intros k. now apply append_capped_length.
  - apply append_capped_other. congruence.
  - exists key. split.
    + intros k Hk. now apply append_capped_other.
    + apply append_capped_key.
Qed.

Lemma categorize_failure_capped_witness :
  (forall k,
     length (Report.categorize_failure (map Report.ascii_lower)
               (lit "admin" ++ [NUL])
               (lit "Dialog failed: Null bytes not allowed in GUI input")
               (fun _ => []) k)
     <= 5)
  /\ Report.categorize_failure (map Report.ascii_lower)
       (lit "admin" ++ [NUL])
       (lit "Dialog failed: Null bytes not allowed in GUI input")
       (fun _ => []) Report.exceptions
     = []
  /\ exists key,
       (forall k, k <> key ->
          Report.categorize_failure (map Report.ascii_lower)
            (lit "admin" ++ [NUL])
            (lit "Dialog failed: Null bytes not allowed in GUI input")
            (fun _ => []) k
          = [])
       /\ Report.categorize_failure (map Report.ascii_lower)
            (lit "admin" ++ [NUL])
            (lit "Dialog failed: Null bytes not allowed in GUI input")
            (fun _ => []) key
          = if length (@nil Report.failure_case) <? 5
            then []
                 ++ [Report.entry_of key (lit "admin" ++ [NUL])
                       (lit "Dialog failed: "
                        ++ lit "Null bytes not allowed in GUI input")]
            else [].
Proof.
  apply (categorize_failure_capped (map Report.ascii_lower)
           (lit "admin" ++ [NUL])
           (lit "Dialog failed: Null bytes not allowed in GUI input")
           (fun _ => [])).
  intros k. cbn. lia.
Defined.

(** For an ASCII message the key is the one computed with the ASCII
    lower case. *)
Lemma categorize_failure_ascii (lower : pystr -> pystr)
    (password message : pystr) (categories : Report.failure_categories) :
  (forall s, Report.is_ascii s = true -> lower s = map Report.ascii_lower s) ->
  Report.is_ascii message = true ->
  Report.categorize_failure lower password message categories
  = Report.append_capped (Report.key_of message)
      (Report.entry_of (Report.key_of message) password message) categories.
Proof.
  intros Hlower Hascii. unfold Report.categorize_failure, Report.key_of.
  rewrite (Hlower message Hascii). cbv zeta.
  destruct (Report.is_infix _ message); [reflexivity|].
  destruct (Report.is_infix (lit "null") _); [reflexivity|].
  destruct (Report.is_infix (lit "control character") _); [reflexivity|].
  destruct (Report.is_infix (lit "network") _); [reflexivity|].
  destruct (Report.is_infix (lit "validation") _); reflexivity.
Qed.

(** The message of the flow for a refused string, and its key. *)
Lemma refused_message_key (s : pystr) :
  fst (Client.validate_client_input Client.init (PyStr s)) = false ->
  let m := lit "Dialog failed: "
           ++ snd (Client.validate_client_input Client.init (PyStr s)) in
  Report.is_ascii m = true
  /\ Report.key_of m
     = if 16 <? length s then Report.length_exceeded
       else if contains NUL s then Report.null_byte
       else Report.control_chars.
Proof.
  unfold Client.validate_client_input. cbn [Auth.validate_client_input].
  change (Auth.max_password_length _) with 16.
  destruct (16 <? length s); [intros _; split; reflexivity|].
  destruct (contains NUL s); [intros _; split; reflexivity|].
  destruct (Auth.first_blocked Auth.control_chars s) as [c|] eqn:E;
    [|discriminate].
  intros _. apply first_blocked_Some in E. destruct E as [Hc _].
  unfold Auth.control_chars in Hc. cbn [In] in Hc. cbn [snd].
  repeat (destruct Hc as [<-|Hc]; [split; reflexivity|]). contradiction.
Qed.

(** X13.  Where the failures of the flow go in the report, for a string
    password without surrogates and the table of [__init__]: a refusal
    of the validator is filed by its reason under [length_exceeded],
    [null_byte] or [control_chars], a rejection by the server under
    [unexpected]; nothing is filed under [network_errors] or
    [validation_errors]. *)
Theorem categorize_flow_failure (lower : pystr -> pystr) (s : pystr)
    (server_response : pyval) (m : pystr) (c : pyval)
    (categories : Report.failure_categories) :
  (forall t, Report.is_ascii t = true -> lower t = map Report.ascii_lower t) ->
  existsb is_surrogate s = false ->
  Client.full_authentication_flow Client.init (PyStr s) server_response
  = inr (false, m, c) ->
  let key :=
    if 16 <? length s then Report.length_exceeded
    else if contains NUL s then Report.null_byte
    else match Auth.first_blocked Auth.control_chars s with
         | Some _ => Report.control_chars
         | None => Report.unexpected
         end in
  Report.categorize_failure lower s m categories
  = Report.append_capped key (Report.entry_of key s m) categories.
Proof.
  intros Hlower Hs H.
  destruct (fst (Client.validate_client_input Client.init (PyStr s)))
    eqn:Hv.
  - (* the server rejects *)
    assert (Hmax : Client.max_password_length Client.init <= 2048)
      by (vm_compute; lia).
    rewrite (flow_accepted Client.init s _ Hv Hs Hmax) in H.
    pose proof Hv as Hv'. rewrite validate_verdict in Hv'.
    change (Client.max_password_length Client.init) with 16 in Hv'.
    apply andb_true_iff in Hv'. destruct Hv' as [Hv' Hb].
    apply andb_true_iff in Hv'. destruct Hv' as [Hl Hn].
    rewrite Nat.leb_antisym in Hl. apply negb_true_iff in Hl, Hn, Hb.
    rewrite <- first_blocked_existsb in Hb. rewrite Hl, Hn.
    destruct (Auth.first_blocked Auth.control_chars s); [discriminate|].
    cbv zeta.
    assert (Hm : Report.is_ascii m = true
                 /\ Report.key_of m = Report.unexpected).
    { unfold Client.simulate_server_response in H.
      change (Client.server_responses Client.init)
        with [ (lit "OK", lit "Authentication successful");
               (lit "FAIL", lit "Authentication failed");
               (lit "ERROR", lit "Server error");
               (lit "TIMEOUT", lit "Connection timeout") ] in H.
      destruct server_response as [| b | z | b | r | l];
        try (injection H as <- _; split; reflexivity);
        [|discriminate].
      unfold Client.dict_in in H. cbn [Client.dict_get] in H.
      destruct (pystr_eqb (lit "OK") r) eqn:E1.
      { apply pystr_eqb_eq in E1. subst r. discriminate. }
      destruct (pystr_eqb (lit "FAIL") r) eqn:E2.
      { apply pystr_eqb_eq in E2. subst r.
        injection H as <- _. split; reflexivity. }
      destruct (pystr_eqb (lit "ERROR") r) eqn:E3.
      { apply pystr_eqb_eq in E3. subst r.
        injection H as <- _. split; reflexivity. }
      destruct (pystr_eqb (lit "TIMEOUT") r) eqn:E4.
      { apply pystr_eqb_eq in E4. subst r.
        injection H as <- _. split; reflexivity. }
      cbn [negb] in H. injection H as <- _. split; reflexivity. }
    destruct Hm as [Hascii Hkey].
    rewrite (categorize_failure_ascii lower s m categories Hlower Hascii).
    now rewrite Hkey.
  - rewrite (flow_refused Client.init _ _ Hv) in H.
    assert (E : m = lit "Dialog failed: "
                    ++ snd (Client.validate_client_input Client.init
                              (PyStr s))) by congruence.
    subst m. clear H.
    destruct (refused_message_key s Hv) as [Hascii Hkey].
    rewrite (categorize_failure_ascii lower s _ categories Hlower Hascii).
    rewrite Hkey. cbv zeta.
    destruct (16 <? length s) eqn:Hl; [reflexivity|].
    destruct (contains NUL s) eqn:Hn; [reflexivity|].
    destruct (Auth.first_blocked Auth.control_chars s) eqn:E;
      [reflexivity|].
    exfalso. rewrite validate_verdict in Hv.
    change (Client.max_password_length Client.init) with 16 in Hv.
    rewrite Nat.leb_antisym, Hl, Hn, <- first_blocked_existsb, E in Hv.
    discriminate.
Qed.

Lemma categorize_flow_failure_witness :
  Report.categorize_failure (map Report.ascii_lower)
    (lit "adm" ++ [7%N])
    (lit "Dialog failed: Control character not allowed: '\x07'")
    (fun _ => [])
  = Report.append_capped Report.control_chars
      (Report.entry_of Report.control_chars (lit "adm" ++ [7%N])
         (lit "Dialog failed: Control character not allowed: '\x07'"))
      (fun _ => []).
Proof.
  exact (categorize_flow_failure (map Report.ascii_lower)
           (lit "adm" ++ [7%N]) Client.default_server_response
           (lit "Dialog failed: Control character not allowed: '\x07'")
           PyNone (fun _ => []) (fun t _ => eq_refl) eq_refl eq_refl).
Defined.

(** ** The prefix test of [is_path_allowed] *)

Lemma print_ok (env : Env) (s : pystr) :
  print env [PyStr s] = Ok tt <-> printable env s = true.
Proof.
  split; [|apply print_printable].
  unfold print, printable. cbn [first_error format_error forallb encodable].
  rewrite andb_true_r.
  destruct (stdout_strict env); cbn [negb orb andb]; [|reflexivity].
  destruct (existsb is_surrogate s); [discriminate | reflexivity].
Qed.

Lemma print_encodable (env : Env) (values : list pyval) :
  first_error env values = None ->
  forallb encodable values = true -> print env values = Ok tt.
Proof.
  intros Hf H. unfold print. rewrite Hf, H. cbn [negb].
  now rewrite andb_false_r.
Qed.

Lemma print_cases (env : Env) (s : pystr) :
  print env [PyStr s] = Ok tt
  \/ print env [PyStr s] = Raise UnicodeEncodeError.
Proof.
  unfold print. cbn [first_error format_error].
  destruct (stdout_strict env && negb (forallb encodable [PyStr s])); auto.
Qed.

(** [is_path_allowed] in terms of what its first steps return. *)
Lemma is_path_allowed_canonical (env : Env)
    (self : FilePathRestrictionsFuzzer) (p q : pystr) :
  canonicalize_cpp env p = Ok q ->
  is_path_allowed env self (PyStr p) = is_path_allowed env self (PyStr q).
Proof.
  intros H. unfold is_path_allowed. rewrite H.
  now rewrite (canonicalize_cpp_fixed env q (canonicalize_cpp_abs env p q H)).
Qed.

(** What an acceptance of an absolute candidate tells. *)
Lemma is_path_allowed_true (env : Env)
    (self : FilePathRestrictionsFuzzer) (p : pystr) :
  posixpath.isabs p = true ->
  is_path_allowed env self (PyStr p) = Ok true <->
  startswith p (cpp_root env self) = true
  /\ printable env p = true /\ printable env (cpp_root env self) = true.
Proof.
  intros Habs. unfold is_path_allowed.
  rewrite (canonicalize_cpp_fixed env p Habs). cbv zeta.
  fold (cpp_root env self). unfold is_path_allowed_except.
  rewrite print_nothing.
  destruct (startswith p (cpp_root env self)) eqn:Es.
  - pose proof (startswith_length _ _ Es) as Hl.
    apply Nat.leb_le in Hl. rewrite Hl. cbn [andb].
    destruct (print_cases env p) as [Ep|Ep]; rewrite Ep;
      cbn [bind try_except].
    + destruct (print_cases env (cpp_root env self)) as [Er|Er];
        rewrite Er; cbn [bind try_except].
      * apply print_ok in Ep, Er. now split.
      * split; [discriminate|]. intros (_ & _ & H).
        apply print_ok in H. congruence.
    + split; [discriminate|]. intros (_ & H & _).
      apply print_ok in H. congruence.
  - rewrite andb_false_r.
    destruct (print_cases env p) as [Ep|Ep]; rewrite Ep;
      cbn [bind try_except]; split; try discriminate;
      now intros [H _].
Qed.

(** X14.  Acceptance by [is_path_allowed] is kept by everything that the
    accepted absolute candidate is a prefix of: whatever is appended,
    a traversal included, cannot turn the answer into a refusal. *)
Theorem cpp_accepts_extensions (env : Env)
    (self : FilePathRestrictionsFuzzer) (p S : pystr) :
  posixpath.isabs p = true ->
  printable env S = true ->
  is_path_allowed env self (PyStr p) = Ok true ->
  is_path_allowed env self (PyStr (p ++ S)) = Ok true.
Proof.
  intros Habs HS H.
  apply (is_path_allowed_true env self p Habs) in H.
  destruct H as (Hs & Hp & Hr).
  apply is_path_allowed_true.
  - destruct p; [discriminate | exact Habs].
  - split; [|split; [|assumption]].
    + apply startswith_spec in Hs. destruct Hs as [t ->].
      rewrite <- app_assoc. apply startswith_app.
    + now rewrite printable_app, Hp, HS.
Qed.

Lemma cpp_accepts_extensions_witness :
  is_path_allowed plain_env FilePathRestrictionsFuzzer_init
    (PyStr (lit "/home/CMU/RawRecords/a" ++ lit "/../../../../etc/shadow"))
  = Ok true.
Proof.
  apply cpp_accepts_extensions; reflexivity.
Defined.

(** ** Relative candidates *)

(** X15.  [is_path_allowed] judges a relative candidate as the lexical
    resolution of its components from the working directory: empty and
    [.] components are dropped and [..] steps up, which it does for no
    absolute candidate. *)
Theorem cpp_relative_lexical (env : Env)
    (self : FilePathRestrictionsFuzzer) (p : pystr) :
  forallb entry (cwd env) = true ->
  posixpath.isabs p = false ->
  startswith p [TILDE] = false ->
  is_path_allowed env self (PyStr p)
  = is_path_allowed env self
      (PyStr (render (lexical (cwd env) (split_sep p)))).
Proof.
  intros Hcwd Hrel Htilde. apply is_path_allowed_canonical.
  unfold canonicalize_cpp. rewrite Htilde. cbn [bind]. rewrite Hrel.
  cbn [negb]. now rewrite abspath_relative.
Qed.

Lemma cpp_relative_lexical_witness :
  is_path_allowed session_env FilePathRestrictionsFuzzer_init
    (PyStr (lit "../../RawRecords_fake/./x"))
  = is_path_allowed session_env FilePathRestrictionsFuzzer_init
      (PyStr (render (lexical (cwd session_env)
                        (split_sep (lit "../../RawRecords_fake/./x"))))).
Proof.
  apply cpp_relative_lexical; reflexivity.
Defined.

(** X16.  A candidate [~] or [~/...] is judged as the home directory followed
    by the rest of the candidate, with nothing resolved in it. *)
Theorem cpp_tilde_home (env : Env) (self : FilePathRestrictionsFuzzer)
    (h rest : pystr) :
  home env = Some h ->
  posixpath.isabs h = true ->
  rest = [] \/ posixpath.isabs rest = true ->
  is_path_allowed env self (PyStr (TILDE :: rest))
  = is_path_allowed env self
      (PyStr (if is_empty (rstrip_sep h ++ rest) then [SLASH]
              else rstrip_sep h ++ rest)).
Proof.
  intros Hhome Habs Hrest. apply is_path_allowed_canonical.
  unfold canonicalize_cpp. cbn [startswith]. rewrite N.eqb_refl.
  cbn [andb]. unfold posixpath.expanduser. rewrite N.eqb_refl.
  rewrite (cut_sep_rest rest Hrest). cbn [is_empty bind]. rewrite Hhome.
  cbn [bind].
  set (expanded := rstrip_sep h ++ rest).
  assert (Hexp : expanded = [] \/ posixpath.isabs expanded = true).
  { unfold expanded. destruct (rstrip_sep_abs h Habs) as [->|H].
    - cbn [app]. exact Hrest.
    - right. destruct (rstrip_sep h); [discriminate | exact H]. }
  destruct Hexp as [->|Hexp]; [reflexivity|].
  destruct expanded as [|c e]; [discriminate|]. cbn [is_empty].
  now rewrite Hexp.
Qed.

Lemma cpp_tilde_home_witness :
  is_path_allowed home_env FilePathRestrictionsFuzzer_init
    (PyStr (TILDE :: lit "/../../etc/passwd"))
  = is_path_allowed home_env FilePathRestrictionsFuzzer_init
      (PyStr (if is_empty (rstrip_sep (lit "/home/CMU/RawRecords/")
                             ++ lit "/../../etc/passwd")
              then [SLASH]
              else rstrip_sep (lit "/home/CMU/RawRecords/")
                   ++ lit "/../../etc/passwd")).
Proof.
  apply cpp_tilde_home; [reflexivity | reflexivity | right; reflexivity].
Defined.

(** ** Candidates that name a user *)

(** X17.  A candidate [~name...]: when the host knows no such user the
    candidate stays as it is and is judged as a relative path, from the
    working directory; when the name holds a character that the
    operating system rejects, a null among them, the lookup raises and
    the candidate is refused. *)
Theorem cpp_tilde_user (env : Env) (self : FilePathRestrictionsFuzzer)
    (name rest : pystr) :
  name <> [] ->
  contains SLASH name = false ->
  rest = [] \/ posixpath.isabs rest = true ->
  (fs_bad name = false ->
   pw_dir env name = None ->
   forallb entry (cwd env) = true ->
   is_path_allowed env self (PyStr (TILDE :: name ++ rest))
   = is_path_allowed env self
       (PyStr (render (lexical (cwd env)
                         (split_sep (TILDE :: name ++ rest))))))
  /\ (fs_bad name = true ->
      printable env (TILDE :: name ++ rest) = true ->
      is_path_allowed env self (PyStr (TILDE :: name ++ rest)) = Ok false).
Proof.
  intros Hne Hslash Hrest.
  assert (Hexp : posixpath.expanduser env (TILDE :: name ++ rest)
                 = userhome <- posixpath.getpwnam_dir env name ;;
                   match userhome with
                   | None => Ok (TILDE :: name ++ rest)
                   | Some userhome =>
                       Ok (if is_empty (rstrip_sep userhome ++ rest)
                           then [SLASH] else rstrip_sep userhome ++ rest)
                   end).
  { unfold posixpath.expanduser. rewrite N.eqb_refl.
    rewrite (cut_sep_name name rest Hslash Hrest).
    destruct name; [contradiction | reflexivity]. }
  split.
  - intros Hok Hpw Hcwd. apply is_path_allowed_canonical.
    unfold canonicalize_cpp. cbn [startswith]. rewrite N.eqb_refl.
    cbn [andb]. rewrite Hexp. unfold posixpath.getpwnam_dir.
    rewrite fs_bad_split in Hok. apply orb_false_iff in Hok.
    destruct Hok as [-> ->]. cbn [bind]. rewrite Hpw. cbn [bind].
    change (posixpath.isabs (TILDE :: name ++ rest)) with false.
    cbn [negb]. now rewrite abspath_relative.
  - intros Hbad Hprint. unfold is_path_allowed, canonicalize_cpp.
    cbn [startswith]. rewrite N.eqb_refl. cbn [andb]. rewrite Hexp.
    unfold posixpath.getpwnam_dir. rewrite fs_bad_split in Hbad.
    unfold is_path_allowed_except.
    destruct (existsb fs_unencodable name); cbn [bind];
      [ now rewrite (print_printable _ _ Hprint) |].
    rewrite orb_false_r in Hbad. rewrite Hbad. cbn [bind].
    now rewrite (print_printable _ _ Hprint).
Qed.

Lemma cpp_tilde_user_witness :
  is_path_allowed session_env FilePathRestrictionsFuzzer_init
    (PyStr (TILDE :: lit "nobody" ++ lit "/../x"))
  = is_path_allowed session_env FilePathRestrictionsFuzzer_init
      (PyStr (render (lexical (cwd session_env)
                        (split_sep (TILDE :: lit "nobody" ++ lit "/../x")))))
  /\ is_path_allowed plain_env FilePathRestrictionsFuzzer_init
       (PyStr (TILDE :: (lit "cmu" ++ [NUL]) ++ lit "/x")) = Ok false.
Proof.
  split.
  - apply (proj1 (cpp_tilde_user session_env FilePathRestrictionsFuzzer_init
                    (lit "nobody") (lit "/../x")
                    ltac:(discriminate) eq_refl (or_intror eq_refl)));
      reflexivity.
  - apply (proj2 (cpp_tilde_user plain_env FilePathRestrictionsFuzzer_init
                    (lit "cmu" ++ [NUL]) (lit "/x")
                    ltac:(discriminate) eq_refl (or_intror eq_refl)));
      reflexivity.
Defined.

(** ** When [is_path_allowed] returns *)

Lemma rstrip_sep_existsb (P : N -> bool) (s : pystr) :
  existsb P s = false -> existsb P (rstrip_sep s) = false.
Proof.
  induction s as [|c s IH]; [reflexivity|]. cbn [existsb rstrip_sep].
  intros H. apply orb_false_iff in H. destruct H as [Hc Hs].
  specialize (IH Hs). destruct (rstrip_sep s) as [|d r].
  - destruct (N.eqb c SLASH); [reflexivity|]. cbn [existsb].
    now rewrite Hc.
  - cbn [existsb] in *. now rewrite Hc, IH.
Qed.

Lemma cut_sep_existsb (P : N -> bool) (s : pystr) :
  existsb P s = false -> existsb P (snd (posixpath.cut_sep s)) = false.
Proof.
  induction s as [|c s IH]; [reflexivity|]. cbn [posixpath.cut_sep].
  intros H. destruct (N.eqb c SLASH); [exact H|].
  cbn [existsb] in H. apply orb_false_iff in H.
  specialize (IH (proj2 H)).
  now destruct (posixpath.cut_sep s).
Qed.

Lemma normpath_loop_existsb (P : pystr -> bool) (initial : nat)
    (acc comps : list pystr) :
  existsb P acc = false -> existsb P comps = false ->
  existsb P (posixpath.normpath_loop initial acc comps) = false.
Proof.
  revert acc. induction comps as [|c comps IH]; intros acc Ha Hc;
    [exact Ha|].
  cbn [existsb] in Hc. apply orb_false_iff in Hc. destruct Hc as [Hc Hcs].
  cbn [posixpath.normpath_loop].
  destruct (is_empty c || pystr_eqb c dot); [now apply IH|].
  destruct (negb (pystr_eqb c dotdot)
            || (initial =? 0) && (length acc =? 0)
            || posixpath.last_is_dotdot acc).
  - apply IH; [|assumption]. rewrite existsb_app, Ha. cbn [existsb].
    now rewrite Hc.
  - apply IH; [|assumption]. now apply existsb_removelast.
Qed.

Lemma normpath_existsb (P : N -> bool) (path : pystr) :
  P SLASH = false -> P DOT = false ->
  existsb P path = false -> existsb P (posixpath.normpath path) = false.
Proof.
  intros Hs Hd H. unfold posixpath.normpath.
  assert (Hdot : existsb P dot = false)
    by (cbn [dot existsb]; now rewrite Hd).
  destruct (is_empty path); [exact Hdot|]. cbv zeta.
  set (out := repeat SLASH (posixpath.initial_slashes path) ++ _).
  assert (Hout : existsb P out = false).
  { unfold out. rewrite existsb_app. apply orb_false_iff. split.
    - induction (posixpath.initial_slashes path) as [|n IH];
        [reflexivity|]. cbn [repeat existsb]. now rewrite Hs.
    - rewrite join_sep_existsb by assumption.
      apply normpath_loop_existsb; [reflexivity|].
      now rewrite split_sep_existsb. }
  now destruct (is_empty out).
Qed.

Lemma abspath_clean (env : Env) (p : pystr) :
  existsb (existsb is_surrogate) (cwd env) = false ->
  existsb is_surrogate p = false ->
  existsb is_surrogate (posixpath.abspath env p) = false.
Proof.
  intros Hcwd Hp. unfold posixpath.abspath.
  destruct (negb (posixpath.isabs p));
    apply normpath_existsb; try reflexivity; [|assumption].
  unfold posixpath.join, posixpath.getcwd.
  destruct (startswith p [SLASH]); [assumption|].
  assert (Hr : existsb is_surrogate (render (cwd env)) = false)
    by now rewrite render_existsb.
  destruct (is_empty (render (cwd env)) || endswith_sep (render (cwd env)));
    rewrite existsb_app, Hr; cbn [existsb orb]; assumption.
Qed.

Lemma canonicalize_cpp_clean (env : Env) (p q : pystr) :
  clean_host env ->
  existsb is_surrogate p = false ->
  canonicalize_cpp env p = Ok q ->
  existsb is_surrogate q = false.
Proof.
  intros (Hhome & Hpw & Hcwd) Hp. unfold canonicalize_cpp.
  assert (Hexp : forall fp, posixpath.expanduser env p = Ok fp ->
                            existsb is_surrogate fp = false).
  { intros fp. unfold posixpath.expanduser.
    destruct p as [|c tail]; [now intros [= <-]|].
    destruct (N.eqb c TILDE); [|now intros [= <-]].
    cbn [existsb] in Hp. apply orb_false_iff in Hp.
    pose proof (cut_sep_existsb is_surrogate tail (proj2 Hp)) as Hrest.
    destruct (posixpath.cut_sep tail) as [name rest]. cbn [snd] in Hrest.
    assert (Hfin : forall userhome,
               (forall h, userhome = Some h ->
                          existsb is_surrogate h = false) ->
               match userhome with
               | Some userhome =>
                   Ok (if is_empty (rstrip_sep userhome ++ rest)
                       then [SLASH] else rstrip_sep userhome ++ rest)
               | None => Ok (c :: tail)
               end = Ok fp ->
               existsb is_surrogate fp = false).
    { intros [h|] Hh.
      - intros [= <-].
        destruct (is_empty (rstrip_sep h ++ rest)); [reflexivity|].
        rewrite existsb_app, Hrest.
        rewrite rstrip_sep_existsb; [reflexivity | now apply Hh].
      - intros [= <-]. cbn [existsb]. apply orb_false_iff. tauto. }
    destruct (is_empty name); cbn [bind].
    - apply Hfin. exact Hhome.
    - unfold posixpath.getpwnam_dir.
      destruct (existsb fs_unencodable name); [discriminate|].
      destruct (contains NUL name); [discriminate|]. cbn [bind].
      apply Hfin. intros h Hh. exact (Hpw name h Hh). }
  destruct (startswith p [TILDE]).
  - destruct (posixpath.expanduser env p) as [fp|e] eqn:E; cbn [bind];
      [|discriminate].
    specialize (Hexp fp eq_refl). intros [= <-].
    destruct (negb (posixpath.isabs fp)); [|assumption].
    now apply abspath_clean.
  - cbn [bind]. intros [= <-].
    destruct (negb (posixpath.isabs p)); [|assumption].
    now apply abspath_clean.
Qed.

(** X18.  On text without surrogates [is_path_allowed] always returns a
    boolean: for every candidate string without surrogates, on a host
    whose home directories, working directory and allowed root hold
    none, whatever the error handler of the standard output. *)
Theorem cpp_returns_on_clean_text (env : Env)
    (self : FilePathRestrictionsFuzzer) (s : pystr) :
  clean_host env ->
  existsb is_surrogate (allowed_root self) = false ->
  existsb is_surrogate s = false ->
  exists b, is_path_allowed env self (PyStr s) = Ok b.
Proof.
  intros Hhost Hroot Hs.
  assert (Hpr : forall t, existsb is_surrogate t = false ->
                          print env [PyStr t] = Ok tt).
  { intros t Ht. apply print_encodable; [reflexivity|].
    cbn [forallb encodable]. now rewrite Ht. }
  unfold is_path_allowed, is_path_allowed_except.
  destruct (canonicalize_cpp env s) as [q|e] eqn:E.
  - pose proof (canonicalize_cpp_clean env s q Hhost Hs E) as Hq.
    cbv zeta. fold (cpp_root env self).
    assert (Hr : existsb is_surrogate (cpp_root env self) = false).
    { unfold cpp_root. destruct (negb (posixpath.isabs (allowed_root self)));
        [|assumption].
      destruct Hhost as (_ & _ & Hcwd). now apply abspath_clean. }
    rewrite (Hpr q Hq), (Hpr _ Hr), print_nothing. cbn [bind].
    destruct (_ && _); cbn [try_except]; eauto.
  - rewrite (Hpr s Hs). cbn [bind]. eauto.
Qed.

Lemma cpp_returns_on_clean_text_witness :
  exists b,
    is_path_allowed plain_env FilePathRestrictionsFuzzer_init
      (PyStr (lit "~cmu/../x" ++ [NUL])) = Ok b.
Proof.
  apply cpp_returns_on_clean_text; try reflexivity.
  split; [|split]; try reflexivity.
  - now intros h [= <-].
  - intros name h. cbn [plain_env pw_dir].
    destruct (pystr_eqb name (lit "cmu")); [|discriminate].
    now intros [= <-].
Defined.

(** ** The empty candidate *)

Lemma canonicalize_safe_empty (env : Env) :
  forallb entry (cwd env) = true ->
  canonicalize_safe env [] = Ok (render (cwd env)).
Proof.
  intros Hcwd. rewrite canonicalize_safe_eq.
  destruct (resolve_unlinked env (replace BACKSLASH SLASH []))
    as [_ H]; [now right | exact I |].
  exact (H eq_refl).
Qed.

(** X19.  Both checks judge the empty string as the working directory: run
    from a directory under the root, they accept it. *)
Theorem empty_candidate_is_cwd (env : Env)
    (self : FilePathRestrictionsFuzzer) (root more : list pystr) :
  root <> [] ->
  forallb plain root = true ->
  forallb entry more = true ->
  allowed_root self = render root ->
  cwd env = root ++ more ->
  link_free env root ->
  printable env (render (root ++ more)) = true ->
  is_path_allowed env self (PyStr []) = Ok true
  /\ is_path_allowed_safe env self (PyStr []) = Ok true.
Proof.
  intros Hne Hplain Hmore Hself Hcwd Hfree Hprint.
  pose proof (forallb_plain_entry _ Hplain) as Hentry.
  assert (Hall : forallb entry (cwd env) = true).
  { rewrite Hcwd, forallb_app, Hentry. exact Hmore. }
  assert (Hpre : exists t, render (root ++ more) = render root ++ t).
  { destruct more as [|m more].
    - exists []. now rewrite !app_nil_r.
    - exists (SLASH :: join_sep (m :: more)).
      apply render_app; [assumption | discriminate]. }
  destruct Hpre as [t Ht]. split.
  - rewrite cpp_relative_lexical; try reflexivity; [|assumption].
    change (split_sep []) with [@nil N]. cbn [lexical is_empty orb].
    rewrite Hcwd. apply is_path_allowed_true; [apply isabs_render|].
    unfold cpp_root. rewrite Hself, isabs_render. cbn [negb].
    split; [|split; [assumption|]].
    + rewrite Ht. apply startswith_app.
    + rewrite Ht, printable_app in Hprint.
      now apply andb_true_iff in Hprint.
  - unfold is_path_allowed_safe.
    rewrite (canonicalize_safe_empty env Hall), Hself.
    rewrite (resolve_real env root Hentry Hfree). cbn [bind try_except].
    rewrite Hcwd. f_equal. unfold within_root.
    destruct more as [|m more].
    + rewrite app_nil_r. now rewrite pystr_eqb_refl.
    + destruct (pystr_eqb (render (root ++ m :: more)) (render root));
        [reflexivity|].
      rewrite render_app by (assumption || discriminate).
      replace (render root ++ SLASH :: join_sep (m :: more))
        with ((render root ++ [SLASH]) ++ join_sep (m :: more))
        by now rewrite <- app_assoc.
      now rewrite startswith_app.
Qed.

Lemma empty_candidate_is_cwd_witness :
  is_path_allowed session_env FilePathRestrictionsFuzzer_init (PyStr [])
  = Ok true
  /\ is_path_allowed_safe session_env FilePathRestrictionsFuzzer_init
       (PyStr []) = Ok true.
Proof.
  apply (empty_candidate_is_cwd session_env FilePathRestrictionsFuzzer_init
           sample_root [lit "session"]);
    try reflexivity; try discriminate.
  intros pre suf _ _. reflexivity.
Defined.

(** ** Relative candidates of [is_path_allowed_safe] *)

(** X20.  On a host without symbolic links whose working directory has
    plain names, [is_path_allowed_safe] refuses a relative candidate
    with a character that the operating system rejects, the null among
    them, and decides any other by the component-wise prefix test
    between the root and the lexical resolution of the candidate from
    the working directory, its backslashes taken as separators. *)
Theorem safe_relative_lexical (env : Env)
    (self : FilePathRestrictionsFuzzer) (root : list pystr) (s : pystr) :
  no_symlinks env ->
  root <> [] ->
  forallb entry root = true ->
  allowed_root self = render root ->
  forallb plain (cwd env) = true ->
  startswith s [SLASH] = false ->
  startswith s [BACKSLASH] = false ->
  is_path_allowed_safe env self (PyStr s)
  = Ok (negb (fs_bad s)
        && is_prefix root
             (lexical (cwd env) (split_sep (replace BACKSLASH SLASH s)))).
Proof.
  intros Hfs Hne Hroot Hself Hcwd Hs1 Hs2.
  set (r := replace BACKSLASH SLASH s).
  assert (Hrel : posixpath.isabs r = false).
  { unfold r. destruct s as [|c s]; [reflexivity|].
    rewrite replace_cons. unfold posixpath.isabs.
    cbn [startswith] in *. rewrite andb_true_r in *.
    destruct (N.eqb_spec c BACKSLASH) as [->|_]; [discriminate|].
    exact Hs1. }
  assert (Hrb : contains BACKSLASH r = false).
  { unfold r. apply replace_gone. discriminate. }
  unfold is_path_allowed_safe. rewrite canonicalize_safe_eq. fold r.
  destruct (resolve_unlinked env r) as [Hbad Hgood].
  { right. now apply forallb_plain_entry. }
  { now apply no_symlinks_unlinked. }
  assert (Hfb : fs_bad r = fs_bad s) by apply fs_bad_replace.
  rewrite Hfb, Hrel in *.
  destruct (fs_bad s) eqn:Hok.
  { destruct (Hbad eq_refl) as [e ->]. reflexivity. }
  rewrite (Hgood eq_refl), Hself, resolve_real;
    [| assumption | now apply no_symlinks_link_free].
  cbn [bind try_except negb andb]. f_equal.
  assert (Hcomps : existsb fs_bad (split_sep r) = false).
  { unfold fs_bad. rewrite split_sep_existsb by reflexivity.
    fold (fs_bad r). unfold r. now rewrite fs_bad_replace. }
  apply within_root_render; [assumption | assumption |].
  apply forallb_plain.
  - apply lexical_entry;
      [ now apply forallb_plain_entry | apply split_sep_comps_nosep
      | assumption ].
  - assert (H : forallb (fun c => negb (contains BACKSLASH c))
                  (lexical (cwd env) (split_sep r)) = true).
    { apply lexical_forallb.
      - apply forallb_negb_existsb. now apply plains_no_backslash.
      - apply forallb_negb_existsb.
        pose proof (split_sep_existsb (N.eqb BACKSLASH) r eq_refl) as Hx.
        fold (contains BACKSLASH r) in Hx. rewrite Hrb in Hx. exact Hx. }
    now apply forallb_negb_existsb in H.
Qed.

Lemma safe_relative_lexical_witness :
  is_path_allowed_safe session_env FilePathRestrictionsFuzzer_init
    (PyStr (lit "..\..\RawRecords_fake\x"))
  = Ok (negb (fs_bad (lit "..\..\RawRecords_fake\x"))
        && is_prefix sample_root
             (lexical (cwd session_env)
                (split_sep (replace BACKSLASH SLASH
                              (lit "..\..\RawRecords_fake\x"))))).
Proof.
  apply safe_relative_lexical; try reflexivity; try discriminate.
  intros p. reflexivity.
Defined.

(** ** [is_path_allowed_safe] and the walk *)

(** The boundary test is kept when a component is appended. *)
Lemma within_root_child (root_str abs_str name : pystr) :
  within_root root_str abs_str = true ->
  within_root root_str (abs_str ++ SLASH :: name) = true.
Proof.
  intros H.
  assert (Hs : startswith (abs_str ++ SLASH :: name) (root_str ++ [SLASH])
               || startswith (abs_str ++ SLASH :: name)
                    (root_str ++ [BACKSLASH]) = true).
  { unfold within_root in H.
    destruct (pystr_eqb abs_str root_str) eqn:E.
    - apply pystr_eqb_eq in E. subst abs_str.
      replace (root_str ++ SLASH :: name)
        with ((root_str ++ [SLASH]) ++ name) by now rewrite <- app_assoc.
      now rewrite startswith_app.
    - destruct (startswith abs_str (root_str ++ [SLASH])) eqn:E1.
      + apply startswith_spec in E1. destruct E1 as [t ->].
        rewrite <- (app_assoc (root_str ++ [SLASH])).
        now rewrite startswith_app.
      + destruct (startswith abs_str (root_str ++ [BACKSLASH])) eqn:E2;
          [|discriminate].
        apply startswith_spec in E2. destruct E2 as [t ->].
        rewrite <- (app_assoc (root_str ++ [BACKSLASH])).
        rewrite startswith_app. apply orb_true_r. }
  unfold within_root. rewrite Hs.
  now destruct (pystr_eqb (abs_str ++ SLASH :: name) root_str).
Qed.

Lemma path_parts_child (p name : pystr) :
  entry name = true ->
  pathlib.path_parts (p ++ SLASH :: name) = pathlib.path_parts p ++ [name].
Proof.
  intros Hname. unfold pathlib.path_parts.
  rewrite split_sep_app_sep, filter_app.
  rewrite (split_sep_nosep name) by (apply entry_spec in Hname; tauto).
  cbn [filter]. now destruct (entry_step _ Hname) as [-> _].
Qed.

(** X21.  With a working directory that is a real path: what
    [is_path_allowed_safe] accepts after [realpath] resolved it
    completely, without stopping at a symbolic link loop, it accepts
    with a further component, the name of a child that is no symbolic
    link, under a root other than the filesystem root. *)
Theorem safe_accepts_children (env : Env)
    (self : FilePathRestrictionsFuzzer) (p name : pystr) :
  p <> [] ->
  plain name = true ->
  (forall dir, readlink env (dir ++ [name]) = None) ->
  forallb entry (cwd env) = true ->
  link_free env (cwd env) ->
  pathlib.stops_at_loop env (replace BACKSLASH SLASH p) = false ->
  pathlib.resolve env (allowed_root self) <> Ok [SLASH] ->
  is_path_allowed_safe env self (PyStr p) = Ok true ->
  is_path_allowed_safe env self (PyStr (p ++ SLASH :: name)) = Ok true.
Proof.
  intros Hp Hname Hlink Hcwd Hfree Hloop Hroot H.
  pose proof (plain_entry _ Hname) as Hentry.
  unfold is_path_allowed_safe in *.
  destruct (canonicalize_safe env p) as [abs_str|e] eqn:Ec;
    cbn [bind try_except] in H; [|discriminate].
  destruct (pathlib.resolve env (allowed_root self)) as [root_str|e] eqn:Er;
    cbn [bind try_except] in H; [|discriminate].
  injection H as H.
  rewrite canonicalize_safe_eq in Ec.
  set (rp := replace BACKSLASH SLASH p) in *.
  destruct (resolve_walk env rp abs_str Hcwd Hfree Hloop Ec)
    as (a & comps & seen & Hw & Hc & Hl & ->).
  set (out := base env a ++ comps) in *.
  assert (Hout : out <> []).
  { intros E. rewrite E in H. unfold within_root in H.
    pose proof (resolve_nonempty env _ _ Er) as Hrs.
    destruct (pystr_eqb (render []) root_str) eqn:E'.
    - apply pystr_eqb_eq in E'. apply Hroot. now rewrite <- E'.
    - destruct root_str as [|c t]; [contradiction|].
      cbn [render join_sep app startswith] in H.
      destruct t; cbn [app startswith] in H;
        rewrite ?andb_false_r in H; discriminate. }
  assert (Hrp : rp <> []).
  { unfold rp, replace. destruct p; [contradiction | discriminate]. }
  assert (Ec' : canonicalize_safe env (p ++ SLASH :: name)
                = Ok (render out ++ SLASH :: name)).
  { rewrite canonicalize_safe_eq, replace_app, replace_cons.
    change (N.eqb SLASH BACKSLASH) with false. cbn iota.
    rewrite (replace_id _ _ name (plain_no_backslash _ Hname)). fold rp.
    unfold pathlib.resolve. rewrite realpath_parts.
    replace (posixpath.isabs (rp ++ SLASH :: name))
      with (posixpath.isabs rp)
      by (destruct rp; [contradiction | reflexivity]).
    rewrite (path_parts_child rp name Hentry).
    rewrite (walk_app_ok _ _ _ _ _ _ _ _ Hw).
    cbn [posixpath.realpath_loop].
    destruct (entry_step _ Hentry) as [-> ->].
    assert (Hall : forallb entry (comps ++ [name]) = true).
    { rewrite forallb_app, Hc. cbn [forallb]. now rewrite Hentry. }
    rewrite (spell_join a comps name Hc (entry_word _ Hentry)).
    rewrite (lstat_link_ok env _ (fs_bad_spell a _ Hall)).
    rewrite (locate_spell env a _ Hall), app_assoc, Hlink. cbn [bind].
    rewrite (resolve_of_spelled env a _ Hall (or_intror Hcwd)).
    f_equal. rewrite app_assoc. fold out.
    change (SLASH :: name) with (SLASH :: join_sep [name]).
    apply render_app; [assumption | discriminate]. }
  rewrite Ec'. cbn [bind try_except]. f_equal.
  now apply within_root_child.
Qed.

Lemma safe_accepts_children_witness :
  is_path_allowed_safe symlink_env FilePathRestrictionsFuzzer_init
    (PyStr (lit "/home/CMU/RawRecords/a\b" ++ SLASH :: lit "c.raw"))
  = Ok true.
Proof.
  apply safe_accepts_children; try reflexivity; try discriminate.
  - intros dir. cbn [symlink_env readlink].
    destruct (list_eq_dec (list_eq_dec N.eq_dec) (dir ++ [lit "c.raw"])
                [lit "home"; lit "CMU"; lit "RawRecords"; lit "link.txt"])
      as [E|]; [|reflexivity].
    change [lit "home"; lit "CMU"; lit "RawRecords"; lit "link.txt"]
      with ([lit "home"; lit "CMU"; lit "RawRecords"] ++ [lit "link.txt"])
      in E.
    apply app_inj_tail in E. destruct E as [_ E]. discriminate.
  - intros pre suf E _. cbn [symlink_env readlink].
    destruct (list_eq_dec (list_eq_dec N.eq_dec) pre
                [lit "home"; lit "CMU"; lit "RawRecords"; lit "link.txt"])
      as [->|]; [|reflexivity].
    apply (f_equal (@length (list N))) in E. rewrite length_app in E.
    cbn in E. lia.
Defined.

Lemma lexical_behind (comps rest : list pystr) :
  comps <> [] ->
  forallb entry comps = true ->
  forallb entry rest = true ->
  lexical [] (split_sep (render comps ++ SLASH :: join_sep rest))
  = comps ++ rest.
Proof.
  intros Hne Hc Hr. rewrite split_sep_app_sep.
  rewrite split_render by (assumption || now apply entries_nosep).
  cbn [app]. rewrite lexical_skip, lexical_app.
  rewrite (lexical_entries [] comps Hc). cbn [app].
  destruct rest as [|x rest].
  - cbn [join_sep split_sep lexical is_empty orb]. now rewrite app_nil_r.
  - rewrite split_join by (discriminate || now apply entries_nosep).
    now apply lexical_entries.
Qed.

(** X22.  A candidate that runs through a symbolic link to itself and
    goes on with plain names: [realpath] stops at the link and leaves
    the rest unresolved, so that [resolve] returns the candidate as it
    is, unless the final [stat] answers [ELOOP] or no nested call is
    left; then it raises [RuntimeError], which [is_path_allowed_safe]
    turns into [False]. *)
Theorem safe_refuses_link_loop (env : Env)
    (self : FilePathRestrictionsFuzzer) (dir : list pystr) (l : pystr)
    (more : list pystr) :
  forallb plain (dir ++ l :: more) = true ->
  link_free env dir ->
  readlink env (dir ++ [l]) = Some l ->
  canonicalize_safe env (render (dir ++ l :: more))
  = (if stat_eloop env (render (dir ++ l :: more)) || (max_hops env =? 0)
     then Raise RuntimeError
     else Ok (render (dir ++ l :: more)))
  /\ (stat_eloop env (render (dir ++ l :: more)) = true ->
      is_path_allowed_safe env self (PyStr (render (dir ++ l :: more)))
      = Ok false).
Proof.
  intros Hplain Hfree Hlink.
  pose proof (forallb_plain_entry _ Hplain) as Hall.
  pose proof Hall as Hentry.
  rewrite forallb_app in Hentry. apply andb_true_iff in Hentry.
  destruct Hentry as [Hdir Hrest]. cbn [forallb] in Hrest.
  apply andb_true_iff in Hrest. destruct Hrest as [Hl Hmore].
  assert (Hdl : forallb entry (dir ++ [l]) = true).
  { rewrite forallb_app, Hdir. cbn [forallb]. now rewrite Hl. }
  assert (Hc : canonicalize_safe env (render (dir ++ l :: more))
               = (if stat_eloop env (render (dir ++ l :: more))
                     || (max_hops env =? 0)
                  then Raise RuntimeError
                  else Ok (render (dir ++ l :: more)))).
  { rewrite canonicalize_safe_eq.
    rewrite (replace_id _ _ _ (render_no_backslash _ Hplain)).
    unfold pathlib.resolve. rewrite realpath_parts, isabs_render.
    rewrite (path_parts_render _ Hall).
    set (rec := match max_hops env with
                | O => _
                | S depth' => posixpath.joinrealpath env depth'
                end).
    change [SLASH] with (spell FromRoot []).
    destruct (walk_unlinked env rec dir FromRoot [] [] eq_refl
                (entries_nosep _ Hdir)
                (entries_unlinked env [] dir Hdir Hfree))
      as [[Hx _] | (_ & a' & comps' & Hw & Hc' & Hl' & Ha)].
    { rewrite (entries_fs_ok _ Hdir) in Hx. discriminate. }
    rewrite (Ha eq_refl) in *. cbn [base app] in Hl'.
    rewrite (lexical_entries [] dir Hdir) in Hl'. cbn [app] in Hl'.
    subst comps'. rewrite (walk_app_ok _ _ _ _ _ _ _ _ Hw).
    cbn [spell]. unfold rec.
    rewrite (walk_self_link env (max_hops env) dir l more Hdir Hl
               (entries_words _ Hmore) Hlink).
    destruct (max_hops env) as [|depth].
    { now rewrite orb_true_r. }
    cbn [bind Nat.eqb]. rewrite orb_false_r.
    assert (Hnorm : posixpath.abspath env
                      (render (dir ++ [l]) ++ SLASH :: join_sep more)
                    = render (dir ++ l :: more)).
    { unfold posixpath.abspath.
      replace (posixpath.isabs
                 (render (dir ++ [l]) ++ SLASH :: join_sep more))
        with true by reflexivity.
      cbn [negb]. rewrite normpath_absolute.
      - rewrite lexical_behind; try assumption.
        + now rewrite <- app_assoc.
        + now destruct dir.
      - apply initial_slashes_render_app; [now destruct dir | assumption]. }
    rewrite Hnorm, (path_str_render _ Hall).
    unfold pathlib.stat_check.
    pose proof (render_fs_ok _ Hall) as Hok.
    rewrite fs_bad_split in Hok. apply orb_false_iff in Hok.
    destruct Hok as [-> ->]. cbn [negb andb].
    now destruct (stat_eloop env (render (dir ++ l :: more))). }
  split; [exact Hc|]. intros Hstat.
  unfold is_path_allowed_safe. rewrite Hc, Hstat. reflexivity.
Qed.

Lemma safe_refuses_link_loop_witness :
  canonicalize_safe loop_env
    (render (sample_root ++ lit "loop" :: [lit "file.raw"]))
  = (if stat_eloop loop_env
          (render (sample_root ++ lit "loop" :: [lit "file.raw"]))
        || (max_hops loop_env =? 0)
     then Raise RuntimeError
     else Ok (render (sample_root ++ lit "loop" :: [lit "file.raw"])))
  /\ (stat_eloop loop_env
        (render (sample_root ++ lit "loop" :: [lit "file.raw"])) = true ->
      is_path_allowed_safe loop_env FilePathRestrictionsFuzzer_init
        (PyStr (render (sample_root ++ lit "loop" :: [lit "file.raw"])))
      = Ok false).
Proof.
  apply (safe_refuses_link_loop loop_env FilePathRestrictionsFuzzer_init
           sample_root (lit "loop") [lit "file.raw"]).
  - reflexivity.
  - intros pre suf E _. cbn [loop_env readlink].
    destruct (list_eq_dec (list_eq_dec N.eq_dec) pre
                [lit "home"; lit "CMU"; lit "RawRecords"; lit "loop"])
      as [->|]; [|reflexivity].
    apply (f_equal (@length (list N))) in E. rewrite length_app in E.
    cbn [length sample_root] in E. lia.
  - reflexivity.
Defined.

Lemma prefixes_unlinked (env : Env) (path comps : list pystr) :
  forallb entry comps = true ->
  (forall pre suf, comps = pre ++ suf -> pre <> [] ->
                   readlink env (path ++ pre) = None) ->
  unlinked env path comps.
Proof.
  revert path. induction comps as [|c comps IH]; intros path He Hl;
    [exact I|].
  cbn [forallb] in He. apply andb_true_iff in He. destruct He as [Hc He].
  cbn [unlinked]. destruct (entry_step _ Hc) as [-> ->]. split.
  - apply (Hl [c] comps eq_refl). discriminate.
  - apply IH; [assumption|]. intros pre suf -> Hpre.
    rewrite <- app_assoc. apply (Hl (c :: pre) suf eq_refl). discriminate.
Qed.

(** X23.  A symbolic link directly inside the root whose target is a relative
    path of plain names is resolved from the root: the candidate
    resolves to the target under the root and is accepted. *)
Theorem safe_accepts_link_inside (env : Env)
    (self : FilePathRestrictionsFuzzer) (root : list pystr) (name : pystr)
    (target : list pystr) :
  root <> [] ->
  forallb plain root = true ->
  plain name = true ->
  target <> [] ->
  forallb plain target = true ->
  allowed_root self = render root ->
  link_free env root ->
  readlink env (root ++ [name]) = Some (join_sep target) ->
  (forall pre suf, target = pre ++ suf -> pre <> [] ->
                   readlink env (root ++ pre) = None) ->
  1 <= max_hops env ->
  canonicalize_safe env (render root ++ SLASH :: name)
  = Ok (render (root ++ target))
  /\ is_path_allowed_safe env self (PyStr (render root ++ SLASH :: name))
     = Ok true.
Proof.
  intros Hne Hplain Hname Htne Htarget Hself Hroot Hlink Hfree Hhops.
  pose proof (forallb_plain_entry _ Hplain) as Hentry.
  pose proof (forallb_plain_entry _ Htarget) as Htentry.
  pose proof (plain_entry _ Hname) as Hnentry.
  assert (Hrel : posixpath.isabs (join_sep target) = false).
  { exact (words_relative _ (entries_words _ Htentry)). }
  assert (Hsplit : split_sep (join_sep target) = target).
  { apply split_join; [assumption | now apply entries_nosep]. }
  assert (Hall : forallb entry (root ++ [name]) = true).
  { rewrite forallb_app, Hentry. cbn [forallb]. now rewrite Hnentry. }
  assert (Hcanon : canonicalize_safe env (render root ++ SLASH :: name)
                   = Ok (render (root ++ target))).
  { rewrite canonicalize_safe_eq. rewrite replace_id.
    2:{ rewrite contains_app, (render_no_backslash _ Hplain).
        rewrite contains_cons, (plain_no_backslash _ Hname). reflexivity. }
    change (SLASH :: name) with (SLASH :: join_sep [name]).
    rewrite <- render_app by (assumption || discriminate).
    assert (Hbad : fs_bad (join_sep target) = false).
    { unfold fs_bad. rewrite join_sep_existsb by reflexivity.
      now apply entries_fs_ok. }
    assert (Hut : unlinked env
                    (if posixpath.isabs (join_sep target) then [] else root)
                    (split_sep (join_sep target))).
    { rewrite Hrel, Hsplit. now apply prefixes_unlinked. }
    destruct (resolve_through_link env (render (root ++ [name])) root name
                (join_sep target) [] eq_refl (path_parts_render _ Hall)
                Hentry Hnentry Hroot Hlink Hbad Hut eq_refl I Hhops)
      as [_ Hres].
    rewrite Hres, Hrel, Hsplit. cbn [lexical].
    now rewrite (lexical_entries root target Htentry). }
  split; [exact Hcanon|].
  unfold is_path_allowed_safe. rewrite Hcanon, Hself.
  rewrite resolve_real by assumption.
  cbn [bind try_except]. f_equal.
  rewrite within_root_render;
    [ apply is_prefix_app | assumption | assumption
    | now rewrite forallb_app, Hplain ].
Qed.

Lemma safe_accepts_link_inside_witness :
  canonicalize_safe inside_env (render sample_root ++ SLASH :: lit "latest")
  = Ok (render (sample_root ++ [lit "2024"; lit "run1.raw"]))
  /\ is_path_allowed_safe inside_env FilePathRestrictionsFuzzer_init
       (PyStr (render sample_root ++ SLASH :: lit "latest"))
     = Ok true.
Proof.
  apply (safe_accepts_link_inside inside_env FilePathRestrictionsFuzzer_init
           sample_root (lit "latest") [lit "2024"; lit "run1.raw"]);
    try reflexivity; try discriminate.
  - intros pre suf E _. cbn [inside_env readlink].
    destruct (list_eq_dec (list_eq_dec N.eq_dec) pre
                [lit "home"; lit "CMU"; lit "RawRecords"; lit "latest"])
      as [->|]; [|reflexivity].
    apply (f_equal (@length (list N))) in E. rewrite length_app in E.
    cbn [length sample_root] in E. lia.
  - intros pre suf E Hpre. cbn [inside_env readlink].
    destruct (list_eq_dec (list_eq_dec N.eq_dec) (sample_root ++ pre)
                [lit "home"; lit "CMU"; lit "RawRecords"; lit "latest"])
      as [E'|]; [|reflexivity].
    destruct pre as [|a [|b pre]]; [contradiction| |].
    + injection E as <- _. discriminate.
    + apply (f_equal (@length (list N))) in E'. rewrite length_app in E'.
      cbn [length sample_root] in E'. lia.
  - cbn [inside_env max_hops]. lia.
Defined.

(** X24.  With a working directory that is a real path: when [realpath]
    resolved a candidate completely, without stopping at a symbolic
    link loop, checking what the candidate resolves to gives the
    verdict on the candidate; the resolved path, when it holds no
    backslash, is resolved to itself. *)
Theorem safe_verdict_of_resolved (env : Env)
    (self : FilePathRestrictionsFuzzer) (p q : pystr) :
  forallb entry (cwd env) = true ->
  link_free env (cwd env) ->
  pathlib.stops_at_loop env (replace BACKSLASH SLASH p) = false ->
  canonicalize_safe env p = Ok q ->
  contains BACKSLASH q = false ->
  is_path_allowed_safe env self (PyStr q)
  = is_path_allowed_safe env self (PyStr p).
Proof.
  intros Hcwd Hfree Hloop Hc Hback.
  destruct (canonicalize_safe_real env p q Hcwd Hfree Hloop Hc)
    as (out & -> & Hout & Hlf).
  unfold is_path_allowed_safe. rewrite Hc.
  rewrite canonicalize_safe_eq, (replace_id _ _ _ Hback).
  now rewrite (resolve_real env out Hout Hlf).
Qed.

Lemma safe_verdict_of_resolved_witness :
  is_path_allowed_safe symlink_env FilePathRestrictionsFuzzer_init
    (PyStr (lit "/etc/passwd"))
  = is_path_allowed_safe symlink_env FilePathRestrictionsFuzzer_init
      (PyStr (lit "/home/CMU/RawRecords/sub/../link.txt")).
Proof.
  apply safe_verdict_of_resolved; try reflexivity.
  intros pre suf E _. cbn [symlink_env readlink].
  destruct (list_eq_dec (list_eq_dec N.eq_dec) pre
              [lit "home"; lit "CMU"; lit "RawRecords"; lit "link.txt"])
    as [->|]; [|reflexivity].
  apply (f_equal (@length (list N))) in E. rewrite length_app in E.
  cbn in E. lia.
Defined.

(** X25.  On a path that is its own resolution, under a root that is its own
    resolution, [is_path_allowed] accepts whatever
    [is_path_allowed_safe] accepts: the two checks differ there only by
    what the prefix test lets through. *)
Theorem safe_implies_cpp_on_real_paths (env : Env)
    (self : FilePathRestrictionsFuzzer) (root comps : list pystr) :
  forallb entry root = true ->
  link_free env root ->
  allowed_root self = render root ->
  forallb plain comps = true ->
  link_free env comps ->
  printable env (render comps) = true ->
  printable env (render root) = true ->
  is_path_allowed_safe env self (PyStr (render comps)) = Ok true ->
  is_path_allowed env self (PyStr (render comps)) = Ok true.
Proof.
  intros Hroot Hrfree Hself Hplain Hfree Hpc Hpr H.
  unfold is_path_allowed_safe in H.
  rewrite canonicalize_safe_eq in H.
  rewrite (replace_id _ _ _ (render_no_backslash _ Hplain)) in H.
  rewrite (resolve_real env comps (forallb_plain_entry _ Hplain) Hfree) in H.
  rewrite Hself, (resolve_real env root Hroot Hrfree) in H.
  cbn [bind try_except] in H. injection H as H.
  apply is_path_allowed_true; [apply isabs_render|].
  unfold cpp_root. rewrite Hself, isabs_render. cbn [negb].
  split; [|now split].
  unfold within_root in H.
  destruct (pystr_eqb (render comps) (render root)) eqn:E.
  - apply pystr_eqb_eq in E. rewrite E, <- (app_nil_r (render root)) at 1.
    apply startswith_app.
  - destruct (startswith (render comps) (render root ++ [SLASH])) eqn:E1.
    + apply startswith_spec in E1. destruct E1 as [t ->].
      rewrite <- app_assoc. apply startswith_app.
    + destruct (startswith (render comps) (render root ++ [BACKSLASH]))
        eqn:E2; [|discriminate].
      apply startswith_spec in E2. destruct E2 as [t ->].
      rewrite <- app_assoc. apply startswith_app.
Qed.

Lemma safe_implies_cpp_on_real_paths_witness :
  is_path_allowed plain_env FilePathRestrictionsFuzzer_init
    (PyStr (render (sample_root ++ [lit "run1.raw"]))) = Ok true.
Proof.
  apply (safe_implies_cpp_on_real_paths plain_env
           FilePathRestrictionsFuzzer_init sample_root
           (sample_root ++ [lit "run1.raw"]));
    try reflexivity; intros pre suf _ _; reflexivity.
Defined.

(** ** A step up after a symbolic link *)

(** X26.  [is_path_allowed_safe] follows a link before it steps up: for a
    link directly inside the root whose target is an absolute path of
    plain components, the candidate of the link followed by [..] and a
    name resolves to that name beside the target, and the verdict is
    the prefix test on that path, not on the root followed by the
    name. *)
Theorem safe_dotdot_after_link (env : Env)
    (self : FilePathRestrictionsFuzzer) (root : list pystr)
    (name x : pystr) (target : list pystr) :
  root <> [] ->
  forallb plain root = true ->
  plain name = true ->
  plain x = true ->
  forallb plain target = true ->
  allowed_root self = render root ->
  link_free env root ->
  readlink env (root ++ [name]) = Some (render target) ->
  link_free env target ->
  readlink env (removelast target ++ [x]) = None ->
  1 <= max_hops env ->
  canonicalize_safe env
    (render root ++ SLASH :: name ++ lit "/../" ++ x)
  = Ok (render (removelast target ++ [x]))
  /\ is_path_allowed_safe env self
       (PyStr (render root ++ SLASH :: name ++ lit "/../" ++ x))
     = Ok (is_prefix root (removelast target ++ [x])).
Proof.
  intros Hne Hplain Hname Hx Htarget Hself Hroot Hlink Hfree Hxlink Hhops.
  pose proof (forallb_plain_entry _ Hplain) as Hentry.
  pose proof (forallb_plain_entry _ Htarget) as Htentry.
  pose proof (plain_entry _ Hname) as Hnentry.
  pose proof (plain_entry _ Hx) as Hxentry.
  assert (Hns : contains SLASH name = false)
    by (apply entry_spec in Hnentry; tauto).
  assert (Hxs : contains SLASH x = false)
    by (apply entry_spec in Hxentry; tauto).
  set (cand := render root ++ SLASH :: name ++ lit "/../" ++ x).
  assert (Hback : contains BACKSLASH cand = false).
  { unfold cand. rewrite contains_app, (render_no_backslash _ Hplain).
    rewrite contains_cons, contains_app, (plain_no_backslash _ Hname).
    rewrite contains_app, (plain_no_backslash _ Hx). reflexivity. }
  assert (Hsplit : split_sep cand = [] :: root ++ [name; dotdot; x]).
  { unfold cand. rewrite split_sep_app_sep.
    rewrite split_render by (assumption || now apply entries_nosep).
    change (lit "/../" ++ x) with (SLASH :: (dotdot ++ SLASH :: x)).
    rewrite split_sep_app_sep, (split_sep_nosep name Hns).
    rewrite split_sep_app_sep, (split_sep_nosep x Hxs).
    reflexivity. }
  assert (Hparts : pathlib.path_parts cand = root ++ name :: [dotdot; x]).
  { unfold pathlib.path_parts. rewrite Hsplit.
    change (filter ?f ([] :: ?l)) with (filter f l).
    rewrite filter_app, (filter_entries _ Hentry). cbn [filter].
    destruct (entry_step _ Hnentry) as [-> _].
    destruct (entry_step _ Hxentry) as [-> _]. reflexivity. }
  assert (Hlast : forallb plain (removelast target ++ [x]) = true).
  { rewrite forallb_app, (forallb_removelast _ _ Htarget). cbn [forallb].
    now rewrite Hx. }
  assert (Hcanon : canonicalize_safe env cand
                   = Ok (render (removelast target ++ [x]))).
  { rewrite canonicalize_safe_eq, (replace_id _ _ _ Hback).
    assert (Hut : unlinked env
                    (if posixpath.isabs (render target) then [] else root)
                    (split_sep (render target))).
    { rewrite isabs_render. apply link_free_unlinked.
      - destruct target as [|t target]; [reflexivity|].
        rewrite split_render by (discriminate || now apply entries_nosep).
        change (existsb ?f ([] :: ?l)) with (existsb f l).
        now apply entries_no_dotdot.
      - now rewrite lexical_render. }
    assert (Hb : existsb fs_bad [dotdot; x] = false).
    { cbn [existsb]. apply entry_spec in Hxentry.
      destruct Hxentry as (_ & _ & _ & _ & ->). reflexivity. }
    assert (Hlexx : lexical target [dotdot; x] = removelast target ++ [x]).
    { cbn [lexical].
      change (is_empty dotdot || pystr_eqb dotdot dot) with false.
      change (pystr_eqb dotdot dotdot) with true. cbn iota.
      now destruct (entry_step _ Hxentry) as [-> ->]. }
    assert (Hur : unlinked env
                    (lexical
                       (if posixpath.isabs (render target) then [] else root)
                       (split_sep (render target)))
                    [dotdot; x]).
    { rewrite isabs_render, (lexical_render _ Htentry).
      cbn [unlinked].
      change (is_empty dotdot || pystr_eqb dotdot dot) with false.
      change (pystr_eqb dotdot dotdot) with true. cbn iota.
      destruct (entry_step _ Hxentry) as [-> ->]. now split. }
    destruct (resolve_through_link env cand root name (render target)
                [dotdot; x] eq_refl Hparts Hentry Hnentry Hroot Hlink
                (render_fs_ok _ Htentry) Hut Hb Hur Hhops)
      as [_ Hres].
    rewrite Hres, isabs_render, (lexical_render _ Htentry).
    now rewrite Hlexx. }
  split; [exact Hcanon|].
  unfold is_path_allowed_safe. fold cand. rewrite Hcanon, Hself.
  rewrite resolve_real by assumption.
  cbn [bind try_except]. f_equal.
  now apply within_root_render.
Qed.

Lemma safe_dotdot_after_link_witness :
  canonicalize_safe symlink_env
    (render sample_root ++ SLASH :: lit "link.txt" ++ lit "/../" ++ lit "x")
  = Ok (render (removelast [lit "etc"; lit "passwd"] ++ [lit "x"]))
  /\ is_path_allowed_safe symlink_env FilePathRestrictionsFuzzer_init
       (PyStr (render sample_root ++ SLASH :: lit "link.txt"
                 ++ lit "/../" ++ lit "x"))
     = Ok (is_prefix sample_root
             (removelast [lit "etc"; lit "passwd"] ++ [lit "x"])).
Proof.
  assert (Hfree : forall p, length p <> 4 -> readlink symlink_env p = None).
  { intros p Hp. cbn [symlink_env readlink].
    destruct (list_eq_dec (list_eq_dec N.eq_dec) p
                [lit "home"; lit "CMU"; lit "RawRecords"; lit "link.txt"])
      as [->|]; [|reflexivity].
    now contradiction Hp. }
  apply (safe_dotdot_after_link symlink_env FilePathRestrictionsFuzzer_init
           sample_root (lit "link.txt") (lit "x")
           [lit "etc"; lit "passwd"]);
    try reflexivity; try discriminate.
  - intros pre suf E _. apply Hfree.
    apply (f_equal (@length (list N))) in E. rewrite length_app in E.
    cbn [length sample_root] in E. lia.
  - intros pre suf E _. apply Hfree.
    apply (f_equal (@length (list N))) in E. rewrite length_app in E.
    cbn [length] in E. lia.
  - cbn [symlink_env max_hops]. lia.
Defined.

(** ** The showcase of the two checks *)

(** [is_path_allowed_safe] refuses the root followed by a suffix that
    goes on inside its last component. *)
Lemma safe_refuses_extended_root (env : Env)
    (self : FilePathRestrictionsFuzzer) (root : list pystr) (S : pystr) :
  no_symlinks env ->
  root <> [] ->
  forallb plain root = true ->
  allowed_root self = render root ->
  S <> [] ->
  startswith S [SLASH] = false ->
  contains BACKSLASH S = false ->
  fs_bad S = false ->
  existsb (fun c => pystr_eqb c dotdot) (tl (split_sep S)) = false ->
  is_path_allowed_safe env self (PyStr (render root ++ S)) = Ok false.
Proof.
  intros Hfs Hne Hplain Hself HS Hslash Hback Hok Hdd.
  pose proof (forallb_plain_entry _ Hplain) as Hentry.
  rewrite (safe_lexical env self root); try assumption;
    [| reflexivity | now rewrite fs_bad_app, Hok, render_fs_ok ].
  f_equal. rewrite replace_id
    by now rewrite contains_app, (render_no_backslash _ Hplain), Hback.
  destruct S as [|c S]; [contradiction|].
  assert (Hc1 : c <> SLASH) by (intros ->; discriminate).
  destruct (split_render_suffix root c S Hne Hentry Hc1)
    as (w & cs & Hsplit & ->).
  rewrite Hsplit in Hdd. cbn [tl] in Hdd.
  cbn [lexical is_empty orb].
  change (removelast root ++ (last root [] ++ c :: w) :: cs)
    with (removelast root ++ [last root [] ++ c :: w] ++ cs).
  rewrite lexical_app.
  rewrite (lexical_entries [] (removelast root))
    by (apply forallb_removelast; assumption).
  cbn [app lexical].
  destruct (extended_entry_step (last root []) w c
              (last_entry root Hne Hentry)) as [-> ->].
  rewrite (lexical_shift _ cs Hdd), <- app_assoc. cbn [app].
  rewrite (app_removelast_last [] Hne) at 1.
  apply not_prefix_extended. discriminate.
Qed.

Lemma ordinary_spec (s : pystr) :
  forallb ordinary s = true ->
  contains SLASH s = false /\ contains BACKSLASH s = false
  /\ fs_bad s = false /\ existsb is_surrogate s = false.
Proof.
  induction s as [|c s IH]; intros H; [now repeat split|].
  cbn [forallb] in H. apply andb_true_iff in H. destruct H as [Hc Hs].
  destruct (IH Hs) as (H1 & H2 & H3 & H4). unfold ordinary in Hc.
  repeat (apply andb_true_iff in Hc; destruct Hc as [Hc ?]).
  unfold fs_bad. rewrite !contains_cons. cbn [existsb].
  fold (fs_bad s). rewrite H1, H2, H3, H4.
  rewrite (N.eqb_sym SLASH c), (N.eqb_sym BACKSLASH c).
  repeat split;
    repeat match goal with
           | [ H : negb _ = true |- _ ] =>
               apply negb_true_iff in H; rewrite H
           end; reflexivity.
Qed.

Lemma samples_ordinary (attack_suffixes : list pystr) :
  Forall (fun s => In s attack_suffix_samples) attack_suffixes ->
  forallb ordinary (concat attack_suffixes) = true.
Proof.
  induction 1 as [|s l Hs _ IH]; [reflexivity|].
  cbn [concat]. rewrite forallb_app, IH, andb_true_r.
  unfold attack_suffix_samples in Hs. cbn [In] in Hs.
  repeat (destruct Hs as [<-|Hs]; [reflexivity|]). contradiction.
Qed.

Lemma samples_nonempty (attack_suffixes : list pystr) :
  attack_suffixes <> [] ->
  Forall (fun s => In s attack_suffix_samples) attack_suffixes ->
  concat attack_suffixes <> [].
Proof.
  intros Hne H. destruct H as [|s l Hs _]; [contradiction|].
  cbn [concat]. unfold attack_suffix_samples in Hs. cbn [In] in Hs.
  repeat (destruct Hs as [<-|Hs]; [discriminate|]). contradiction.
Qed.

(** What the two checks answer for the root of [__init__] followed by
    ordinary characters and, possibly, one more component. *)
Lemma showcase_step (env : Env) (S T : pystr) :
  no_symlinks env ->
  S <> [] ->
  forallb ordinary S = true ->
  forallb ordinary T = true ->
  T <> dotdot ->
  forall U, U = S \/ U = S ++ SLASH :: T ->
    is_path_allowed env FilePathRestrictionsFuzzer_init
      (PyStr (allowed_root FilePathRestrictionsFuzzer_init ++ U)) = Ok true
    /\ is_path_allowed_safe env FilePathRestrictionsFuzzer_init
         (PyStr (allowed_root FilePathRestrictionsFuzzer_init ++ U))
       = Ok false.
Proof.
  intros Hfs HS Hord HT Hdd U HU.
  destruct (ordinary_spec S Hord) as (S1 & S2 & S3 & S4).
  destruct (ordinary_spec T HT) as (T1 & T2 & T3 & T4).
  change (allowed_root FilePathRestrictionsFuzzer_init)
    with (render sample_root).
  assert (Hstart : startswith S [SLASH] = false).
  { destruct S as [|c S]; [contradiction|]. rewrite contains_cons in S1.
    apply orb_false_iff in S1. cbn [startswith]. now rewrite (proj1 S1). }
  assert (HU' : U <> [] /\ startswith U [SLASH] = false
                /\ contains BACKSLASH U = false /\ fs_bad U = false
                /\ existsb is_surrogate U = false
                /\ existsb (fun c => pystr_eqb c dotdot) (tl (split_sep U))
                   = false).
  { destruct HU as [-> | ->].
    - repeat split; try assumption. now rewrite (split_sep_nosep S S1).
    - repeat split.
      + destruct S; [contradiction | discriminate].
      + destruct S; [contradiction | exact Hstart].
      + rewrite contains_app, contains_cons, S2, T2. reflexivity.
      + rewrite fs_bad_app, S3. unfold fs_bad. cbn [existsb].
        fold (fs_bad T). now rewrite T3.
      + rewrite existsb_app, S4. cbn [existsb]. now rewrite T4.
      + rewrite split_sep_app_sep, (split_sep_nosep S S1),
          (split_sep_nosep T T1). cbn [app tl existsb].
        rewrite orb_false_r. now apply pystr_eqb_neq. }
  destruct HU' as (U0 & U1 & U2 & U3 & U4 & U5). split.
  - apply is_path_allowed_under_root; [reflexivity | | assumption].
    unfold printable. apply orb_true_iff. right. reflexivity.
  - apply (safe_refuses_extended_root env _ sample_root);
      try assumption; try reflexivity. discriminate.
Qed.

(** X27.  [test_cpp_vulnerability_showcase] counts four findings on every
    input of its strategy, on a host without symbolic links: each of its
    four attack paths is accepted by [is_path_allowed] and refused by
    [is_path_allowed_safe]. *)
Theorem showcase_counts_four (env : Env) (attack_suffixes : list pystr) :
  no_symlinks env ->
  attack_suffixes <> [] ->
  Forall (fun s => In s attack_suffix_samples) attack_suffixes ->
  test_cpp_vulnerability_showcase env attack_suffixes = Some 4.
Proof.
  intros Hfs Hne Hin.
  pose proof (samples_ordinary _ Hin) as Hord.
  pose proof (samples_nonempty _ Hne Hin) as HS.
  unfold test_cpp_vulnerability_showcase. cbv zeta.
  set (S := concat attack_suffixes) in *.
  assert (Hsur : existsb is_surrogate S = false)
    by (destruct (ordinary_spec S Hord); tauto).
  assert (Hpr : forall name T,
             existsb is_surrogate name = false ->
             existsb is_surrogate T = false ->
             print env
               [PyStr name;
                PyStr (allowed_root FilePathRestrictionsFuzzer_init
                         ++ S ++ T)]
             = Ok tt).
  { intros name T Hn HT. apply print_encodable; [reflexivity|].
    cbn [forallb encodable].
    rewrite Hn, !existsb_app, Hsur, HT. reflexivity. }
  change (lit "/malicious.exe") with (SLASH :: lit "malicious.exe").
  change (lit "/config.ini") with (SLASH :: lit "config.ini").
  change (lit "/system.dll") with (SLASH :: lit "system.dll").
  cbn [showcase_loop].
  destruct (showcase_step env S [] Hfs HS Hord eq_refl
              ltac:(discriminate) S (or_introl eq_refl)) as [-> ->].
  cbn [bind andb negb].
  rewrite <- (app_nil_r S) at 1. rewrite Hpr by reflexivity. cbn [bind].
  destruct (showcase_step env S (lit "malicious.exe") Hfs HS Hord eq_refl
              ltac:(discriminate) _ (or_intror eq_refl)) as [-> ->].
  cbn [bind andb negb]. rewrite Hpr by reflexivity. cbn [bind].
  destruct (showcase_step env S (lit "config.ini") Hfs HS Hord eq_refl
              ltac:(discriminate) _ (or_intror eq_refl)) as [-> ->].
  cbn [bind andb negb]. rewrite Hpr by reflexivity. cbn [bind].
  destruct (showcase_step env S (lit "system.dll") Hfs HS Hord eq_refl
              ltac:(discriminate) _ (or_intror eq_refl)) as [-> ->].
  cbn [bind andb negb]. rewrite Hpr by reflexivity. cbn [bind].
  change (0 <? 4) with true. cbn iota.
  assert (Hcount : first_error env [PyInt (Z.of_nat 4)] = None)
    by (vm_compute; reflexivity).
  now rewrite (print_encodable env [PyInt (Z.of_nat 4)] Hcount eq_refl).
Qed.

Lemma showcase_counts_four_witness :
  test_cpp_vulnerability_showcase plain_env [lit "_backup"; lit ".bak"]
  = Some 4.
Proof.
  apply showcase_counts_four.
  - intros p. reflexivity.
  - discriminate.
  - apply Forall_cons; [right; left; reflexivity|].
    apply Forall_cons; [do 6 right; left; reflexivity|].
    apply Forall_nil.
Defined.

(** ** The critical test of the path suite *)

(** X28.  [test_prefix_boundary_attacks] fails on every input without
    surrogates, those of its strategy among them: [is_path_allowed]
    accepts its first attack path, the root followed by the suffixes,
    and the [AssertionError] is raised again. *)
Theorem prefix_boundary_test_fails (upper lower : pystr -> pystr)
    (env : Env) (suffixes : list pystr) :
  existsb is_surrogate (concat suffixes) = false ->
  test_prefix_boundary_attacks upper lower env suffixes = AssertionFailed.
Proof.
  intros H. unfold test_prefix_boundary_attacks. cbv zeta.
  cbn [boundary_loop].
  change (allowed_root FilePathRestrictionsFuzzer_init)
    with (render sample_root).
  rewrite (is_path_allowed_under_root env FilePathRestrictionsFuzzer_init
             sample_root (concat suffixes) eq_refl); [reflexivity | | exact H].
  unfold printable. apply orb_true_iff. right. reflexivity.
Qed.

Lemma prefix_boundary_test_fails_witness :
  test_prefix_boundary_attacks (fun s => s) (fun s => s) plain_env
    [lit "_fake"; lit "2"]
  = AssertionFailed.
Proof.
  apply prefix_boundary_test_fails. reflexivity.
Defined.

(** ** Behind a link to itself *)

(** X29.  Behind a symbolic link to itself [is_path_allowed_safe] follows
    no link: for such a link directly inside the root, the candidate of
    the link followed by [..] and a name is resolved lexically only, to
    the root followed by the name, and accepted, whatever that name is
    a link to, as long as [stat] does not answer [ELOOP] for it. *)
Theorem safe_lexical_behind_loop (env : Env)
    (self : FilePathRestrictionsFuzzer) (root : list pystr)
    (l name : pystr) :
  root <> [] ->
  forallb plain root = true ->
  plain l = true ->
  plain name = true ->
  allowed_root self = render root ->
  link_free env root ->
  readlink env (root ++ [l]) = Some l ->
  stat_eloop env (render (root ++ [name])) = false ->
  1 <= max_hops env ->
  canonicalize_safe env (render (root ++ [l]) ++ lit "/../" ++ name)
  = Ok (render (root ++ [name]))
  /\ is_path_allowed_safe env self
       (PyStr (render (root ++ [l]) ++ lit "/../" ++ name))
     = Ok true.
Proof.
  intros Hne Hplain Hl Hname Hself Hfree Hlink Hstat Hhops.
  pose proof (forallb_plain_entry _ Hplain) as Hentry.
  pose proof (plain_entry _ Hl) as Hlentry.
  pose proof (plain_entry _ Hname) as Hnentry.
  assert (Hrl : forallb plain (root ++ [l]) = true).
  { rewrite forallb_app, Hplain. cbn [forallb]. now rewrite Hl. }
  assert (Hrn : forallb plain (root ++ [name]) = true).
  { rewrite forallb_app, Hplain. cbn [forallb]. now rewrite Hname. }
  pose proof (forallb_plain_entry _ Hrl) as Hrle.
  pose proof (forallb_plain_entry _ Hrn) as Hrne.
  assert (Hns : contains SLASH name = false)
    by (apply entry_spec in Hnentry; tauto).
  set (cand := render (root ++ [l]) ++ lit "/../" ++ name).
  assert (Hback : contains BACKSLASH cand = false).
  { unfold cand. rewrite contains_app, (render_no_backslash _ Hrl).
    rewrite contains_app, (plain_no_backslash _ Hname). reflexivity. }
  assert (Hsplit : split_sep cand = ([] :: root ++ [l]) ++ [dotdot; name]).
  { unfold cand.
    change (lit "/../" ++ name) with (SLASH :: (dotdot ++ SLASH :: name)).
    rewrite split_sep_app_sep.
    rewrite split_render;
      [| destruct root; discriminate | now apply entries_nosep ].
    now rewrite split_sep_app_sep, (split_sep_nosep name Hns). }
  assert (Hparts : pathlib.path_parts cand = root ++ l :: [dotdot; name]).
  { unfold pathlib.path_parts. rewrite Hsplit. cbn [app].
    change (filter ?f ([] :: ?l)) with (filter f l).
    rewrite filter_app, (filter_entries _ Hrle). cbn [filter].
    destruct (entry_step _ Hnentry) as [-> _].
    now rewrite <- app_assoc. }
  assert (Hlex : lexical [] (split_sep cand) = root ++ [name]).
  { rewrite Hsplit, lexical_app. cbn [app]. rewrite lexical_skip.
    rewrite (lexical_entries [] _ Hrle). cbn [app lexical].
    change (is_empty dotdot || pystr_eqb dotdot dot) with false.
    change (pystr_eqb dotdot dotdot) with true. cbn iota.
    destruct (entry_step _ Hnentry) as [-> ->].
    now rewrite removelast_last. }
  assert (Hcanon : canonicalize_safe env cand
                   = Ok (render (root ++ [name]))).
  { rewrite canonicalize_safe_eq, (replace_id _ _ _ Hback).
    unfold pathlib.resolve. rewrite realpath_parts.
    replace (posixpath.isabs cand) with true
      by (unfold cand; now destruct root).
    rewrite Hparts.
    destruct (max_hops env) as [|depth] eqn:Ed; [lia|].
    change [SLASH] with (spell FromRoot []).
    destruct (walk_unlinked env (posixpath.joinrealpath env depth) root
                FromRoot [] [] eq_refl (entries_nosep _ Hentry)
                (entries_unlinked env [] root Hentry Hfree))
      as [[Hx _] | (_ & a' & comps' & Hw & Hc' & Hl' & Ha)].
    { rewrite (entries_fs_ok _ Hentry) in Hx. discriminate. }
    rewrite (Ha eq_refl) in *. cbn [base app] in Hl'.
    rewrite (lexical_entries [] root Hentry) in Hl'. cbn [app] in Hl'.
    subst comps'. rewrite (walk_app_ok _ _ _ _ _ _ _ _ Hw).
    cbn [spell].
    pose proof (walk_self_link env (S depth) root l [dotdot; name]
                  Hentry Hlentry) as Hself_link.
    cbv iota beta in Hself_link. rewrite Hself_link; [| |assumption].
    2:{ cbn [forallb]. now rewrite (entry_word _ Hnentry). }
    cbn [bind].
    assert (Hnorm : posixpath.abspath env
                      (render (root ++ [l])
                         ++ SLASH :: join_sep [dotdot; name])
                    = render (root ++ [name])).
    { unfold posixpath.abspath.
      replace (posixpath.isabs
                 (render (root ++ [l]) ++ SLASH :: join_sep [dotdot; name]))
        with true by now destruct root.
      cbn [negb]. rewrite normpath_absolute.
      - now rewrite <- Hlex.
      - apply initial_slashes_render_app; [now destruct root | assumption]. }
    rewrite Hnorm, (path_str_render _ Hrne).
    unfold pathlib.stat_check.
    pose proof (render_fs_ok _ Hrne) as Hok.
    rewrite fs_bad_split in Hok. apply orb_false_iff in Hok.
    destruct Hok as [-> ->]. now rewrite Hstat. }
  split; [exact Hcanon|].
  unfold is_path_allowed_safe. fold cand. rewrite Hcanon, Hself.
  rewrite resolve_real by assumption.
  cbn [bind try_except]. f_equal.
  rewrite within_root_render by assumption. apply is_prefix_app.
Qed.

Lemma safe_lexical_behind_loop_witness :
  canonicalize_safe detour_env
    (render (sample_root ++ [lit "loop"]) ++ lit "/../" ++ lit "link.txt")
  = Ok (render (sample_root ++ [lit "link.txt"]))
  /\ is_path_allowed_safe detour_env FilePathRestrictionsFuzzer_init
       (PyStr (render (sample_root ++ [lit "loop"])
                 ++ lit "/../" ++ lit "link.txt"))
     = Ok true.
Proof.
  apply (safe_lexical_behind_loop detour_env FilePathRestrictionsFuzzer_init
           sample_root (lit "loop") (lit "link.txt"));
    try reflexivity; try discriminate.
  - intros pre suf E _. cbn [detour_env symlink_env readlink].
    destruct (list_eq_dec (list_eq_dec N.eq_dec) pre
                [lit "home"; lit "CMU"; lit "RawRecords"; lit "loop"])
      as [->|]; [apply (f_equal (@length (list N))) in E;
                 rewrite length_app in E; cbn [length sample_root] in E; lia|].
    destruct (list_eq_dec (list_eq_dec N.eq_dec) pre
                [lit "home"; lit "CMU"; lit "RawRecords"; lit "link.txt"])
      as [->|]; [|reflexivity].
    apply (f_equal (@length (list N))) in E. rewrite length_app in E.
    cbn [length sample_root] in E. lia.
  - cbn [detour_env max_hops]. lia.
Defined.
